(** * Tray to-do manager: weighted truncation, JSON store, single instance

    A shallow embedding of the Go program (the single-instance build
    [main.go], the weighted build and the simple build) together with the
    parts of the Go runtime and standard library its behaviour rests on:
    UTF-8 iteration of strings ([for _, r := range s]), the conversion
    [string(r)], [unicode.Is], [strings.TrimSpace], [encoding/json] for the
    type [[]Todo], and a small model of the file and of the socket.

    Go strings are byte sequences: [gostring] is [list byte].  Runes and
    machine integers are [Z]. *)

From Stdlib.Strings Require Import Byte String.
From Stdlib Require Import ZArith List Lia Bool Arith.
Import ListNotations.

Open Scope Z_scope.

Definition gostring := list byte.
Definition rune := Z.

(** Conversions between bytes and integers: [b2z] is the widening [rune(b)],
    [byte_of_Z] the truncating conversion [byte(x)]. *)
Definition b2z (b : byte) : Z := Z.of_N (Byte.to_N b).

Definition byte_of_Z (z : Z) : byte :=
  match Byte.of_N (Z.to_N (z mod 256)) with
  | Some b => b
  | None => x00
  end.

(** A Go string literal in plain ASCII. *)
Definition bs (s : string) : gostring := list_byte_of_string s.

(** [a == b] on strings. *)
Fixpoint gostring_eq (a b : gostring) : bool :=
  match a, b with
  | [], [] => true
  | x :: a', y :: b' => Byte.eqb x y && gostring_eq a' b'
  | _, _ => false
  end.

(** ** UTF-8 (package unicode/utf8 and the [range] clause over strings) *)

Module Utf8.

Definition RuneError : rune := 0xFFFD.
Definition MaxRune : rune := 0x10FFFF.
Definition RuneSelf : Z := 0x80.
Definition surrogateMin : rune := 0xD800.
Definition surrogateMax : rune := 0xDFFF.

Definition t2 : Z := 0xC0.
Definition t3 : Z := 0xE0.
Definition t4 : Z := 0xF0.
Definition tx : Z := 0x80.
Definition maskx : Z := 0x3F.
Definition mask2 : Z := 0x1F.
Definition mask3 : Z := 0x0F.
Definition mask4 : Z := 0x07.
Definition rune1Max : rune := 0x7F.
Definition rune2Max : rune := 0x7FF.
Definition rune3Max : rune := 0xFFFF.
Definition locb : Z := 0x80.
Definition hicb : Z := 0xBF.

(** The table [first] of the utf8 package for the bytes from 0x80 up, read
    as: the size of the sequence a lead byte announces and the range
    accepted for its second byte.  [None] stands for the entries [xx], the
    bytes that start no sequence. *)
Definition first (s0 : Z) : option (nat * Z * Z) :=
  if s0 <? 0xC2 then None
  else if s0 <=? 0xDF then Some (2%nat, locb, hicb)
  else if s0 =? 0xE0 then Some (3%nat, 0xA0, hicb)
  else if s0 <=? 0xEC then Some (3%nat, locb, hicb)
  else if s0 =? 0xED then Some (3%nat, locb, 0x9F)
  else if s0 <=? 0xEF then Some (3%nat, locb, hicb)
  else if s0 =? 0xF0 then Some (4%nat, 0x90, hicb)
  else if s0 <=? 0xF3 then Some (4%nat, locb, hicb)
  else if s0 =? 0xF4 then Some (4%nat, locb, 0x8F)
  else None.

Definition is_cont (b : Z) : bool := (locb <=? b) && (b <=? hicb).

(** [utf8.DecodeRuneInString]: the rune at the head of [s] and its width in
    bytes; an invalid or short sequence gives [(RuneError, 1)], the empty
    string [(RuneError, 0)]. *)
Definition DecodeRune (s : gostring) : rune * nat :=
  match s with
  | [] => (RuneError, 0%nat)
  | c0 :: rest0 =>
    let s0 := b2z c0 in
    if s0 <? RuneSelf then (s0, 1%nat)
    else
      match first s0 with
      | None => (RuneError, 1%nat)
      | Some (sz, lo, hi) =>
        match rest0 with
        | [] => (RuneError, 1%nat)
        | c1 :: rest1 =>
          let s1 := b2z c1 in
          if (s1 <? lo) || (hi <? s1) then (RuneError, 1%nat)
          else if (sz <=? 2)%nat then
            (Z.lor (Z.shiftl (Z.land s0 mask2) 6) (Z.land s1 maskx), 2%nat)
          else
            match rest1 with
            | [] => (RuneError, 1%nat)
            | c2 :: rest2 =>
              let s2 := b2z c2 in
              if negb (is_cont s2) then (RuneError, 1%nat)
              else if (sz <=? 3)%nat then
                (Z.lor (Z.shiftl (Z.land s0 mask3) 12)
                   (Z.lor (Z.shiftl (Z.land s1 maskx) 6) (Z.land s2 maskx)),
                 3%nat)
              else
                match rest2 with
                | [] => (RuneError, 1%nat)
                | c3 :: _ =>
                  let s3 := b2z c3 in
                  if negb (is_cont s3) then (RuneError, 1%nat)
                  else
                    (Z.lor (Z.shiftl (Z.land s0 mask4) 18)
                       (Z.lor (Z.shiftl (Z.land s1 maskx) 12)
                          (Z.lor (Z.shiftl (Z.land s2 maskx) 6)
                             (Z.land s3 maskx))),
                     4%nat)
                end
            end
        end
      end
  end.

Definition encode2 (r : rune) : gostring :=
  [byte_of_Z (Z.lor t2 (Z.shiftr r 6));
   byte_of_Z (Z.lor tx (Z.land r maskx))].

Definition encode3 (r : rune) : gostring :=
  [byte_of_Z (Z.lor t3 (Z.shiftr r 12));
   byte_of_Z (Z.lor tx (Z.land (Z.shiftr r 6) maskx));
   byte_of_Z (Z.lor tx (Z.land r maskx))].

Definition encode4 (r : rune) : gostring :=
  [byte_of_Z (Z.lor t4 (Z.shiftr r 18));
   byte_of_Z (Z.lor tx (Z.land (Z.shiftr r 12) maskx));
   byte_of_Z (Z.lor tx (Z.land (Z.shiftr r 6) maskx));
   byte_of_Z (Z.lor tx (Z.land r maskx))].

(** [utf8.AppendRune(nil, r)], which is also the conversion [string(r)]:
    negative values, values above [MaxRune] and surrogates are written as
    [RuneError]. *)
Definition EncodeRune (r : rune) : gostring :=
  if (0 <=? r) && (r <=? rune1Max) then [byte_of_Z r]
  else if (0 <=? r) && (r <=? rune2Max) then encode2 r
  else if (r <? 0) || (MaxRune <? r)
          || ((surrogateMin <=? r) && (r <=? surrogateMax))
       then encode3 RuneError
  else if r <=? rune3Max then encode3 r
  else encode4 r.

(** A rune that [EncodeRune] writes as itself. *)
Definition ValidRune (r : rune) : bool :=
  ((0 <=? r) && (r <? surrogateMin))
  || ((surrogateMax <? r) && (r <=? MaxRune)).

(** The runes a [for _, r := range s] loop visits, in order.  Each step
    decodes one rune and advances by its width, which is at least one byte,
    so [length s] steps are enough. *)
Fixpoint runes_fuel (fuel : nat) (s : gostring) : list rune :=
  match fuel with
  | O => []
  | S fuel' =>
    match s with
    | [] => []
    | _ :: _ =>
      let (r, n) := DecodeRune s in
      r :: runes_fuel fuel' (skipn n s)
    end
  end.

Definition runes (s : gostring) : list rune := runes_fuel (length s) s.

(** [res += string(r)] over a sequence of runes. *)
Definition encode_runes (rs : list rune) : gostring :=
  concat (map EncodeRune rs).

(** [utf8.ValidString]: no step of the scan meets an invalid or short
    sequence, which is what [DecodeRune] reports as [(RuneError, 1)]. *)
Fixpoint valid_fuel (fuel : nat) (s : gostring) : bool :=
  match fuel with
  | O => true
  | S fuel' =>
    match s with
    | [] => true
    | _ :: _ =>
      let (r, n) := DecodeRune s in
      if (r =? RuneError) && (n =? 1)%nat then false
      else valid_fuel fuel' (skipn n s)
    end
  end.

Definition ValidString (s : gostring) : bool := valid_fuel (length s) s.

(** [utf8.RuneCountInString]. *)
Definition RuneCountInString (s : gostring) : Z := Z.of_nat (length (runes s)).

End Utf8.

(** ** Package unicode: range tables *)

Module Unicode.

Record Range := mkRange { Lo : rune; Hi : rune; Stride : Z }.

(** A [RangeTable], its 16-bit ranges followed by its 32-bit ranges. *)
Definition RangeTable := list Range.

Definition inRange (r : rune) (rg : Range) : bool :=
  (Lo rg <=? r) && (r <=? Hi rg) && ((r - Lo rg) mod Stride rg =? 0).

(** [unicode.Is]: the rune belongs to one of the ranges of the table. *)
Definition Is (tab : RangeTable) (r : rune) : bool := existsb (inRange r) tab.

(** The script table [unicode.Han] of Unicode 15.0.0. *)
Definition Han : RangeTable :=
  [ mkRange 0x2e80 0x2e99 1; mkRange 0x2e9b 0x2ef3 1; mkRange 0x2f00 0x2fd5 1;
    mkRange 0x3005 0x3007 2; mkRange 0x3021 0x3029 1; mkRange 0x3038 0x303b 1;
    mkRange 0x3400 0x4dbf 1; mkRange 0x4e00 0x9fff 1; mkRange 0xf900 0xfa6d 1;
    mkRange 0xfa70 0xfad9 1; mkRange 0x16fe2 0x16fe3 1;
    mkRange 0x16ff0 0x16ff1 1; mkRange 0x20000 0x2a6df 1;
    mkRange 0x2a700 0x2b739 1; mkRange 0x2b740 0x2b81d 1;
    mkRange 0x2b820 0x2cea1 1; mkRange 0x2ceb0 0x2ebe0 1;
    mkRange 0x2f800 0x2fa1d 1; mkRange 0x30000 0x3134a 1;
    mkRange 0x31350 0x323af 1 ].

(** The property table [unicode.White_Space]. *)
Definition White_Space : RangeTable :=
  [ mkRange 0x0009 0x000d 1; mkRange 0x0020 0x0020 1; mkRange 0x0085 0x0085 1;
    mkRange 0x00a0 0x00a0 1; mkRange 0x1680 0x1680 1; mkRange 0x2000 0x200a 1;
    mkRange 0x2028 0x2029 1; mkRange 0x202f 0x202f 1; mkRange 0x205f 0x205f 1;
    mkRange 0x3000 0x3000 1 ].

(** [unicode.IsSpace]. *)
Definition IsSpace (r : rune) : bool := Is White_Space r.

End Unicode.

(** ** Package strings: TrimSpace *)

Module Strings.

Definition asciiSpace (b : Z) : bool :=
  (b =? 0x09) || (b =? 0x0a) || (b =? 0x0b) || (b =? 0x0c) || (b =? 0x0d)
  || (b =? 0x20).

(** [utf8.RuneStart]. *)
Definition RuneStart (b : Z) : bool := negb (Z.land b 0xC0 =? 0x80).

(** The loop of [DecodeLastRuneInString] that steps back from [start] to a
    byte that can start a rune, no further than [lim]. *)
Fixpoint backToStart (steps : nat) (s : gostring) (start lim : Z) : Z :=
  match steps with
  | O => start
  | S steps' =>
    if start <? lim then start
    else if RuneStart (b2z (nth (Z.to_nat start) s x00)) then start
    else backToStart steps' s (start - 1) lim
  end.

(** [utf8.DecodeLastRuneInString]. *)
Definition DecodeLastRune (s : gostring) : rune * nat :=
  let fin := Z.of_nat (length s) in
  if fin =? 0 then (Utf8.RuneError, 0%nat)
  else
    let start := fin - 1 in
    let r := b2z (nth (Z.to_nat start) s x00) in
    if r <? Utf8.RuneSelf then (r, 1%nat)
    else
      let lim := Z.max 0 (fin - 4) in
      let start1 := Z.max 0 (backToStart 4 s (start - 1) lim) in
      let (r1, size) := Utf8.DecodeRune (skipn (Z.to_nat start1) s) in
      if start1 + Z.of_nat size =? fin then (r1, size)
      else (Utf8.RuneError, 1%nat).

(** [strings.TrimLeftFunc(s, unicode.IsSpace)]. *)
Fixpoint trimLeftSpace (fuel : nat) (s : gostring) : gostring :=
  match fuel with
  | O => s
  | S fuel' =>
    match s with
    | [] => []
    | _ :: _ =>
      let (r, size) := Utf8.DecodeRune s in
      if Unicode.IsSpace r then trimLeftSpace fuel' (skipn size s) else s
    end
  end.

(** [strings.TrimRightFunc(s, unicode.IsSpace)]. *)
Fixpoint trimRightSpace (fuel : nat) (s : gostring) : gostring :=
  match fuel with
  | O => s
  | S fuel' =>
    match s with
    | [] => []
    | _ :: _ =>
      let (r, size) := DecodeLastRune s in
      if Unicode.IsSpace r
      then trimRightSpace fuel' (firstn (length s - size) s)
      else s
    end
  end.

Definition TrimFuncSpace (s : gostring) : gostring :=
  let l := trimLeftSpace (length s) s in trimRightSpace (length l) l.

(** The second loop of [TrimSpace], on the reversed string: drop ASCII
    spaces from the end, fall back to [TrimRightFunc] on a non-ASCII byte. *)
Fixpoint trimStop (rs : gostring) : gostring :=
  match rs with
  | [] => []
  | c :: rs' =>
    if b2z c >=? Utf8.RuneSelf
    then let s := rev rs in trimRightSpace (length s) s
    else if asciiSpace (b2z c) then trimStop rs'
    else rev rs
  end.

(** [strings.TrimSpace]: the first loop drops ASCII spaces from the
    start and falls back to [TrimFunc] on a non-ASCII byte. *)
Fixpoint TrimSpace (s : gostring) : gostring :=
  match s with
  | [] => []
  | c :: rest =>
    if b2z c >=? Utf8.RuneSelf then TrimFuncSpace s
    else if asciiSpace (b2z c) then TrimSpace rest
    else trimStop (rev s)
  end.

End Strings.

(** ** Weighted measure and truncation (getWeight, truncateByWeight,
       truncateByWeightWithEllipsis)

    The three functions are the same in the single-instance build and in the
    weighted build.  The table [unicode.Han] is a parameter: nothing below
    depends on which code points it lists. *)

Section Weight.

Variable Han : Unicode.RangeTable.

(** [itemW := 1; if unicode.Is(unicode.Han, r) { itemW = 2 }]. *)
Definition itemW (r : rune) : Z := if Unicode.Is Han r then 2 else 1.

(** [getWeight]: the loop over the runes of [s], with its counter [w]. *)
Definition getWeight (s : gostring) : Z :=
  fold_left (fun w r => if Unicode.Is Han r then w + 2 else w + 1)
            (Utf8.runes s) 0.

(** The loop shared by the two truncation functions: [currW] and [res] are
    its variables, the [break] leaves it with the current [res]. *)
Fixpoint truncateLoop (maxW : Z) (rs : list rune) (currW : Z) (res : gostring)
  : gostring :=
  match rs with
  | [] => res
  | r :: rs' =>
    let w := itemW r in
    if currW + w >? maxW then res
    else truncateLoop maxW rs' (currW + w) (res ++ Utf8.EncodeRune r)
  end.

(** The literal of the ellipsis, U+2026. *)
Definition ellipsis : gostring := [xe2; x80; xa6].

Definition truncateByWeightWithEllipsis (s : gostring) (maxW : Z) : gostring :=
  if getWeight s <=? maxW then s
  else truncateLoop maxW (Utf8.runes s) 0 [] ++ ellipsis.

Definition truncateByWeight (s : gostring) (maxW : Z) : gostring :=
  truncateLoop maxW (Utf8.runes s) 0 [].

End Weight.

Definition maxWeight : Z := 40.

(** ** The to-do list and its JSON form (encoding/json) *)

Record Todo := mkTodo { Text : gostring }.

(** A value of type [[]Todo]: [None] is the nil slice. *)
Definition TodoSlice := option (list Todo).

Definition elems (ts : TodoSlice) : list Todo :=
  match ts with
  | Some l => l
  | None => []
  end.

Module Json.

#[local] Set Warnings "-register-all".
Inductive value :=
| Null
| Bool (b : bool)
| Number (lit : gostring)
| String (s : gostring)
| Array (vs : list value)
| Object (members : list (gostring * value)).

(** *** Encoding *)

Definition hex (n : Z) : byte := nth (Z.to_nat n) (bs "0123456789abcdef") x00.

(** [htmlSafeSet]: the ASCII bytes written as they are. *)
Definition htmlSafe (b : Z) : bool :=
  (0x20 <=? b) && (b <? 0x80)
  && negb ((b =? 0x22) || (b =? 0x26) || (b =? 0x3c) || (b =? 0x3e) || (b =? 0x5c)).

(** The escape written for an ASCII byte outside [htmlSafeSet]; the short
    forms of backspace and form feed are those of Go 1.22 and later (earlier
    releases write their six-byte forms, which unquote to the same bytes). *)
Definition escapeByte (c : byte) : gostring :=
  let b := b2z c in
  if (b =? 0x5c) || (b =? 0x22) then [x5c; c]
  else if b =? 0x08 then [x5c; x62]
  else if b =? 0x0c then [x5c; x66]
  else if b =? 0x0a then [x5c; x6e]
  else if b =? 0x0d then [x5c; x72]
  else if b =? 0x09 then [x5c; x74]
  else [x5c; x75; x30; x30; hex (Z.shiftr b 4); hex (Z.land b 0xF)].

(** The body of [appendString] with [escapeHTML] set: one step per byte or
    per rune of [src]. *)
Fixpoint appendString_fuel (fuel : nat) (src : gostring) : gostring :=
  match fuel with
  | O => []
  | S fuel' =>
    match src with
    | [] => []
    | c :: rest =>
      if b2z c <? Utf8.RuneSelf then
        (if htmlSafe (b2z c) then [c] else escapeByte c)
        ++ appendString_fuel fuel' rest
      else
        let (r, size) := Utf8.DecodeRune src in
        (if (r =? Utf8.RuneError) && (size =? 1)%nat then
           [x5c; x75; x66; x66; x66; x64]
         else if (r =? 0x2028) || (r =? 0x2029) then
           [x5c; x75; x32; x30; x32; hex (Z.land r 0xF)]
         else firstn size src)
        ++ appendString_fuel fuel' (skipn size src)
    end
  end.

Definition appendString (src : gostring) : gostring :=
  [x22] ++ appendString_fuel (length src) src ++ [x22].

(** One element of the array as [MarshalIndent(todos, "", "  ")] lays it
    out: a new line, the object at depth one, its field at depth two. *)
Definition marshalElem (t : Todo) : gostring :=
  [x0a] ++ bs "  {" ++ [x0a] ++ bs "    " ++ [x22] ++ bs "text" ++ [x22]
  ++ bs ": " ++ appendString (Text t) ++ [x0a] ++ bs "  }".

Fixpoint marshalElems (l : list Todo) : gostring :=
  match l with
  | [] => []
  | [t] => marshalElem t
  | t :: l' => marshalElem t ++ bs "," ++ marshalElems l'
  end.

(** [json.MarshalIndent(todos, "", "  ")] for [todos] of type [[]Todo]:
    [json.Marshal] followed by [json.Indent].  The nil slice is written
    [null], the empty one [[]].  No value of this type makes it fail. *)
Definition MarshalIndent (todos : TodoSlice) : gostring :=
  match todos with
  | None => bs "null"
  | Some [] => bs "[]"
  | Some l => bs "[" ++ marshalElems l ++ [x0a] ++ bs "]"
  end.

(** *** Scanning *)

Inductive token :=
| TBeginArray | TEndArray | TBeginObject | TEndObject | TColon | TComma
| TString (s : gostring) | TNumber (lit : gostring)
| TTrue | TFalse | TNull.

(** The states of the scanner inside a number: [stateNeg], [state0],
    [state1], [stateDot], [stateDot0], [stateE], [stateESign], [stateE0]. *)
Inductive numState := NNeg | N0 | N1 | NDot | NDot0 | NE | NESign | NE0.

(** Inside a string: [stateInString], [stateInStringEsc] and the four
    states after a backslash-u, counted by the hex digits still due. *)
Inductive strState := SIn | SEsc | SU (due : nat).

Inductive lexState :=
| LBegin
| LString (st : strState) (lit : gostring)
| LNumber (st : numState) (lit : gostring)
| LLiteral (due : gostring) (t : token).

Definition isSpace (b : Z) : bool :=
  (b =? 0x20) || (b =? 0x09) || (b =? 0x0d) || (b =? 0x0a).

Definition isDigit (b : Z) : bool := (0x30 <=? b) && (b <=? 0x39).

Definition isHex (b : Z) : bool :=
  isDigit b || ((0x61 <=? b) && (b <=? 0x66)) || ((0x41 <=? b) && (b <=? 0x46)).

Inductive beginAct := AErr | ASkip | AEmit (t : token) | AEnter (st : lexState).

(** [stateBeginValue] and the punctuation, read at the start of a token. *)
Definition beginAt (c : byte) : beginAct :=
  let b := b2z c in
  if isSpace b then ASkip
  else if b =? 0x5b then AEmit TBeginArray
  else if b =? 0x5d then AEmit TEndArray
  else if b =? 0x7b then AEmit TBeginObject
  else if b =? 0x7d then AEmit TEndObject
  else if b =? 0x3a then AEmit TColon
  else if b =? 0x2c then AEmit TComma
  else if b =? 0x22 then AEnter (LString SIn [])
  else if b =? 0x2d then AEnter (LNumber NNeg [c])
  else if b =? 0x30 then AEnter (LNumber N0 [c])
  else if isDigit b then AEnter (LNumber N1 [c])
  else if b =? 0x74 then AEnter (LLiteral (bs "rue") TTrue)
  else if b =? 0x66 then AEnter (LLiteral (bs "alse") TFalse)
  else if b =? 0x6e then AEnter (LLiteral (bs "ull") TNull)
  else AErr.

(** A step inside a number: [Some (Some st)] goes on, [Some None] ends the
    number before this byte, [None] is a syntax error. *)
Definition numStep (st : numState) (b : Z) : option (option numState) :=
  let isE := (b =? 0x65) || (b =? 0x45) in
  match st with
  | NNeg => if b =? 0x30 then Some (Some N0)
            else if isDigit b then Some (Some N1) else None
  | N0 => if b =? 0x2e then Some (Some NDot)
          else if isE then Some (Some NE) else Some None
  | N1 => if isDigit b then Some (Some N1)
          else if b =? 0x2e then Some (Some NDot)
          else if isE then Some (Some NE) else Some None
  | NDot => if isDigit b then Some (Some NDot0) else None
  | NDot0 => if isDigit b then Some (Some NDot0)
             else if isE then Some (Some NE) else Some None
  | NE => if (b =? 0x2b) || (b =? 0x2d) then Some (Some NESign)
          else if isDigit b then Some (Some NE0) else None
  | NESign => if isDigit b then Some (Some NE0) else None
  | NE0 => if isDigit b then Some (Some NE0) else Some None
  end.

Definition numFinal (st : numState) : bool :=
  match st with
  | N0 | N1 | NDot0 | NE0 => true
  | _ => false
  end.

Inductive strAct := StrErr | StrGo (st : strState) | StrEnd.

Definition strStep (st : strState) (b : Z) : strAct :=
  match st with
  | SIn => if b =? 0x22 then StrEnd
           else if b =? 0x5c then StrGo SEsc
           else if b <? 0x20 then StrErr
           else StrGo SIn
  | SEsc => if (b =? 0x62) || (b =? 0x66) || (b =? 0x6e) || (b =? 0x72)
               || (b =? 0x74) || (b =? 0x5c) || (b =? 0x2f) || (b =? 0x22)
            then StrGo SIn
            else if b =? 0x75 then StrGo (SU 4)
            else StrErr
  | SU due => if isHex b
              then (if (due <=? 1)%nat then StrGo SIn else StrGo (SU (due - 1)))
              else StrErr
  end.

(** *** Unquoting a string literal ([unquoteBytes], without the quotes) *)

Definition hexVal (b : Z) : option Z :=
  if isDigit b then Some (b - 0x30)
  else if (0x61 <=? b) && (b <=? 0x66) then Some (b - 0x61 + 10)
  else if (0x41 <=? b) && (b <=? 0x46) then Some (b - 0x41 + 10)
  else None.

(** [getu4]: the value of a leading backslash-u escape, or [-1]. *)
Definition getu4 (s : gostring) : rune :=
  match s with
  | c0 :: c1 :: h1 :: h2 :: h3 :: h4 :: _ =>
    if (b2z c0 =? 0x5c) && (b2z c1 =? 0x75) then
      match hexVal (b2z h1), hexVal (b2z h2), hexVal (b2z h3), hexVal (b2z h4) with
      | Some a, Some b, Some c, Some d => ((a * 16 + b) * 16 + c) * 16 + d
      | _, _, _, _ => -1
      end
    else -1
  | _ => -1
  end.

(** [utf16.IsSurrogate] and [utf16.DecodeRune]. *)
Definition IsSurrogate (r : rune) : bool := (0xd800 <=? r) && (r <? 0xe000).

Definition utf16DecodeRune (r1 r2 : rune) : rune :=
  if (0xd800 <=? r1) && (r1 <? 0xdc00) && (0xdc00 <=? r2) && (r2 <? 0xe000)
  then Z.lor (Z.shiftl (r1 - 0xd800) 10) (r2 - 0xdc00) + 0x10000
  else Utf8.RuneError.

Definition prepend (p : gostring) (o : option gostring) : option gostring :=
  option_map (app p) o.

Fixpoint unquote_fuel (fuel : nat) (s : gostring) : option gostring :=
  match s with
  | [] => Some []
  | c :: rest =>
    match fuel with
    | O => None
    | S fuel' =>
      let b := b2z c in
      if b =? 0x5c then
        match rest with
        | [] => None
        | e :: rest' =>
          let eb := b2z e in
          if (eb =? 0x22) || (eb =? 0x5c) || (eb =? 0x2f) || (eb =? 0x27)
          then prepend [e] (unquote_fuel fuel' rest')
          else if eb =? 0x62 then prepend [x08] (unquote_fuel fuel' rest')
          else if eb =? 0x66 then prepend [x0c] (unquote_fuel fuel' rest')
          else if eb =? 0x6e then prepend [x0a] (unquote_fuel fuel' rest')
          else if eb =? 0x72 then prepend [x0d] (unquote_fuel fuel' rest')
          else if eb =? 0x74 then prepend [x09] (unquote_fuel fuel' rest')
          else if eb =? 0x75 then
            let rr := getu4 s in
            if rr <? 0 then None
            else
              let s1 := skipn 6 s in
              if IsSurrogate rr then
                let dec := utf16DecodeRune rr (getu4 s1) in
                if negb (dec =? Utf8.RuneError)
                then prepend (Utf8.EncodeRune dec) (unquote_fuel fuel' (skipn 6 s1))
                else prepend (Utf8.EncodeRune Utf8.RuneError) (unquote_fuel fuel' s1)
              else prepend (Utf8.EncodeRune rr) (unquote_fuel fuel' s1)
          else None
        end
      else if (b =? 0x22) || (b <? 0x20) then None
      else if b <? Utf8.RuneSelf then prepend [c] (unquote_fuel fuel' rest)
      else
        let (rr, size) := Utf8.DecodeRune s in
        prepend (Utf8.EncodeRune rr) (unquote_fuel fuel' (skipn size s))
    end
  end.

Definition unquote (s : gostring) : option gostring := unquote_fuel (length s) s.

(** The string a scanned literal denotes.  The decoder gives up on a
    literal that does not unquote; the scanner lets no such literal
    through, so that validity is decided by the scanner alone. *)
Definition unquoted (s : gostring) : gostring :=
  match unquote s with
  | Some t => t
  | None => []
  end.

Definition emits (ts : list token) (o : option (list token))
  : option (list token) :=
  option_map (app ts) o.

(** The step at the start of a token: the tokens completed and the next
    state. *)
Definition beginStep (c : byte) : option (list token * lexState) :=
  match beginAt c with
  | AErr => None
  | ASkip => Some ([], LBegin)
  | AEmit t => Some ([t], LBegin)
  | AEnter st => Some ([], st)
  end.

(** One step of the scanner.  The literal of a string or of a number is
    kept in reverse in the state; the byte that ends a number is read
    again as the start of what follows. *)
Definition lexStep (st : lexState) (c : byte) : option (list token * lexState) :=
  match st with
  | LBegin => beginStep c
  | LString ss lit =>
    match strStep ss (b2z c) with
    | StrErr => None
    | StrGo ss' => Some ([], LString ss' (c :: lit))
    | StrEnd => Some ([TString (unquoted (rev lit))], LBegin)
    end
  | LNumber ns lit =>
    match numStep ns (b2z c) with
    | None => None
    | Some (Some ns') => Some ([], LNumber ns' (c :: lit))
    | Some None =>
      match beginStep c with
      | Some (ts, st') => Some (TNumber (rev lit) :: ts, st')
      | None => None
      end
    end
  | LLiteral due t =>
    match due with
    | [] => None
    | d :: due' =>
      if Byte.eqb c d then
        match due' with
        | [] => Some ([t], LBegin)
        | _ :: _ => Some ([], LLiteral due' t)
        end
      else None
    end
  end.

(** The end of the input: a number may end there, a string or a literal
    may not. *)
Definition lexEnd (st : lexState) : option (list token) :=
  match st with
  | LBegin => Some []
  | LNumber ns lit => if numFinal ns then Some [TNumber (rev lit)] else None
  | _ => None
  end.

(** The scanner, one byte at a time. *)
Fixpoint lex (st : lexState) (s : gostring) : option (list token) :=
  match s with
  | [] => lexEnd st
  | c :: rest =>
    match lexStep st c with
    | None => None
    | Some (ts, st') => emits ts (lex st' rest)
    end
  end.

(** *** Parsing the tokens *)

Definition maxNestingDepth : Z := 10000.

(** A container being read: the values read so far, in reverse, and for an
    object the key whose value is due. *)
Inductive frame :=
| FArr (acc : list value)
| FObj (acc : list (gostring * value)) (key : gostring).

Inductive mode :=
| MValue | MArrFirst | MArrNext | MObjFirst | MObjKey | MObjColon | MObjNext
| MDone (v : value).

Definition complete (v : value) (st : list frame) : option (mode * list frame) :=
  match st with
  | [] => Some (MDone v, [])
  | FArr acc :: st' => Some (MArrNext, FArr (v :: acc) :: st')
  | FObj acc key :: st' => Some (MObjNext, FObj ((key, v) :: acc) key :: st')
  end.

Definition push (f : frame) (m : mode) (st : list frame)
  : option (mode * list frame) :=
  if Z.of_nat (length st) <? maxNestingDepth then Some (m, f :: st) else None.

Definition beginValue (t : token) (st : list frame) : option (mode * list frame) :=
  match t with
  | TNull => complete Null st
  | TTrue => complete (Bool true) st
  | TFalse => complete (Bool false) st
  | TNumber lit => complete (Number lit) st
  | TString s => complete (String s) st
  | TBeginArray => push (FArr []) MArrFirst st
  | TBeginObject => push (FObj [] []) MObjFirst st
  | _ => None
  end.

Definition step (m : mode) (st : list frame) (t : token)
  : option (mode * list frame) :=
  match m, t, st with
  | MValue, _, _ => beginValue t st
  | MArrFirst, TEndArray, FArr _ :: st' => complete (Array []) st'
  | MArrFirst, _, _ => beginValue t st
  | MArrNext, TComma, _ => Some (MValue, st)
  | MArrNext, TEndArray, FArr acc :: st' => complete (Array (rev acc)) st'
  | MObjFirst, TEndObject, FObj _ _ :: st' => complete (Object []) st'
  | (MObjFirst | MObjKey), TString k, FObj acc _ :: st' =>
    Some (MObjColon, FObj acc k :: st')
  | MObjColon, TColon, _ => Some (MValue, st)
  | MObjNext, TComma, _ => Some (MObjKey, st)
  | MObjNext, TEndObject, FObj acc _ :: st' => complete (Object (rev acc)) st'
  | _, _, _ => None
  end.

Fixpoint run (m : mode) (st : list frame) (ts : list token) : option value :=
  match ts with
  | [] => match m with MDone v => Some v | _ => None end
  | t :: ts' =>
    match step m st t with
    | Some (m', st') => run m' st' ts'
    | None => None
    end
  end.

(** The JSON value a text denotes; [None] when the text is not valid JSON
    (what [json.Valid] and the first pass of [json.Unmarshal] reject). *)
Definition parse (data : gostring) : option value :=
  match lex LBegin data with
  | Some ts => run MValue [] ts
  | None => None
  end.

Definition Valid (data : gostring) : bool :=
  match parse data with Some _ => true | None => false end.

(** *** Decoding into [[]Todo] *)

Definition upper (c : byte) : byte :=
  if (0x61 <=? b2z c) && (b2z c <=? 0x7a) then byte_of_Z (b2z c - 0x20) else c.

(** The field the key of a member selects: the only field is [Text], named
    [text]; a key selects it when it is equal to the name, or equal to it
    under case folding.  No non-ASCII rune folds to [T], [E] or [X], so the
    keys concerned are the ASCII spellings of the name in either case. *)
Definition fieldMatch (key : gostring) : bool :=
  gostring_eq key (bs "text") || gostring_eq (map upper key) (bs "TEXT").

(** Storing a value into the field [Text]: a string sets it, [null] leaves
    it, anything else is an [UnmarshalTypeError] that is saved while the
    decoding goes on. *)
Definition storeText (v : value) (t : Todo) : Todo * bool :=
  match v with
  | String s => (mkTodo s, false)
  | Null => (t, false)
  | _ => (t, true)
  end.

Fixpoint decodeMembers (ms : list (gostring * value)) (t : Todo) : Todo * bool :=
  match ms with
  | [] => (t, false)
  | (k, v) :: ms' =>
    if fieldMatch k then
      let (t1, e1) := storeText v t in
      let (t2, e2) := decodeMembers ms' t1 in
      (t2, e1 || e2)
    else decodeMembers ms' t
  end.

(** An element of the array, decoded into a fresh [Todo]. *)
Definition decodeTodo (v : value) : Todo * bool :=
  match v with
  | Object ms => decodeMembers ms (mkTodo [])
  | Null => (mkTodo [], false)
  | _ => (mkTodo [], true)
  end.

Definition decodeSlice (v : value) : TodoSlice * bool :=
  match v with
  | Null => (None, false)
  | Array vs =>
    (Some (map (fun x => fst (decodeTodo x)) vs),
     existsb (fun x => snd (decodeTodo x)) vs)
  | _ => (None, true)
  end.

Inductive error := SyntaxError | UnmarshalTypeError.

(** [json.Unmarshal(data, &todos)] where [todos] is a fresh nil slice: the
    value left in [todos] and the error returned. *)
Definition Unmarshal (data : gostring) : TodoSlice * option error :=
  match parse data with
  | None => (None, Some SyntaxError)
  | Some v =>
    let (ts, bad) := decodeSlice v in
    (ts, if bad then Some UnmarshalTypeError else None)
  end.

End Json.

(** ** The environment: the data file, the socket, the log, the UI queue *)

Module Os.

(** The file [todo.json]: absent, or present with its content and whether
    this process may read it. *)
Inductive file :=
| Absent
| Present (data : gostring) (readable : bool).

Inductive error := ErrNotExist | ErrPermission | ErrWriteFailed.

Definition Stat (f : file) : option error :=
  match f with
  | Absent => Some ErrNotExist
  | Present _ _ => None
  end.

Definition IsNotExist (e : option error) : bool :=
  match e with
  | Some ErrNotExist => true
  | _ => false
  end.

Definition ReadFile (f : file) : gostring * option error :=
  match f with
  | Absent => ([], Some ErrNotExist)
  | Present data true => (data, None)
  | Present _ false => ([], Some ErrPermission)
  end.

(** How a write fails when it does: the file cannot be opened, or it is
    opened, which creates or truncates it, and the write or the close that
    follows fails once [written] bytes of the data are in the file. *)
Inductive fault := OpenFails | WriteFails (written : nat).

(** The file once [OpenFile(name, O_WRONLY|O_CREATE|O_TRUNC, 0644)] has
    succeeded and [content] is written: a new file is created readable, an
    old one keeps its permissions. *)
Definition rewritten (f : file) (content : gostring) : file :=
  match f with
  | Absent => Present content true
  | Present _ r => Present content r
  end.

(** [os.WriteFile(name, data, 0644)]: the file is opened, which truncates
    it, then written, then closed.  When all succeeds the file holds the
    data; when the file cannot be opened it is left as it was; when the
    write fails after the open the file holds the bytes written till
    then. *)
Definition WriteFile (f : file) (writable : bool) (flt : fault) (data : gostring)
  : file * option error :=
  if writable then (rewritten f data, None)
  else
    match flt with
    | OpenFails => (f, Some ErrPermission)
    | WriteFails written => (rewritten f (firstn written data), Some ErrWriteFailed)
    end.

End Os.

Inductive LogLine :=
| LogReadTodoError            (* Error reading todo file *)
| LogUnmarshalError           (* Error unmarshalling todo data *)
| LogWriteTodoError           (* Error writing todo file *)
| LogAnotherInstance          (* Another instance is already running *)
| LogSingleInstanceFailed     (* Fatalf: Single instance check failed *)
| LogSocketReadFailed         (* Failed to read from socket *)
| LogReceivedSignal (message : gostring).
                              (* Received signal from new instance *)

(** A closure handed to [fyne.Do], to be run on the UI thread. *)
Inductive UiTask := TaskShowWindow.

(** A goroutine started with [go]. *)
Inductive Goroutine := GoListen | GoRevertStatus.

Record World := mkWorld {
  dataFile : Os.file;
  dataWritable : bool;       (* a write to [dataFile] succeeds *)
  listening : bool;          (* a primary instance listens on [socketPath] *)
  connWriteOk : bool;        (* a write on a dialled connection succeeds *)
  delivered : list gostring; (* what has been written to the listener *)
  spawned : list Goroutine;
  uiQueue : list UiTask;
  log : list LogLine;
  writeFault : Os.fault      (* how a write to [dataFile] fails when it does *)
}.

Definition addLog (l : LogLine) (w : World) : World :=
  mkWorld (dataFile w) (dataWritable w) (listening w) (connWriteOk w)
          (delivered w) (spawned w) (uiQueue w) (log w ++ [l])
          (writeFault w).

Definition setDataFile (f : Os.file) (w : World) : World :=
  mkWorld f (dataWritable w) (listening w) (connWriteOk w)
          (delivered w) (spawned w) (uiQueue w) (log w)
          (writeFault w).

Definition deliver (data : gostring) (w : World) : World :=
  mkWorld (dataFile w) (dataWritable w) (listening w) (connWriteOk w)
          (delivered w ++ [data]) (spawned w) (uiQueue w) (log w)
          (writeFault w).

Definition spawn (g : Goroutine) (w : World) : World :=
  mkWorld (dataFile w) (dataWritable w) (listening w) (connWriteOk w)
          (delivered w) (spawned w ++ [g]) (uiQueue w) (log w)
          (writeFault w).

(** [fyne.Do(f)] from a goroutine that is not the UI thread. *)
Definition fyneDo (t : UiTask) (w : World) : World :=
  mkWorld (dataFile w) (dataWritable w) (listening w) (connWriteOk w)
          (delivered w) (spawned w) (uiQueue w ++ [t]) (log w)
          (writeFault w).

(** ** The presentation shell *)

Inductive Action := ActShowWindow | ActDelete (itemText : gostring) | ActQuit.

Inductive MenuItem :=
| Item (label : gostring) (action : option Action)
| Separator.

(** The variables of [main] its closures share, and the widgets' state. *)
Record App := mkApp {
  todos : TodoSlice;
  menu : list MenuItem;
  entryText : gostring;
  leftTips : Z;           (* the weight still available, as displayed *)
  successShown : bool;    (* the right-hand tip shows the success text *)
  windowShown : bool;
  running : bool;
  world : World;
  showWindowSet : bool;   (* the package variable [showWindow] is not nil *)
  inputWinSet : bool      (* the variable [inputWin] is not nil *)
}.

Definition setTodos (ts : TodoSlice) (a : App) : App :=
  mkApp ts (menu a) (entryText a) (leftTips a) (successShown a)
        (windowShown a) (running a) (world a)
        (showWindowSet a) (inputWinSet a).

Definition setMenu (m : list MenuItem) (a : App) : App :=
  mkApp (todos a) m (entryText a) (leftTips a) (successShown a)
        (windowShown a) (running a) (world a)
        (showWindowSet a) (inputWinSet a).

Definition setEntry (s : gostring) (left : Z) (a : App) : App :=
  mkApp (todos a) (menu a) s left (successShown a)
        (windowShown a) (running a) (world a)
        (showWindowSet a) (inputWinSet a).

Definition setSuccess (b : bool) (a : App) : App :=
  mkApp (todos a) (menu a) (entryText a) (leftTips a) b
        (windowShown a) (running a) (world a)
        (showWindowSet a) (inputWinSet a).

Definition setWindowShown (b : bool) (a : App) : App :=
  mkApp (todos a) (menu a) (entryText a) (leftTips a) (successShown a)
        b (running a) (world a)
        (showWindowSet a) (inputWinSet a).

Definition setRunning (b : bool) (a : App) : App :=
  mkApp (todos a) (menu a) (entryText a) (leftTips a) (successShown a)
        (windowShown a) b (world a)
        (showWindowSet a) (inputWinSet a).

Definition setWorld (w : World) (a : App) : App :=
  mkApp (todos a) (menu a) (entryText a) (leftTips a) (successShown a)
        (windowShown a) (running a) w
        (showWindowSet a) (inputWinSet a).

Definition addLabel : gostring := bs "➕ 新增待办".
Definition emptyLabel : gostring := bs "（暂无待办）".
Definition quitLabel : gostring := bs "退出".
Definition rowPrefix : gostring := bs "☐ ".

(** The loop of the delete closure: [idx] and [item] range over [todos];
    at the first item whose text is [itemText] the slice becomes
    [append(todos[:idx], todos[idx+1:]...)] and the loop is left. *)
Fixpoint deleteLoop (itemText : gostring) (todos : list Todo) (idx : nat)
  (rest : list Todo) : list Todo :=
  match rest with
  | [] => todos
  | item :: rest' =>
    if gostring_eq (Text item) itemText
    then firstn idx todos ++ skipn (S idx) todos
    else deleteLoop itemText todos (S idx) rest'
  end.

Definition deleteByText (itemText : gostring) (ts : TodoSlice) : TodoSlice :=
  match ts with
  | None => None
  | Some l => Some (deleteLoop itemText l 0 l)
  end.

(** [append(todos, Todo{Text: text})]. *)
Definition appendTodo (ts : TodoSlice) (text : gostring) : TodoSlice :=
  Some (elems ts ++ [mkTodo text]).

(** [bufio.Reader.ReadString(delim)] on a connection whose peer sends
    [stream] and closes: the bytes up to and with the first [delim], or
    what was read and [io.EOF]. *)
Inductive IoError := EOF | ErrWrite.

Fixpoint ReadString (delim : byte) (stream : gostring) : gostring * option IoError :=
  match stream with
  | [] => ([], Some EOF)
  | c :: rest =>
    if Byte.eqb c delim then ([c], None)
    else let (l, e) := ReadString delim rest in (c :: l, e)
  end.

Record Conn := mkConn { incoming : gostring }.

(** *** The single-instance build *)

Module Main.

Definition maxShowWeight : Z := 40.

(** [loadTodos] of the single-instance build. *)
Definition loadTodos (w : World) : TodoSlice * World :=
  if Os.IsNotExist (Os.Stat (dataFile w)) then (Some [], w)
  else
    match Os.ReadFile (dataFile w) with
    | (_, Some _) => (Some [], addLog LogReadTodoError w)
    | (data, None) =>
      match Json.Unmarshal data with
      | (_, Some _) => (Some [], addLog LogUnmarshalError w)
      | (todos, None) => (todos, w)
      end
    end.

(** [saveTodos] of the single-instance build.  [MarshalIndent] returns no
    error for a [[]Todo], so its error branch is not taken. *)
Definition saveTodos (todos : TodoSlice) (w : World) : World :=
  let data := Json.MarshalIndent todos in
  match Os.WriteFile (dataFile w) (dataWritable w) (writeFault w) data with
  | (f, Some _) => addLog LogWriteTodoError (setDataFile f w)
  | (f, None) => setDataFile f w
  end.

Section Build.

Variable Han : Unicode.RangeTable.

Definition menuRows (ts : TodoSlice) : list MenuItem :=
  match elems ts with
  | [] => [Item emptyLabel None]
  | l =>
    map (fun t =>
           Item (rowPrefix ++ truncateByWeightWithEllipsis Han (Text t) maxShowWeight)
                (Some (ActDelete (Text t)))) l
  end.

Definition rebuildTray (a : App) : App :=
  setMenu ([Item addLabel (Some ActShowWindow); Separator]
           ++ menuRows (todos a)
           ++ [Separator; Item quitLabel (Some ActQuit)]) a.

(** [entry.OnChanged]; the [SetText] of its first branch runs the callback
    again on the truncated text. *)
Definition OnChanged (s : gostring) (a : App) : App :=
  let currentW := getWeight Han s in
  if currentW >? maxWeight then
    let s' := truncateByWeight Han s maxWeight in
    setEntry s' (maxWeight - getWeight Han s') a
  else setEntry s (maxWeight - currentW) a.

(** [entry.SetText(s)]. *)
Definition SetText (s : gostring) (a : App) : App := OnChanged s a.

Definition showSuccess (a : App) : App :=
  setWorld (spawn GoRevertStatus (world a)) (setSuccess true a).

(** The closure of a to-do row. *)
Definition deleteTodo (itemText : gostring) (a : App) : App :=
  let ts := deleteByText itemText (todos a) in
  rebuildTray (setWorld (saveTodos ts (world a)) (setTodos ts a)).

(** [entry.OnSubmitted]. *)
Definition OnSubmitted (text : gostring) (a : App) : App :=
  match text with
  | [] => a
  | _ :: _ =>
    let ts := appendTodo (todos a) text in
    let a1 := setWorld (saveTodos ts (world a)) (setTodos ts a) in
    rebuildTray (showSuccess (SetText [] a1))
  end.

(** The closure [main] stores in the package variable [showWindow]:
    [if inputWin != nil { inputWin.Show(); inputWin.RequestFocus() }]. *)
Definition showWindow (a : App) : App :=
  if inputWinSet a then setWindowShown true a else a.

(** The closures of the menu.  The first item calls [inputWin.Show()]
    and [inputWin.RequestFocus()] without a guard: the menu is built once
    [inputWin] is set. *)
Definition runAction (act : Action) (a : App) : App :=
  match act with
  | ActShowWindow => setWindowShown true a
  | ActDelete itemText => deleteTodo itemText a
  | ActQuit => setRunning false a
  end.

(** The closure the handler of a connection hands to [fyne.Do]:
    [if showWindow != nil { showWindow() }], with the package variable read
    when the closure runs. *)
Definition runUiTask (t : UiTask) (a : App) : App :=
  match t with
  | TaskShowWindow => if showWindowSet a then showWindow a else a
  end.

End Build.

(** [runSingleInstanceCheck]: the dial succeeds when a primary listens. *)
Definition runSingleInstanceCheck (w : World) : bool * option IoError * World :=
  if listening w then
    if connWriteOk w
    then (false, None,
          addLog LogAnotherInstance (deliver (bs "show" ++ [x0a]) w))
    else (false, Some ErrWrite, w)
  else (true, None, spawn GoListen w).

(** [handleSocketConnection]. *)
Definition handleSocketConnection (conn : Conn) (w : World) : World :=
  match ReadString x0a (incoming conn) with
  | (_, Some _) => addLog LogSocketReadFailed w
  | (message, None) =>
    let message := Strings.TrimSpace message in
    let w1 := addLog (LogReceivedSignal message) w in
    if gostring_eq message (bs "show") then fyneDo TaskShowWindow w1 else w1
  end.

Inductive Outcome :=
| Exited (code : Z) (w : World)
| Primary (a : App).

(** The start of the primary: the list is loaded, the closure of
    [showWindow] and the window [inputWin] are set, and the tray is
    built. *)
Definition startPrimary (Han : Unicode.RangeTable) (w : World) : App :=
  let (ts, w1) := loadTodos w in
  rebuildTray Han (mkApp ts [] [] maxWeight false false true w1 true true).

(** [main] up to [a.Run()]. *)
Definition main (Han : Unicode.RangeTable) (w : World) : Outcome :=
  match runSingleInstanceCheck w with
  | (_, Some _, w1) => Exited 1 (addLog LogSingleInstanceFailed w1)
  | (false, None, w1) => Exited 0 w1
  | (true, None, w1) => Primary (startPrimary Han w1)
  end.

End Main.

(** *** The weighted build *)

Module Weighted.

Definition maxShowWeight : Z := 20.

(** [loadTodos]: the error of [Unmarshal] is dropped and what was decoded
    is returned. *)
Definition loadTodos (w : World) : TodoSlice :=
  if Os.IsNotExist (Os.Stat (dataFile w)) then Some []
  else
    match Os.ReadFile (dataFile w) with
    | (_, Some _) => Some []
    | (data, None) => fst (Json.Unmarshal data)
    end.

(** [saveTodos]: both errors are dropped. *)
Definition saveTodos (todos : TodoSlice) (w : World) : World :=
  let data := Json.MarshalIndent todos in
  setDataFile (fst (Os.WriteFile (dataFile w) (dataWritable w) (writeFault w) data)) w.

Section Build.

Variable Han : Unicode.RangeTable.

Definition menuRows (ts : TodoSlice) : list MenuItem :=
  match elems ts with
  | [] => [Item emptyLabel None]
  | l =>
    map (fun t =>
           Item (rowPrefix ++ truncateByWeightWithEllipsis Han (Text t) maxShowWeight)
                (Some (ActDelete (Text t)))) l
  end.

Definition rebuildTray (a : App) : App :=
  setMenu ([Item addLabel (Some ActShowWindow); Separator]
           ++ menuRows (todos a)
           ++ [Separator; Item quitLabel (Some ActQuit)]) a.

Definition OnChanged (s : gostring) (a : App) : App :=
  let currentW := getWeight Han s in
  if currentW >? maxWeight then
    let s' := truncateByWeight Han s maxWeight in
    setEntry s' (maxWeight - getWeight Han s') a
  else setEntry s (maxWeight - currentW) a.

Definition SetText (s : gostring) (a : App) : App := OnChanged s a.

Definition showSuccess (a : App) : App :=
  setWorld (spawn GoRevertStatus (world a)) (setSuccess true a).

Definition deleteTodo (itemText : gostring) (a : App) : App :=
  let ts := deleteByText itemText (todos a) in
  rebuildTray (setWorld (saveTodos ts (world a)) (setTodos ts a)).

Definition OnSubmitted (text : gostring) (a : App) : App :=
  match text with
  | [] => a
  | _ :: _ =>
    let ts := appendTodo (todos a) text in
    let a1 := setWorld (saveTodos ts (world a)) (setTodos ts a) in
    rebuildTray (showSuccess (SetText [] a1))
  end.

(** [main] up to [a.Run()]. *)
Definition main (w : World) : App :=
  rebuildTray (mkApp (loadTodos w) [] [] maxWeight false false true w true true).

End Build.

End Weighted.

(** *** The simple build *)

Module Simple.

Definition maxLen : Z := 50.
Definition showLen : nat := 20.

Definition loadTodos : World -> TodoSlice := Weighted.loadTodos.
Definition saveTodos : TodoSlice -> World -> World := Weighted.saveTodos.

(** [shorten(s, max)]: [r := []rune(s)], cut at [max] runes. *)
Definition shorten (s : gostring) (max : nat) : gostring :=
  let r := Utf8.runes s in
  if (max <? length r)%nat
  then Utf8.encode_runes (firstn max r) ++ ellipsis
  else s.

Definition menuRows (ts : TodoSlice) : list MenuItem :=
  match elems ts with
  | [] => [Item emptyLabel None]
  | l =>
    map (fun t =>
           Item (rowPrefix ++ shorten (Text t) showLen)
                (Some (ActDelete (Text t)))) l
  end.

Definition rebuildTray (a : App) : App :=
  setMenu ([Item addLabel (Some ActShowWindow); Separator]
           ++ menuRows (todos a)
           ++ [Separator; Item quitLabel (Some ActQuit)]) a.

(** The task a to-do row hands to [fyne.Do], as it runs on the UI thread. *)
Definition deleteTodo (text : gostring) (a : App) : App :=
  let ts := deleteByText text (todos a) in
  rebuildTray (setWorld (saveTodos ts (world a)) (setTodos ts a)).

(** [entry.OnSubmitted]; the last branch is the task handed to [fyne.Do],
    as it runs on the UI thread. *)
Definition OnSubmitted (text : gostring) (a : App) : App :=
  match text with
  | [] => a
  | _ :: _ =>
    if Utf8.RuneCountInString text >? maxLen then setEntry [] (leftTips a) a
    else
      let ts := appendTodo (todos a) text in
      let a1 := setWorld (saveTodos ts (world a)) (setTodos ts a) in
      rebuildTray (setEntry [] (leftTips a1) a1)
  end.

Definition main (w : World) : App :=
  rebuildTray (mkApp (loadTodos w) [] [] 0 false false true w true true).

End Simple.

(** ** Notions used to state the properties *)

Section Measures.

Variable Han : Unicode.RangeTable.

(** A character that counts double: a rune of the table [unicode.Han]. *)
Definition isCJK (r : rune) : bool := Unicode.Is Han r.

Definition countCJK (s : gostring) : Z :=
  Z.of_nat (length (filter isCJK (Utf8.runes s))).

Definition countOther (s : gostring) : Z :=
  Z.of_nat (length (filter (fun r => negb (isCJK r)) (Utf8.runes s))).

(** The weight of a sequence of runes. *)
Fixpoint runesWeight (rs : list rune) : Z :=
  match rs with
  | [] => 0
  | r :: rs' => itemW Han r + runesWeight rs'
  end.

(** The runes the truncation loop keeps, started at weight [currW]. *)
Fixpoint keptRunes (maxW : Z) (rs : list rune) (currW : Z) : list rune :=
  match rs with
  | [] => []
  | r :: rs' =>
    if currW + itemW Han r >? maxW then []
    else r :: keptRunes maxW rs' (currW + itemW Han r)
  end.

End Measures.

(** What a string becomes when each invalid byte is replaced by U+FFFD. *)
Definition toValidUTF8 (s : gostring) : gostring :=
  Utf8.encode_runes (Utf8.runes s).

(** Every text of the list is valid UTF-8. *)
Definition textsValid (ts : TodoSlice) : Prop :=
  Forall (fun t => Utf8.ValidString (Text t) = true) (elems ts).

(** The list with every text made valid UTF-8. *)
Definition coerceTodos (ts : TodoSlice) : TodoSlice :=
  option_map (map (fun t => mkTodo (toValidUTF8 (Text t)))) ts.

(** The JSON object that holds one to-do. *)
Definition todoObject (text : gostring) : Json.value :=
  Json.Object [(bs "text", Json.String text)].

(** The text [appendString] writes between the quotes. *)
Definition quoted (s : gostring) : gostring :=
  Json.appendString_fuel (length s) s.

(** A byte the scanner accepts as it is inside a string. *)
Definition plainByte (c : byte) : Prop :=
  0x20 <= b2z c /\ b2z c <> 0x22 /\ b2z c <> 0x5c.

(** The scanner's way through the content of a string literal. *)
Fixpoint strScan (st : Json.strState) (s : gostring) : option Json.strState :=
  match s with
  | [] => Some st
  | c :: rest =>
    match Json.strStep st (b2z c) with
    | Json.StrGo st' => strScan st' rest
    | _ => None
    end
  end.

(** The literal held by the scanner inside a string is what it has let
    through since the opening quote. *)
Definition lexInv (st : Json.lexState) : Prop :=
  match st with
  | Json.LString ss lit => strScan Json.SIn (rev lit) = Some ss
  | _ => True
  end.

(** The tokens of a marshalled to-do, and of a marshalled list. *)
Definition objTokens (text : gostring) : list Json.token :=
  [Json.TBeginObject; Json.TString (bs "text"); Json.TColon;
   Json.TString text; Json.TEndObject].

Fixpoint elemsTokens (l : list Todo) : list Json.token :=
  match l with
  | [] => []
  | [t] => objTokens (toValidUTF8 (Text t))
  | t :: l' => objTokens (toValidUTF8 (Text t)) ++ Json.TComma :: elemsTokens l'
  end.

(** [after] is [before] without its first entry of text [itemText], or
    [before] itself when no entry has that text. *)
Definition removesFirst (itemText : gostring) (before after : list Todo) : Prop :=
  (exists l1 t l2,
      before = l1 ++ t :: l2 /\ Text t = itemText /\
      Forall (fun x => Text x <> itemText) l1 /\ after = l1 ++ l2)
  \/ (Forall (fun x => Text x <> itemText) before /\ after = before).

(** The file can be read once it is written: it is absent, and will be
    created readable, or it is present and readable. *)
Definition readBackOk (w : World) : bool :=
  match dataFile w with
  | Os.Present _ false => false
  | _ => true
  end.

(** One more task is queued for the UI thread: the activation. *)
Definition activated (w w' : World) : Prop :=
  uiQueue w' = uiQueue w ++ [TaskShowWindow].

(** The line a secondary instance sends. *)
Definition showLine : gostring := bs "show" ++ [x0a].

(** *** Sample inputs *)

(** A world where every operation succeeds and nothing has happened yet. *)
Definition world0 (f : Os.file) : World :=
  mkWorld f true false true [] [] [] [] Os.OpenFails.

(** A world where a primary instance listens; [ok] tells whether a write
    on a dialled connection succeeds. *)
Definition secondaryWorld (ok : bool) : World :=
  mkWorld (Os.Present (bs "[]") true) true true ok [] [] [] [] Os.OpenFails.

(** A file content: two objects, the second text with an escaped new line
    and an escaped ideograph. *)
Definition sampleData : gostring :=
  [x5b; x7b; x22] ++ bs "text" ++ [x22; x3a; x20; x22] ++ bs "buy milk"
  ++ [x22; x7d; x2c; x0a; x7b; x22] ++ bs "text" ++ [x22; x3a; x22] ++ bs "call"
  ++ [x5c; x6e; x5c; x75; x34; x65; x32; x64] ++ [x22; x7d; x5d; x0a].

Definition sampleList : TodoSlice :=
  Some [mkTodo (bs "buy milk"); mkTodo [xe4; xb8; xad; x22; x3c; x0a];
        mkTodo (bs "buy milk")].

(** The line [show] with a space before it and a carriage return after. *)
Definition paddedLine : gostring := [x20] ++ bs "show" ++ [x0d; x0a].

Definition sampleApp : App :=
  mkApp (Some [mkTodo (bs "a"); mkTodo (bs "b")]) [] [] 40 false false true
        (world0 Os.Absent) true true.

(** A text of two ideographs and three letters, of weight seven. *)
Definition sampleText : gostring := [xe4; xb8; xad; xe6; x96; x87] ++ bs "abc".

(** ** Package path/filepath on Unix, and the paths of [main] *)

Module Filepath.

Definition Separator : byte := x2f.

(** [os.IsPathSeparator]. *)
Definition IsPathSeparator (c : byte) : bool := Byte.eqb c Separator.

(** The loop of [Clean] that steps back over the last element written:
    [for out.w > dotdot && !os.IsPathSeparator(out.index(out.w)) { out.w-- }]. *)
Fixpoint backtrack (fuel : nat) (out : gostring) (w dotdot : nat) : nat :=
  match fuel with
  | O => w
  | S fuel' =>
    if (dotdot <? w)%nat && negb (IsPathSeparator (nth w out x00))
    then backtrack fuel' out (w - 1) dotdot
    else w
  end.

(** The loop that copies one element: the bytes up to the next separator
    are appended to [out]; what is left of the path is returned with it. *)
Fixpoint copyElem (rest out : gostring) : gostring * gostring :=
  match rest with
  | [] => ([], out)
  | c :: rest' =>
    if IsPathSeparator c then (rest, out) else copyElem rest' (out ++ [c])
  end.

(** The path is at its end or at a separator:
    [r == n || os.IsPathSeparator(path[r])]. *)
Definition endsElem (s : gostring) : bool :=
  match s with
  | [] => true
  | c :: _ => IsPathSeparator c
  end.

(** The main loop of [Clean]: [rest] is the path from the index [r] on,
    [out] the bytes written so far (its length is [out.w]), [dotdot] the
    index where a [..] must stop.  Each turn reads at least one byte. *)
Fixpoint cleanLoop (fuel : nat) (rooted : bool) (rest out : gostring) (dotdot : nat)
  : gostring :=
  match fuel with
  | O => out
  | S fuel' =>
    match rest with
    | [] => out
    | c :: rest1 =>
      if IsPathSeparator c then cleanLoop fuel' rooted rest1 out dotdot
      else if Byte.eqb c x2e && endsElem rest1
      then cleanLoop fuel' rooted rest1 out dotdot
      else if Byte.eqb c x2e
              && match rest1 with
                 | d :: rest2 => Byte.eqb d x2e && endsElem rest2
                 | [] => false
                 end
      then
        let rest2 := skipn 1 rest1 in
        if (dotdot <? length out)%nat then
          let w := backtrack (length out) out (length out - 1) dotdot in
          cleanLoop fuel' rooted rest2 (firstn w out) dotdot
        else if negb rooted then
          let out1 :=
            (if (0 <? length out)%nat then out ++ [Separator] else out)
            ++ [x2e; x2e] in
          cleanLoop fuel' rooted rest2 out1 (length out1)
        else cleanLoop fuel' rooted rest2 out dotdot
      else
        let out1 :=
          if (rooted && negb (length out =? 1)%nat)
             || (negb rooted && negb (length out =? 0)%nat)
          then out ++ [Separator] else out in
        let (rest', out2) := copyElem rest out1 in
        cleanLoop fuel' rooted rest' out2 dotdot
    end
  end.

(** [filepath.Clean]. *)
Definition Clean (path : gostring) : gostring :=
  match path with
  | [] => [x2e]
  | c :: rest =>
    let rooted := IsPathSeparator c in
    let out :=
      if rooted then cleanLoop (length path) true rest [Separator] 1
      else cleanLoop (length path) false path [] 0 in
    match out with
    | [] => [x2e]
    | _ :: _ => out
    end
  end.

(** [strings.Join(elems, sep)]. *)
Fixpoint stringsJoin (elems : list gostring) (sep : gostring) : gostring :=
  match elems with
  | [] => []
  | [e] => e
  | e :: rest => e ++ sep ++ stringsJoin rest sep
  end.

(** [filepath.Join]: the elements from the first one that is not empty,
    joined and cleaned. *)
Fixpoint Join (elem : list gostring) : gostring :=
  match elem with
  | [] => []
  | e :: rest =>
    match e with
    | [] => Join rest
    | _ :: _ => Clean (stringsJoin elem [Separator])
    end
  end.

(** The loop of [Dir] that looks for the last separator, from the end:
    the number of bytes of the path up to and with that separator. *)
Fixpoint lastSeparator (i : nat) (path : gostring) : nat :=
  match i with
  | O => O
  | S i' => if IsPathSeparator (nth i' path x00) then i else lastSeparator i' path
  end.

(** [filepath.Dir]. *)
Definition Dir (path : gostring) : gostring :=
  Clean (firstn (lastSeparator (length path) path) path).

End Filepath.

(** What [main] asks the system for when it sets its paths: the result of
    [os.Executable] ([None] for an error), the result of [os.Getwd] (the
    empty string when it fails, its error being dropped) and the user name
    of [user.Current] ([None] for an error). *)
Record Env := mkEnv {
  executable : option gostring;
  workingDir : gostring;
  userName : option gostring
}.

Module Paths.

(** The package variables [configDir], [dataFile], [iconFile] and
    [socketPath], and whether the warning about the executable directory
    was logged. *)
Record t := mk {
  configDir : gostring;
  dataFile : gostring;
  iconFile : gostring;
  socketPath : gostring;
  warned : bool
}.

(** [getExecutableDir]: [None] stands for the error of [os.Executable]. *)
Definition getExecutableDir (e : Env) : option gostring :=
  match executable e with
  | None => None
  | Some exePath => Some (Filepath.Dir exePath)
  end.

(** The first step of [main]. *)
Definition init (e : Env) : t :=
  let (dir, w) :=
    match getExecutableDir e with
    | Some d => (d, false)
    | None => (workingDir e, true)
    end in
  mk dir
     (Filepath.Join [dir; bs "todo.json"])
     (Filepath.Join [dir; bs "tray.png"])
     (match userName e with
      | None => Filepath.Join [bs "/tmp"; bs "todo-app.sock"]
      | Some name =>
        Filepath.Join [bs "/tmp"; bs "todo-app-" ++ name ++ bs ".sock"]
      end)
     w.

End Paths.

(** ** Packages image, color and draw: the canvas of [ensureIcon] *)

Module Image.

Record Point := mkPoint { X : Z; Y : Z }.

Record Rectangle := mkRectangle { Min : Point; Max : Point }.

(** [image.Rect]: the corners are put in order. *)
Definition Rect (x0 y0 x1 y1 : Z) : Rectangle :=
  mkRectangle (mkPoint (Z.min x0 x1) (Z.min y0 y1))
              (mkPoint (Z.max x0 x1) (Z.max y0 y1)).

Definition Dx (r : Rectangle) : Z := X (Max r) - X (Min r).
Definition Dy (r : Rectangle) : Z := Y (Max r) - Y (Min r).

(** [Point.In]. *)
Definition In (p : Point) (r : Rectangle) : bool :=
  (X (Min r) <=? X p) && (X p <? X (Max r))
  && (Y (Min r) <=? Y p) && (Y p <? Y (Max r)).

(** [color.RGBA]. *)
Record Color := mkColor { R : byte; G : byte; B : byte; A : byte }.

(** [image.RGBA]; the field [Bounds] is the rectangle its method of that
    name returns. *)
Record RGBA := mkRGBA { Pix : list byte; Stride : Z; Bounds : Rectangle }.

(** [image.NewRGBA]. *)
Definition NewRGBA (r : Rectangle) : RGBA :=
  mkRGBA (repeat x00 (Z.to_nat (4 * Dx r * Dy r))) (4 * Dx r) r.

Definition PixOffset (p : RGBA) (x y : Z) : Z :=
  (y - Y (Min (Bounds p))) * Stride p + (x - X (Min (Bounds p))) * 4.

(** [s[k] = v] on a slice. *)
Fixpoint store (l : list byte) (k : nat) (v : byte) : list byte :=
  match l, k with
  | [], _ => []
  | _ :: l', O => v :: l'
  | c :: l', S k' => c :: store l' k' v
  end.

(** The method [Set] of [image.RGBA] for a [color.RGBA], which is its
    [SetRGBA]: nothing is written outside the bounds. *)
Definition SetRGBA (p : RGBA) (x y : Z) (c : Color) : RGBA :=
  if negb (In (mkPoint x y) (Bounds p)) then p
  else
    let i := Z.to_nat (PixOffset p x y) in
    mkRGBA (store (store (store (store (Pix p) i (R c)) (i + 1) (G c))
                         (i + 2) (B c)) (i + 3) (A c))
           (Stride p) (Bounds p).

(** The method [RGBAAt]. *)
Definition RGBAAt (p : RGBA) (x y : Z) : Color :=
  if negb (In (mkPoint x y) (Bounds p)) then mkColor x00 x00 x00 x00
  else
    let i := Z.to_nat (PixOffset p x y) in
    mkColor (nth i (Pix p) x00) (nth (i + 1) (Pix p) x00)
            (nth (i + 2) (Pix p) x00) (nth (i + 3) (Pix p) x00).

(** [draw.Draw(dst, r, &image.Uniform{c}, image.Point{}, draw.Src)] for a
    rectangle [r] inside the bounds: every pixel of [r] becomes [c]. *)
Fixpoint fillRow (n : nat) (x y : Z) (c : Color) (p : RGBA) : RGBA :=
  match n with
  | O => p
  | S n' => fillRow n' (x + 1) y c (SetRGBA p x y c)
  end.

Fixpoint fillRows (n : nat) (y : Z) (r : Rectangle) (c : Color) (p : RGBA) : RGBA :=
  match n with
  | O => p
  | S n' => fillRows n' (y + 1) r c (fillRow (Z.to_nat (Dx r)) (X (Min r)) y c p)
  end.

Definition DrawSrc (p : RGBA) (r : Rectangle) (c : Color) : RGBA :=
  fillRows (Z.to_nat (Dy r)) (Y (Min r)) r c p.

End Image.

Definition black : Image.Color := Image.mkColor x00 x00 x00 xff.
Definition transparent : Image.Color := Image.mkColor x00 x00 x00 x00.

(** The loops of [ensureIcon]: [x] goes from 8 to 22 and [y] from 8 to 22
    by steps of 7, so the inner loop takes 15 turns and the outer one 3. *)
Fixpoint barLoop (fuel : nat) (x y : Z) (img : Image.RGBA) : Image.RGBA :=
  match fuel with
  | O => img
  | S fuel' =>
    if x <=? 22 then barLoop fuel' (x + 1) y (Image.SetRGBA img x y black) else img
  end.

Fixpoint barsLoop (fuel : nat) (y : Z) (img : Image.RGBA) : Image.RGBA :=
  match fuel with
  | O => img
  | S fuel' =>
    if y <=? 22 then barsLoop fuel' (y + 7) (barLoop 15 8 y img) else img
  end.

(** The image [ensureIcon] draws when the icon file is missing. *)
Definition iconImage : Image.RGBA :=
  let img := Image.NewRGBA (Image.Rect 0 0 32 32) in
  let img := Image.DrawSrc img (Image.Bounds img) transparent in
  barsLoop 3 8 img.

(** ** Further notions *)

(** The texts of a list, in order. *)
Definition textsOf (ts : TodoSlice) : list gostring := map Text (elems ts).

(** No stored text and no text in the entry is above the input budget. *)
Definition withinBudget (Han : Unicode.RangeTable) (a : App) : Prop :=
  Forall (fun t => getWeight Han (Text t) <= maxWeight) (elems (todos a))
  /\ getWeight Han (entryText a) <= maxWeight.

(** A text the simple build stores: not empty, at most [maxLen] runes. *)
Definition simpleBound (t : Todo) : Prop :=
  1 <= Utf8.RuneCountInString (Text t) <= Simple.maxLen.

(** The texts the rows of a menu delete, in the order of the menu. *)
Definition deleteTargets (m : list MenuItem) : list gostring :=
  flat_map (fun it => match it with
                      | Item _ (Some (ActDelete t)) => [t]
                      | _ => []
                      end) m.

(** The menu shows the list: one row per to-do, in the order of the list,
    and the placeholder exactly when the list is empty. *)
Definition menuShows (a : App) : Prop :=
  deleteTargets (menu a) = textsOf (todos a)
  /\ (In (Item emptyLabel None) (menu a) <-> elems (todos a) = []).

(** Every string of a JSON value, of a token, of the parser's stack is
    valid UTF-8. *)
Fixpoint valueTextsValid (v : Json.value) : bool :=
  match v with
  | Json.String s => Utf8.ValidString s
  | Json.Array vs => forallb valueTextsValid vs
  | Json.Object ms => forallb (fun kv => valueTextsValid (snd kv)) ms
  | _ => true
  end.

Definition tokenTextValid (t : Json.token) : bool :=
  match t with
  | Json.TString s => Utf8.ValidString s
  | _ => true
  end.

Definition frameTextsValid (f : Json.frame) : bool :=
  match f with
  | Json.FArr acc => forallb valueTextsValid acc
  | Json.FObj acc _ => forallb (fun kv => valueTextsValid (snd kv)) acc
  end.

Definition modeTextsValid (m : Json.mode) : bool :=
  match m with
  | Json.MDone v => valueTextsValid v
  | _ => true
  end.

Definition pendingTokenValid (st : Json.lexState) : bool :=
  match st with
  | Json.LLiteral _ t => tokenTextValid t
  | _ => true
  end.

(** [main] has stored its closure in [showWindow] and created the window
    [inputWin]. *)
Definition uiReady (a : App) : Prop :=
  showWindowSet a = true /\ inputWinSet a = true.

(** A byte of padding around the message of a connection: an ASCII white
    space other than the new line that ends the message. *)
Definition padByte (c : byte) : Prop :=
  Strings.asciiSpace (b2z c) = true /\ c <> x0a.

(** A path element that [Clean] keeps as it is: not empty, without a
    separator, and neither [.] nor [..]. *)
Definition plainElem (c : gostring) : Prop :=
  c <> [] /\ ~ In Filepath.Separator c /\ c <> bs "." /\ c <> bs "..".

(** The absolute path of the elements [cs]. *)
Definition absPath (cs : list gostring) : gostring :=
  concat (map (fun c => Filepath.Separator :: c) cs).

(** The buffer of [Clean] once one more element is written after [out]. *)
Definition extendPath (out c : gostring) : gostring :=
  (if (length out =? 1)%nat then out else out ++ [Filepath.Separator]) ++ c.

(** The pixels of the three bars of the icon. *)
Definition onBar (x y : Z) : bool :=
  ((y =? 8) || (y =? 15) || (y =? 22)) && (8 <=? x) && (x <=? 22).

Definition colorEqb (a b : Image.Color) : bool :=
  Byte.eqb (Image.R a) (Image.R b) && Byte.eqb (Image.G a) (Image.G b)
  && Byte.eqb (Image.B a) (Image.B b) && Byte.eqb (Image.A a) (Image.A b).

(** The bytes [appendString] can write: those from 0x20 on, but for the
    ampersand and the two angle brackets.  The byte 0x7F (DEL) is among
    them: [htmlSafeSet] holds it, so it is written as it is. *)
Definition textByteOk (c : byte) : bool :=
  (0x20 <=? b2z c)
  && negb ((b2z c =? 0x26) || (b2z c =? 0x3c) || (b2z c =? 0x3e)).

(** The bytes of the data file: those, and the line feed of the layout. *)
Definition fileByteOk (c : byte) : bool := Byte.eqb c x0a || textByteOk c.

(** The number of line feeds of a string. *)
Definition lineFeeds (s : gostring) : nat :=
  length (filter (fun c => Byte.eqb c x0a) s).

(** *** More sample inputs *)

(** An executable in [/opt/todo/bin], run by the user [alice]. *)
Definition sampleEnv : Env :=
  mkEnv (Some (absPath [bs "opt"; bs "todo"; bs "bin"; bs "todo"]))
        (bs "/home/alice") (Some (bs "alice")).

Definition otherEnv : Env :=
  mkEnv (Some (absPath [bs "opt"; bs "todo"; bs "bin"; bs "todo"]))
        (bs "/home/bob") (Some (bs "bob")).

(** A world whose data file cannot be opened for writing. *)
Definition readOnlyWorld : World :=
  mkWorld (Os.Present (bs "[]") true) false false true [] [] [] [] Os.OpenFails.

(** A world where a write fails once the file is open and five bytes are
    written. *)
Definition fullDiskWorld : World :=
  mkWorld (Os.Present (bs "[]") true) false false true [] [] [] []
          (Os.WriteFails 5).

Definition readOnlyApp : App :=
  mkApp (Some []) [] [] 40 false false true readOnlyWorld true true.

Definition fullDiskApp : App :=
  mkApp (Some []) [] [] 40 false false true fullDiskWorld true true.

(** The state while [main] has not yet stored its closure in the package
    variable [showWindow]. *)
Definition earlyApp : App :=
  mkApp (Some []) [] [] 40 false false true (world0 Os.Absent) false false.

(** A file with a text that is not valid UTF-8 between its quotes. *)
Definition rawData : gostring :=
  [x5b; x7b; x22] ++ bs "text" ++ [x22; x3a; x22; xff; x22; x7d; x5d].

(** A file whose second element is a number where an object is due. *)
Definition mixedData : gostring :=
  [x5b; x7b; x22] ++ bs "text" ++ [x22; x3a; x22] ++ bs "a" ++ [x22; x7d; x2c]
  ++ bs "5" ++ [x5d].

(** * Verification *)

Import Utf8.
Import Json.

(** ** Bytes and bit operations *)

Lemma b2z_range b : 0 <= b2z b < 256.
Proof.
  unfold b2z. pose proof (Byte.to_N_bounded b). lia.
Qed.

Lemma b2z_byte_of_Z z : 0 <= z < 256 -> b2z (byte_of_Z z) = z.
Proof.
  intros Hz. unfold b2z, byte_of_Z.
  rewrite Z.mod_small by lia.
  destruct (Byte.of_N (Z.to_N z)) as [b|] eqn:E.
  - apply Byte.to_of_N in E. rewrite E. lia.
  - apply Byte.of_N_None_iff in E. lia.
Qed.

Lemma byte_of_Z_b2z b : byte_of_Z (b2z b) = b.
Proof.
  unfold byte_of_Z. pose proof (b2z_range b).
  rewrite Z.mod_small by lia. unfold b2z. rewrite N2Z.id, Byte.of_to_N. reflexivity.
Qed.

Lemma land_lo_hi_zero hi lo k : 0 <= k -> 0 <= lo < 2 ^ k -> Z.land (hi * 2 ^ k) lo = 0.
Proof.
  intros Hk Hlo. apply Z.bits_inj'. intros n Hn.
  rewrite Z.land_spec, Z.bits_0.
  destruct (Z.lt_ge_cases n k).
  - rewrite Z.mul_pow2_bits_low by lia. reflexivity.
  - destruct (Z.eq_dec lo 0) as [->|Hne].
    + rewrite Z.bits_0. apply andb_false_r.
    + rewrite (Z.bits_above_log2 lo n); [apply andb_false_r|lia|].
      apply Z.log2_lt_pow2; try lia.
      apply Z.lt_le_trans with (2^k); try lia.
      apply Z.pow_le_mono_r; lia.
Qed.

Lemma lor_mul_pow2_add hi lo k : 0 <= k -> 0 <= lo < 2 ^ k -> Z.lor (hi * 2 ^ k) lo = hi * 2 ^ k + lo.
Proof.
  intros Hk Hlo. pose proof (Z.add_lor_land (hi * 2 ^ k) lo) as H.
  rewrite land_lo_hi_zero in H by assumption. lia.
Qed.

Lemma land_maskx x : Z.land x maskx = x mod 64.
Proof. change maskx with (Z.ones 6). rewrite Z.land_ones by lia. reflexivity. Qed.
Lemma land_mask2 x : Z.land x mask2 = x mod 32.
Proof. change mask2 with (Z.ones 5). rewrite Z.land_ones by lia. reflexivity. Qed.
Lemma land_mask3 x : Z.land x mask3 = x mod 16.
Proof. change mask3 with (Z.ones 4). rewrite Z.land_ones by lia. reflexivity. Qed.
Lemma land_mask4 x : Z.land x mask4 = x mod 8.
Proof. change mask4 with (Z.ones 3). rewrite Z.land_ones by lia. reflexivity. Qed.

Lemma shiftr_6 x : Z.shiftr x 6 = x / 64.
Proof. rewrite Z.shiftr_div_pow2 by lia. reflexivity. Qed.
Lemma shiftr_12 x : Z.shiftr x 12 = x / 4096.
Proof. rewrite Z.shiftr_div_pow2 by lia. reflexivity. Qed.
Lemma shiftr_18 x : Z.shiftr x 18 = x / 262144.
Proof. rewrite Z.shiftr_div_pow2 by lia. reflexivity. Qed.

Lemma lor_tx x : 0 <= x < 64 -> Z.lor tx x = 128 + x.
Proof. intros. change tx with (2 * 2 ^ 6). apply lor_mul_pow2_add; lia. Qed.
Lemma lor_t2 x : 0 <= x < 32 -> Z.lor t2 x = 192 + x.
Proof. intros. change t2 with (6 * 2 ^ 5). apply lor_mul_pow2_add; lia. Qed.
Lemma lor_t3 x : 0 <= x < 16 -> Z.lor t3 x = 224 + x.
Proof. intros. change t3 with (14 * 2 ^ 4). apply lor_mul_pow2_add; lia. Qed.
Lemma lor_t4 x : 0 <= x < 8 -> Z.lor t4 x = 240 + x.
Proof. intros. change t4 with (30 * 2 ^ 3). apply lor_mul_pow2_add; lia. Qed.

Lemma lor_shiftl_6 a b : 0 <= b < 64 -> Z.lor (Z.shiftl a 6) b = a * 64 + b.
Proof. intros. rewrite Z.shiftl_mul_pow2 by lia. apply lor_mul_pow2_add; lia. Qed.
Lemma lor_shiftl_12 a b : 0 <= b < 4096 -> Z.lor (Z.shiftl a 12) b = a * 4096 + b.
Proof. intros. rewrite Z.shiftl_mul_pow2 by lia. apply lor_mul_pow2_add; lia. Qed.
Lemma lor_shiftl_18 a b : 0 <= b < 262144 -> Z.lor (Z.shiftl a 18) b = a * 262144 + b.
Proof. intros. rewrite Z.shiftl_mul_pow2 by lia. apply lor_mul_pow2_add; lia. Qed.

Lemma join2 a b : 0 <= b < 64 -> Z.lor (Z.shiftl a 6) b = a * 64 + b.
Proof. apply lor_shiftl_6. Qed.

Lemma join3 a b c : 0 <= b < 64 -> 0 <= c < 64 ->
  Z.lor (Z.shiftl a 12) (Z.lor (Z.shiftl b 6) c) = a * 4096 + b * 64 + c.
Proof. intros. rewrite join2 by lia. rewrite lor_shiftl_12; lia. Qed.

Lemma join4 a b c d : 0 <= b < 64 -> 0 <= c < 64 -> 0 <= d < 64 ->
  Z.lor (Z.shiftl a 18) (Z.lor (Z.shiftl b 12) (Z.lor (Z.shiftl c 6) d))
  = a * 262144 + b * 4096 + c * 64 + d.
Proof. intros. rewrite join3 by lia. rewrite lor_shiftl_18; lia. Qed.

Ltac dm := Z.div_mod_to_equations; lia.

Ltac zb :=
  repeat match goal with
  | |- context [?a <? ?b] => destruct (Z.ltb_spec a b); try (exfalso; Z.div_mod_to_equations; lia)
  | |- context [?a <=? ?b] => destruct (Z.leb_spec a b); try (exfalso; Z.div_mod_to_equations; lia)
  | |- context [?a =? ?b] => destruct (Z.eqb_spec a b); try (exfalso; Z.div_mod_to_equations; lia)
  end; cbn [andb orb negb].

Lemma decode_encode2 r rest : 0x80 <= r <= 0x7FF ->
  DecodeRune (encode2 r ++ rest) = (r, 2%nat).
Proof.
  intros Hr. unfold encode2. cbn [app]. unfold DecodeRune.
  rewrite shiftr_6, land_maskx.
  rewrite lor_t2 by (Z.div_mod_to_equations; lia).
  rewrite lor_tx by (Z.div_mod_to_equations; lia).
  rewrite !b2z_byte_of_Z by (Z.div_mod_to_equations; lia).
  unfold RuneSelf, first, locb, hicb.
  zb. cbn [Nat.leb]. rewrite !land_maskx. rewrite join2 by dm. rewrite land_mask2. f_equal. dm.
Qed.

Lemma decode_encode3 r rest : 0x800 <= r <= 0xFFFF -> ~ (0xD800 <= r <= 0xDFFF) ->
  DecodeRune (encode3 r ++ rest) = (r, 3%nat).
Proof.
  intros Hr Hs. unfold encode3. cbn [app]. unfold DecodeRune.
  rewrite shiftr_6, shiftr_12, !land_maskx.
  rewrite lor_t3 by (Z.div_mod_to_equations; lia).
  rewrite !lor_tx by (Z.div_mod_to_equations; lia).
  rewrite !b2z_byte_of_Z by (Z.div_mod_to_equations; lia).
  unfold RuneSelf, first, is_cont, locb, hicb.
  zb; cbn [Nat.leb]; rewrite join3 by dm; rewrite land_mask3; f_equal; dm.
Qed.

Lemma decode_encode4 r rest : 0x10000 <= r <= 0x10FFFF ->
  DecodeRune (encode4 r ++ rest) = (r, 4%nat).
Proof.
  intros Hr. unfold encode4. cbn [app]. unfold DecodeRune.
  rewrite shiftr_6, shiftr_12, shiftr_18, !land_maskx.
  rewrite lor_t4 by (Z.div_mod_to_equations; lia).
  rewrite !lor_tx by (Z.div_mod_to_equations; lia).
  rewrite !b2z_byte_of_Z by (Z.div_mod_to_equations; lia).
  unfold RuneSelf, first, is_cont, locb, hicb.
  zb; cbn [Nat.leb]; rewrite join4 by dm; rewrite land_mask4; f_equal; dm.
Qed.

Lemma byte_of_Z_eq z c : z = b2z c -> byte_of_Z z = c.
Proof. intros ->. apply byte_of_Z_b2z. Qed.

Lemma decode_encode r rest : ValidRune r = true ->
  DecodeRune (EncodeRune r ++ rest) = (r, length (EncodeRune r)).
Proof.
  unfold ValidRune, EncodeRune, surrogateMin, surrogateMax, MaxRune, rune1Max, rune2Max, rune3Max.
  intros Hv.
  destruct (Z.leb_spec 0 r); destruct (Z.ltb_spec r 55296); destruct (Z.ltb_spec 57343 r);
    destruct (Z.leb_spec r 1114111); cbn [andb orb] in Hv; try discriminate;
  zb; try (rewrite decode_encode2 by lia; reflexivity);
      try (rewrite decode_encode3 by lia; reflexivity);
      try (rewrite decode_encode4 by lia; reflexivity);
  cbn [app DecodeRune length]; rewrite b2z_byte_of_Z by lia; unfold RuneSelf; zb; reflexivity.
Qed.

Lemma DecodeRune_width s : s <> [] -> (1 <= snd (DecodeRune s) <= length s)%nat.
Proof.
  destruct s as [|c0 [|c1 [|c2 [|c3 s]]]]; [congruence| | | |]; intros _; unfold DecodeRune;
  repeat match goal with
  | |- context [if ?c then _ else _] => destruct c
  | |- context [match ?c with Some _ => _ | None => _ end] => destruct c as [[[? ?] ?]|]
  end; cbn [snd length]; lia.
Qed.

Ltac enc_consts :=
  unfold ValidRune, EncodeRune, encode2, encode3, encode4, surrogateMin,
    surrogateMax, MaxRune, rune1Max, rune2Max, rune3Max.

Ltac bytes_eq :=
  cbn [firstn]; solve [repeat (f_equal; try (apply byte_of_Z_eq; dm))].

Ltac leaf_err := left; split; [reflexivity | lia].
Ltac leaf1 := right; enc_consts; zb; (split; [reflexivity | bytes_eq]).
Ltac leaf2 :=
  right; rewrite ?land_maskx; rewrite join2 by dm; rewrite land_mask2;
  enc_consts; zb; (split; [reflexivity|]);
  rewrite ?shiftr_6, ?land_maskx; rewrite lor_t2, lor_tx by dm; bytes_eq.
Ltac leaf3 :=
  right; rewrite ?land_maskx; rewrite join3 by dm; rewrite land_mask3;
  enc_consts; zb; (split; [reflexivity|]);
  rewrite ?shiftr_6, ?shiftr_12, ?land_maskx; rewrite lor_t3, !lor_tx by dm; bytes_eq.
Ltac leaf4 :=
  right; rewrite ?land_maskx; rewrite join4 by dm; rewrite land_mask4;
  enc_consts; zb; (split; [reflexivity|]);
  rewrite ?shiftr_6, ?shiftr_12, ?shiftr_18, ?land_maskx; rewrite lor_t4, !lor_tx by dm; bytes_eq.

Lemma first_cases s0 : 128 <= s0 < 256 ->
  first s0 = None \/
  (first s0 = Some (2%nat, 128, 191) /\ 194 <= s0 <= 223) \/
  (first s0 = Some (3%nat, 160, 191) /\ s0 = 224) \/
  (first s0 = Some (3%nat, 128, 191) /\ (225 <= s0 <= 236 \/ 238 <= s0 <= 239)) \/
  (first s0 = Some (3%nat, 128, 159) /\ s0 = 237) \/
  (first s0 = Some (4%nat, 144, 191) /\ s0 = 240) \/
  (first s0 = Some (4%nat, 128, 191) /\ 241 <= s0 <= 243) \/
  (first s0 = Some (4%nat, 128, 143) /\ s0 = 244).
Proof.
  intros H. unfold first, locb, hicb. zb; intuition lia.
Qed.

Ltac leafE := let E := fresh in intros E; apply pair_equal_spec in E; destruct E as [<- <-].

Lemma DecodeRune_sound s r n : DecodeRune s = (r, n) ->
  (r = RuneError /\ (n <= 1)%nat) \/ (ValidRune r = true /\ EncodeRune r = firstn n s).
Proof.
  destruct s as [|c0 rest0]; cbn [DecodeRune]; [leafE; leaf_err|].
  pose proof (b2z_range c0) as R0.
  unfold RuneSelf. destruct (Z.ltb_spec (b2z c0) 128); [leafE; leaf1|].
  destruct (first_cases (b2z c0) ltac:(lia)) as [E|[[E H0]|[[E H0]|[[E H0]|[[E H0]|[[E H0]|[[E H0]|[E H0]]]]]]]];
    rewrite E; clear E; try (leafE; leaf_err);
    (destruct rest0 as [|c1 rest1]; [leafE; leaf_err|]);
    pose proof (b2z_range c1) as R1;
    (destruct (_ || _) eqn:E1; [leafE; leaf_err|]);
    apply orb_false_elim in E1; destruct E1 as [E1 E1'];
    apply Z.ltb_ge in E1, E1'; cbn [Nat.leb];
    try (leafE; leaf2);
    (destruct rest1 as [|c2 rest2]; [leafE; leaf_err|]);
    pose proof (b2z_range c2) as R2; unfold is_cont, locb, hicb;
    (destruct (Z.leb_spec 128 (b2z c2)); [|leafE; leaf_err]);
    (destruct (Z.leb_spec (b2z c2) 191); [|leafE; leaf_err]);
    cbn [andb negb];
    try (leafE; leaf3);
    (destruct rest2 as [|c3 rest3]; [leafE; leaf_err|]);
    pose proof (b2z_range c3) as R3;
    (destruct (Z.leb_spec 128 (b2z c3)); [|leafE; leaf_err]);
    (destruct (Z.leb_spec (b2z c3) 191); [|leafE; leaf_err]);
    cbn [andb negb]; leafE; leaf4.
Qed.

(** ** Iteration over the runes of a string *)

Lemma runes_fuel_irrel f1 : forall f2 s, (length s <= f1)%nat -> (length s <= f2)%nat ->
  runes_fuel f1 s = runes_fuel f2 s.
Proof.
  induction f1 as [|f1 IH]; intros f2 s H1 H2.
  - destruct s; [destruct f2; reflexivity | cbn in H1; lia].
  - destruct s as [|c s']; [destruct f2; reflexivity|].
    destruct f2 as [|f2]; [cbn in H2; lia|].
    cbn [runes_fuel].
    pose proof (DecodeRune_width (c :: s') ltac:(discriminate)) as Hw.
    destruct (DecodeRune (c :: s')) as [r n]. cbn [snd] in Hw.
    f_equal. apply IH; rewrite length_skipn; cbn [length] in *; lia.
Qed.

Lemma runes_fuel_enough fuel s : (length s <= fuel)%nat ->
  runes_fuel fuel s = runes s.
Proof. intros H. apply runes_fuel_irrel; [assumption | lia]. Qed.

Lemma runes_nil : runes [] = [].
Proof. reflexivity. Qed.

Lemma runes_step s : s <> [] ->
  runes s = fst (DecodeRune s) :: runes (skipn (snd (DecodeRune s)) s).
Proof.
  intros Hs. unfold runes at 1. destruct s as [|c s']; [congruence|].
  cbn [length runes_fuel].
  pose proof (DecodeRune_width (c :: s') Hs) as Hw.
  destruct (DecodeRune (c :: s')) as [r n]. cbn [fst snd] in *.
  f_equal. apply runes_fuel_enough.
  rewrite length_skipn. cbn [length] in *. lia.
Qed.

Lemma EncodeRune_nonempty r : EncodeRune r <> [].
Proof.
  unfold EncodeRune, encode2, encode3, encode4.
  repeat match goal with |- context [if ?c then _ else _] => destruct c end; discriminate.
Qed.

Lemma skipn_length_app {A} (l1 l2 : list A) : skipn (length l1) (l1 ++ l2) = l2.
Proof. induction l1; [reflexivity | assumption]. Qed.

Lemma runes_encode r s : ValidRune r = true -> runes (EncodeRune r ++ s) = r :: runes s.
Proof.
  intros Hv. rewrite runes_step.
  - rewrite decode_encode by assumption. cbn [fst snd]. rewrite skipn_length_app. reflexivity.
  - pose proof (EncodeRune_nonempty r). destruct (EncodeRune r); [congruence | discriminate].
Qed.

Lemma runes_encode_runes rs s : Forall (fun r => ValidRune r = true) rs ->
  runes (encode_runes rs ++ s) = rs ++ runes s.
Proof.
  induction 1 as [|r rs Hr _ IH]; [reflexivity|].
  unfold encode_runes in *. cbn [map concat]. rewrite <- app_assoc.
  rewrite runes_encode by assumption. rewrite IH. reflexivity.
Qed.

Lemma ValidRune_RuneError : ValidRune RuneError = true.
Proof. reflexivity. Qed.

Lemma DecodeRune_valid s : ValidRune (fst (DecodeRune s)) = true.
Proof.
  destruct (DecodeRune s) as [r n] eqn:E. apply DecodeRune_sound in E.
  cbn [fst]. destruct E as [[-> _]|[H _]]; [reflexivity | assumption].
Qed.

Lemma runes_valid s : Forall (fun r => ValidRune r = true) (runes s).
Proof.
  remember (length s) as k eqn:Hk. revert s Hk.
  induction k as [k IH] using lt_wf_ind. intros s Hk.
  destruct s as [|c s']; [constructor|].
  rewrite runes_step by discriminate.
  pose proof (DecodeRune_width (c :: s') ltac:(discriminate)) as Hw.
  constructor; [apply DecodeRune_valid|].
  eapply IH; [|reflexivity]. rewrite length_skipn. subst k. cbn [length] in *. lia.
Qed.

Lemma gostring_rune_ind (P : gostring -> Prop) :
  P [] ->
  (forall s, s <> [] -> P (skipn (snd (DecodeRune s)) s) -> P s) ->
  forall s, P s.
Proof.
  intros H0 Hstep s. remember (length s) as k eqn:Hk. revert s Hk.
  induction k as [k IH] using lt_wf_ind. intros s Hk.
  destruct s as [|c s']; [exact H0|].
  apply Hstep; [discriminate|].
  pose proof (DecodeRune_width (c :: s') ltac:(discriminate)) as Hw.
  eapply IH; [|reflexivity]. rewrite length_skipn. subst k. cbn [length] in *. lia.
Qed.

Lemma encode_runes_app a b : encode_runes (a ++ b) = encode_runes a ++ encode_runes b.
Proof. unfold encode_runes. rewrite map_app, concat_app. reflexivity. Qed.

(** ** The loops of TrimSpace end within their fuel *)

Lemma trimLeftSpace_fuel f1 : forall f2 s, (length s <= f1)%nat -> (length s <= f2)%nat ->
  Strings.trimLeftSpace f1 s = Strings.trimLeftSpace f2 s.
Proof.
  induction f1 as [|f1 IH]; intros f2 s H1 H2.
  - destruct s; [destruct f2; reflexivity | cbn in H1; lia].
  - destruct s as [|c s']; [destruct f2; reflexivity|].
    destruct f2 as [|f2]; [cbn in H2; lia|].
    cbn [Strings.trimLeftSpace].
    pose proof (DecodeRune_width (c :: s') ltac:(discriminate)) as Hw.
    destruct (DecodeRune (c :: s')) as [r n]. cbn [snd] in Hw.
    destruct (Unicode.IsSpace r); [|reflexivity].
    apply IH; rewrite length_skipn; cbn [length] in *; lia.
Qed.

Lemma DecodeLastRune_width s : s <> [] -> (1 <= snd (Strings.DecodeLastRune s) <= length s)%nat.
Proof.
  intros Hs. unfold Strings.DecodeLastRune.
  assert (Hl : (0 < length s)%nat) by (destruct s; [congruence | cbn; lia]).
  destruct (Z.eqb_spec (Z.of_nat (length s)) 0); [lia|].
  destruct (_ <? RuneSelf); [cbn [snd]; lia|].
  set (start1 := Z.max 0 _).
  destruct (DecodeRune (skipn (Z.to_nat start1) s)) as [r1 size] eqn:E.
  destruct (Z.eqb_spec (start1 + Z.of_nat size) (Z.of_nat (length s))) as [He|]; cbn [snd]; [|lia].
  assert (H0 : 0 <= start1) by (unfold start1; lia).
  split; [|lia].
  destruct size; [|lia]. exfalso.
  assert (Hsk : skipn (Z.to_nat start1) s = []).
  { apply skipn_all2. lia. }
  assert (Hb : forall st lim n, st < Z.of_nat (length s) -> Strings.backToStart n s st lim < Z.of_nat (length s)).
  { intros st lim k. revert st. induction k as [|k IHk]; intros st Hst; cbn [Strings.backToStart]; [assumption|].
    destruct (st <? lim); [assumption|]. destruct (Strings.RuneStart _); [assumption|]. apply IHk. lia. }
  specialize (Hb (Z.of_nat (length s) - 1 - 1) (Z.max 0 (Z.of_nat (length s) - 4)) 4%nat ltac:(lia)).
  unfold start1 in He. lia.
Qed.

Lemma trimRightSpace_fuel f1 : forall f2 s, (length s <= f1)%nat -> (length s <= f2)%nat ->
  Strings.trimRightSpace f1 s = Strings.trimRightSpace f2 s.
Proof.
  induction f1 as [|f1 IH]; intros f2 s H1 H2.
  - destruct s; [destruct f2; reflexivity | cbn in H1; lia].
  - destruct s as [|c s']; [destruct f2; reflexivity|].
    destruct f2 as [|f2]; [cbn in H2; lia|].
    cbn [Strings.trimRightSpace].
    pose proof (DecodeLastRune_width (c :: s') ltac:(discriminate)) as Hw.
    destruct (Strings.DecodeLastRune (c :: s')) as [r n]. cbn [snd] in Hw.
    destruct (Unicode.IsSpace r); [|reflexivity].
    apply IH; rewrite length_firstn; cbn [length] in *; lia.
Qed.

Example TrimSpace_samples :
  Strings.TrimSpace showLine = bs "show"
  /\ Strings.TrimSpace paddedLine = bs "show"
  /\ Strings.TrimSpace ([xe3; x80; x80; x09] ++ bs "show" ++ [xc2; xa0; x20; xe2; x80; xa8; x0a])
     = bs "show"
  /\ Strings.TrimSpace (bs "show me" ++ [x0a]) = bs "show me"
  /\ Strings.TrimSpace (bs "SHOW" ++ [x0a]) = bs "SHOW"
  /\ Strings.TrimSpace (bs "show" ++ [xff; x0a]) = bs "show" ++ [xff].
Proof. repeat split. Qed.

(** ** Weight and truncation *)

Section WeightFacts.
Variable Han : Unicode.RangeTable.

Lemma itemW_pos r : 1 <= itemW Han r <= 2.
Proof. unfold itemW. destruct (Unicode.Is Han r); lia. Qed.

Lemma weight_loop rs : forall w,
  fold_left (fun w r => if Unicode.Is Han r then w + 2 else w + 1) rs w
  = w + runesWeight Han rs.
Proof.
  induction rs as [|r rs IH]; intros w; cbn [fold_left runesWeight]; [lia|].
  rewrite IH. unfold itemW. destruct (Unicode.Is Han r); lia.
Qed.

Lemma getWeight_runesWeight s : getWeight Han s = runesWeight Han (runes s).
Proof. unfold getWeight. rewrite weight_loop. lia. Qed.

Lemma runesWeight_count rs :
  runesWeight Han rs
  = 2 * Z.of_nat (length (filter (isCJK Han) rs))
    + Z.of_nat (length (filter (fun r => negb (isCJK Han r)) rs)).
Proof.
  induction rs as [|r rs IH]; [reflexivity|].
  cbn [runesWeight filter] in *. rewrite IH. unfold itemW, isCJK.
  destruct (Unicode.Is Han r); cbn [negb length]; lia.
Qed.

Lemma runesWeight_nonneg rs : 0 <= runesWeight Han rs <= 2 * Z.of_nat (length rs).
Proof.
  induction rs as [|r rs IH]; cbn [runesWeight length]; [lia|].
  pose proof (itemW_pos r). lia.
Qed.

Lemma runesWeight_app a b : runesWeight Han (a ++ b) = runesWeight Han a + runesWeight Han b.
Proof.
  induction a as [|r a IH]; cbn [app runesWeight]; lia.
Qed.

Lemma truncateLoop_kept maxW rs : forall currW res,
  truncateLoop Han maxW rs currW res = res ++ encode_runes (keptRunes Han maxW rs currW).
Proof.
  induction rs as [|r rs IH]; intros currW res; cbn [truncateLoop keptRunes].
  - unfold encode_runes. cbn. rewrite app_nil_r. reflexivity.
  - destruct (currW + itemW Han r >? maxW).
    + unfold encode_runes. cbn. rewrite app_nil_r. reflexivity.
    + rewrite IH. unfold encode_runes. cbn [map concat]. rewrite <- app_assoc. reflexivity.
Qed.

Lemma keptRunes_prefix maxW rs : forall currW,
  exists dropped, rs = keptRunes Han maxW rs currW ++ dropped /\
    match dropped with
    | [] => True
    | r :: _ => currW + runesWeight Han (keptRunes Han maxW rs currW) + itemW Han r > maxW
    end.
Proof.
  induction rs as [|r rs IH]; intros currW; cbn [keptRunes].
  - exists []. split; [reflexivity | exact I].
  - destruct (Z.gtb_spec (currW + itemW Han r) maxW) as [Hgt|Hle].
    + exists (r :: rs). split; [reflexivity|]. cbn [runesWeight]. lia.
    + destruct (IH (currW + itemW Han r)) as [d [Hd Hm]].
      exists d. split; [cbn [app]; f_equal; exact Hd|].
      destruct d; [exact I|]. cbn [runesWeight]. lia.
Qed.

Lemma keptRunes_weight maxW rs : forall currW, currW <= maxW ->
  currW + runesWeight Han (keptRunes Han maxW rs currW) <= maxW.
Proof.
  induction rs as [|r rs IH]; intros currW Hc; cbn [keptRunes].
  - cbn. lia.
  - destruct (Z.gtb_spec (currW + itemW Han r) maxW) as [Hgt|Hle].
    + cbn. lia.
    + cbn [runesWeight].
      specialize (IH _ Hle). lia.
Qed.

Lemma keptRunes_idem maxW rs : forall currW,
  keptRunes Han maxW (keptRunes Han maxW rs currW) currW = keptRunes Han maxW rs currW.
Proof.
  induction rs as [|r rs IH]; intros currW; cbn [keptRunes]; [reflexivity|].
  destruct (currW + itemW Han r >? maxW) eqn:E; [reflexivity|].
  cbn [keptRunes]. rewrite E. f_equal. apply IH.
Qed.

Lemma keptRunes_all maxW rs : forall currW, currW + runesWeight Han rs <= maxW ->
  keptRunes Han maxW rs currW = rs.
Proof.
  induction rs as [|r rs IH]; intros currW H; cbn [keptRunes]; [reflexivity|].
  cbn [runesWeight] in H.
  pose proof (runesWeight_nonneg rs).
  destruct (Z.gtb_spec (currW + itemW Han r) maxW); [lia|].
  f_equal. apply IH. lia.
Qed.

Lemma Forall_app_l {A} (P : A -> Prop) a b : Forall P (a ++ b) -> Forall P a.
Proof. intros H. apply Forall_app in H. tauto. Qed.

Lemma keptRunes_valid maxW s currW :
  Forall (fun r => ValidRune r = true) (keptRunes Han maxW (runes s) currW).
Proof.
  destruct (keptRunes_prefix maxW (runes s) currW) as [d [Hd _]].
  pose proof (runes_valid s) as Hv. rewrite Hd in Hv. eapply Forall_app_l; eassumption.
Qed.

Lemma runes_truncateByWeight s maxW :
  runes (truncateByWeight Han s maxW) = keptRunes Han maxW (runes s) 0.
Proof.
  unfold truncateByWeight. rewrite truncateLoop_kept. cbn [app].
  rewrite <- (app_nil_r (encode_runes _)).
  rewrite runes_encode_runes by apply keptRunes_valid.
  rewrite runes_nil, app_nil_r. reflexivity.
Qed.

Lemma getWeight_bounds s : 0 <= getWeight Han s <= 2 * Z.of_nat (length s).
Proof.
  rewrite getWeight_runesWeight. pose proof (runesWeight_nonneg (runes s)) as H.
  assert (Hl : (length (runes s) <= length s)%nat).
  { clear H. induction s as [|s Hs IH] using gostring_rune_ind; [cbn; lia|].
    rewrite (runes_step s Hs). cbn [length].
    pose proof (DecodeRune_width s Hs) as Hw. rewrite length_skipn in IH.
    destruct s; [congruence|]. cbn [length] in *. lia. }
  lia.
Qed.

Lemma truncateByWeight_weight s m : 0 <= m ->
  getWeight Han (truncateByWeight Han s m) <= m.
Proof.
  intros Hm. rewrite getWeight_runesWeight, runes_truncateByWeight.
  pose proof (keptRunes_weight m (runes s) 0 Hm). lia.
Qed.

(** Claim C6.  For every string [s], [getWeight s] is twice the number of
    its characters that are in the table [unicode.Han] plus the number of
    its other characters; the characters are the runes a [range] loop
    visits, an invalid byte counting as one character U+FFFD. *)
Theorem getWeight_count s :
  getWeight Han s = 2 * countCJK Han s + 1 * countOther Han s.
Proof.
  rewrite getWeight_runesWeight, runesWeight_count. unfold countCJK, countOther. lia.
Qed.

(** Claim C9.  Truncation without ellipsis is idempotent, for every string
    and every budget. *)
Theorem truncateByWeight_idempotent s m :
  truncateByWeight Han (truncateByWeight Han s m) m = truncateByWeight Han s m.
Proof.
  unfold truncateByWeight at 1. rewrite runes_truncateByWeight.
  rewrite truncateLoop_kept, keptRunes_idem.
  unfold truncateByWeight. rewrite truncateLoop_kept. reflexivity.
Qed.

(** Claim C8, amended.  For every string [s] and every budget [m] that is
    not negative, the weight of [truncateByWeight s m] is at most [m].  The
    result is made of whole characters: its runes are a prefix [kept] of the
    runes of [s], and the first rune left out, if there is one, would have
    taken the weight above [m]. *)
Theorem truncateByWeight_bound s m : 0 <= m ->
  getWeight Han (truncateByWeight Han s m) <= m /\
  exists kept dropped,
    runes s = kept ++ dropped /\
    truncateByWeight Han s m = encode_runes kept /\
    runes (truncateByWeight Han s m) = kept /\
    match dropped with
    | [] => True
    | r :: _ => getWeight Han (truncateByWeight Han s m) + itemW Han r > m
    end.
Proof.
  intros Hm. split; [apply truncateByWeight_weight; exact Hm|].
  rewrite getWeight_runesWeight, runes_truncateByWeight.
  destruct (keptRunes_prefix m (runes s) 0) as [d [Hd Hdrop]].
  exists (keptRunes Han m (runes s) 0), d.
  split; [exact Hd|]. split; [apply truncateLoop_kept|]. split; [reflexivity|].
  destruct d; [exact I | lia].
Qed.

(** Claim C7, amended.  For every string [s] and budget [m]: when
    [getWeight s <= m] the result is [s] itself; when [getWeight s > m] and
    [m] is not negative, the result is some [res] followed by the ellipsis
    with [getWeight res <= m]. *)
Theorem truncateByWeightWithEllipsis_spec s m :
  (getWeight Han s <= m -> truncateByWeightWithEllipsis Han s m = s) /\
  (0 <= m -> getWeight Han s > m ->
   exists res, truncateByWeightWithEllipsis Han s m = res ++ ellipsis /\
               getWeight Han res <= m).
Proof.
  unfold truncateByWeightWithEllipsis. split.
  - intros H. destruct (Z.leb_spec (getWeight Han s) m); [reflexivity | lia].
  - intros Hm H. destruct (Z.leb_spec (getWeight Han s) m); [lia|].
    exists (truncateByWeight Han s m). split; [reflexivity|].
    apply truncateByWeight_weight. exact Hm.
Qed.

End WeightFacts.

Example getWeight_sample : getWeight Unicode.Han sampleText = 7.
Proof. reflexivity. Qed.

Example truncateByWeight_sample :
  truncateByWeight Unicode.Han sampleText 3 = [xe4; xb8; xad]
  /\ truncateByWeightWithEllipsis Unicode.Han sampleText 3 = [xe4; xb8; xad] ++ ellipsis
  /\ truncateByWeightWithEllipsis Unicode.Han sampleText 7 = sampleText.
Proof. repeat split. Qed.

Lemma truncateByWeight_bound_witness :
  getWeight Unicode.Han (truncateByWeight Unicode.Han sampleText 3) <= 3 /\
  exists kept dropped,
    runes sampleText = kept ++ dropped /\
    truncateByWeight Unicode.Han sampleText 3 = encode_runes kept /\
    runes (truncateByWeight Unicode.Han sampleText 3) = kept /\
    match dropped with
    | [] => True
    | r :: _ =>
      getWeight Unicode.Han (truncateByWeight Unicode.Han sampleText 3)
      + itemW Unicode.Han r > 3
    end.
Proof.
  apply (truncateByWeight_bound Unicode.Han sampleText 3). lia.
Defined.

(** The weight of the empty result is above a negative budget. *)
Lemma truncateByWeight_bound_counterexample :
  ~ (getWeight Unicode.Han (truncateByWeight Unicode.Han (bs "a") (-1)) <= -1).
Proof. vm_compute. intros H. apply H. reflexivity. Qed.

Lemma truncateByWeightWithEllipsis_spec_witness :
  truncateByWeightWithEllipsis Unicode.Han sampleText 7 = sampleText /\
  exists res,
    truncateByWeightWithEllipsis Unicode.Han sampleText 3 = res ++ ellipsis /\
    getWeight Unicode.Han res <= 3.
Proof.
  split.
  - apply (proj1 (truncateByWeightWithEllipsis_spec Unicode.Han sampleText 7)).
    vm_compute. discriminate.
  - apply (proj2 (truncateByWeightWithEllipsis_spec Unicode.Han sampleText 3)).
    + lia.
    + vm_compute. reflexivity.
Defined.

(** With a negative budget the result is the ellipsis alone, and the weight
    of what precedes it, zero, is above the budget. *)
Lemma truncateByWeightWithEllipsis_counterexample :
  getWeight Unicode.Han (bs "a") > -1 /\
  ~ (exists res,
        truncateByWeightWithEllipsis Unicode.Han (bs "a") (-1) = res ++ ellipsis /\
        getWeight Unicode.Han res <= -1).
Proof.
  split; [reflexivity|]. intros [res [H1 H2]].
  change (truncateByWeightWithEllipsis Unicode.Han (bs "a") (-1)) with ([] ++ ellipsis) in H1.
  apply app_inv_tail in H1. subst res. vm_compute in H2. apply H2. reflexivity.
Qed.

(** ** JSON: the encoder *)

Lemma appendString_fuel_irrel f1 : forall f2 s, (length s <= f1)%nat -> (length s <= f2)%nat ->
  appendString_fuel f1 s = appendString_fuel f2 s.
Proof.
  induction f1 as [|f1 IH]; intros f2 s H1 H2.
  - destruct s; [destruct f2; reflexivity | cbn in H1; lia].
  - destruct s as [|c s']; [destruct f2; reflexivity|].
    destruct f2 as [|f2]; [cbn in H2; lia|].
    cbn [appendString_fuel].
    destruct (b2z c <? RuneSelf).
    + f_equal. apply IH; cbn [length] in *; lia.
    + pose proof (DecodeRune_width (c :: s') ltac:(discriminate)) as Hw.
      destruct (DecodeRune (c :: s')) as [r n]. cbn [snd] in Hw.
      f_equal. apply IH; rewrite length_skipn; cbn [length] in *; lia.
Qed.

Lemma quoted_nil : quoted [] = [].
Proof. reflexivity. Qed.

Lemma quoted_ascii c rest : b2z c < RuneSelf ->
  quoted (c :: rest)
  = (if htmlSafe (b2z c) then [c] else escapeByte c) ++ quoted rest.
Proof.
  intros H. unfold quoted. cbn [length appendString_fuel].
  destruct (Z.ltb_spec (b2z c) RuneSelf); [reflexivity | lia].
Qed.

Lemma quoted_multi s : s <> [] -> RuneSelf <= b2z (hd x00 s) ->
  quoted s
  = (let (r, size) := DecodeRune s in
     if (r =? RuneError) && (size =? 1)%nat then [x5c; x75; x66; x66; x66; x64]
     else if (r =? 0x2028) || (r =? 0x2029)
          then [x5c; x75; x32; x30; x32; hex (Z.land r 0xF)]
          else firstn size s)
    ++ quoted (skipn (snd (DecodeRune s)) s).
Proof.
  intros Hs H. destruct s as [|c rest]; [congruence|]. cbn [hd] in H.
  unfold quoted at 1. cbn [length appendString_fuel].
  destruct (Z.ltb_spec (b2z c) RuneSelf); [lia|].
  pose proof (DecodeRune_width (c :: rest) Hs) as Hw.
  destruct (DecodeRune (c :: rest)) as [r n]. cbn [snd] in *.
  f_equal. unfold quoted. apply appendString_fuel_irrel; rewrite length_skipn; cbn [length] in *; lia.
Qed.

(** ** JSON: unquoting *)

Lemma unquote_fuel_irrel f1 : forall f2 s, (length s <= f1)%nat -> (length s <= f2)%nat ->
  unquote_fuel f1 s = unquote_fuel f2 s.
Proof.
  induction f1 as [|f1 IH]; intros f2 s H1 H2.
  - destruct s; [destruct f2; reflexivity | cbn in H1; lia].
  - destruct s as [|c s']; [destruct f2; reflexivity|].
    destruct f2 as [|f2]; [cbn in H2; lia|].
    cbn [unquote_fuel]. cbn [length] in H1, H2.
    assert (IH' : forall t, (length t <= length s')%nat -> unquote_fuel f1 t = unquote_fuel f2 t).
    { intros t Ht. apply IH; lia. }
    assert (Hsk : forall k, (length (skipn (S k) (c :: s')) <= length s')%nat).
    { intros k. rewrite length_skipn. cbn [length]. lia. }
    destruct (b2z c =? 92).
    + destruct s' as [|e s'']; [reflexivity|].
      assert (Hs'' : (length s'' <= length (e :: s''))%nat) by (cbn [length]; lia).
      repeat match goal with
      | |- (if ?b then _ else _) = (if ?b then _ else _) => destruct b
      | |- prepend _ _ = prepend _ _ => f_equal
      end; try reflexivity; try (apply IH'; assumption).
      * apply IH'. change (skipn 6 (skipn 6 (c :: e :: s''))) with (skipn 6 (skipn 5 (e :: s''))).
        rewrite length_skipn, length_skipn. lia.
      * apply IH'. apply (Hsk 5%nat).
      * apply IH'. apply (Hsk 5%nat).
    + destruct (_ || _); [reflexivity|].
      destruct (b2z c <? RuneSelf).
      * f_equal. apply IH'. lia.
      * pose proof (DecodeRune_width (c :: s') ltac:(discriminate)) as Hw.
        destruct (DecodeRune (c :: s')) as [r n]. cbn [snd] in Hw.
        f_equal. apply IH'. rewrite length_skipn. cbn [length] in *. lia.
Qed.

Lemma unquote_step (s : gostring) (f : nat) : (length s <= f)%nat ->
  unquote_fuel f s = unquote s.
Proof. intros H. apply unquote_fuel_irrel; [assumption | lia]. Qed.

Lemma DecodeRune_ascii c rest : b2z c < RuneSelf -> DecodeRune (c :: rest) = (b2z c, 1%nat).
Proof.
  intros H. cbn [DecodeRune]. destruct (Z.ltb_spec (b2z c) RuneSelf); [reflexivity | lia].
Qed.

Lemma EncodeRune_ascii c : b2z c < RuneSelf -> EncodeRune (b2z c) = [c].
Proof.
  intros H. pose proof (b2z_range c). unfold EncodeRune, rune1Max. unfold RuneSelf in H.
  zb; rewrite byte_of_Z_b2z; reflexivity.
Qed.

Lemma EncodeRune_high r : ValidRune r = true -> 0x80 <= r ->
  Forall (fun c => 0x80 <= b2z c) (EncodeRune r).
Proof.
  intros Hv Hr. revert Hv. enc_consts. zb; intros Hv; try discriminate Hv;
  rewrite ?shiftr_6, ?shiftr_12, ?shiftr_18, ?land_maskx;
  rewrite ?lor_t2, ?lor_t3, ?lor_t4, ?lor_tx by dm;
  repeat (constructor; [rewrite b2z_byte_of_Z by dm; dm|]); constructor.
Qed.

Lemma DecodeRune_high s r n : s <> [] -> RuneSelf <= b2z (hd x00 s) ->
  DecodeRune s = (r, n) ->
  (r = RuneError /\ n = 1%nat) \/
  (ValidRune r = true /\ 0x80 <= r /\ EncodeRune r = firstn n s /\ (r, n) <> (RuneError, 1%nat)).
Proof.
  intros Hs Hh E. pose proof (DecodeRune_width s Hs) as Hw. rewrite E in Hw. cbn [snd] in Hw.
  destruct (DecodeRune_sound _ _ _ E) as [[-> Hn]|[Hv He]].
  - left. split; [reflexivity | lia].
  - destruct (Z.eq_dec r RuneError) as [->|Hne].
    + destruct (Nat.eq_dec n 1) as [->|Hn1]; [left; auto|].
      right. repeat split; try assumption; [unfold RuneError; lia | congruence].
    + right. split; [assumption|]. split; [|split; [assumption | congruence]].
      destruct (Z.lt_ge_cases r 0x80) as [Hlt|]; [|assumption]. exfalso.
      destruct s as [|c rest]; [congruence|]. cbn [hd] in Hh.
      assert (Hr0 : 0 <= r).
      { revert Hv. unfold ValidRune, surrogateMin, surrogateMax, MaxRune. zb; intros; try discriminate; lia. }
      revert He. unfold EncodeRune, rune1Max. zb;
      (destruct n as [|n]; [lia|]); cbn [firstn]; intros [= Hc _];
      subst c; rewrite b2z_byte_of_Z in Hh by lia; unfold RuneSelf in Hh; lia.
Qed.

Lemma hex_table :
  forallb (fun k => isHex (b2z (hex (Z.of_nat k)))
                    && match hexVal (b2z (hex (Z.of_nat k))) with
                       | Some v => v =? Z.of_nat k
                       | None => false
                       end) (seq 0 16) = true.
Proof. reflexivity. Qed.

Lemma hex_spec n : 0 <= n < 16 ->
  isHex (b2z (hex n)) = true /\ hexVal (b2z (hex n)) = Some n.
Proof.
  intros H. pose proof hex_table as T. rewrite forallb_forall in T.
  specialize (T (Z.to_nat n)). rewrite Z2Nat.id in T by lia.
  assert (Hin : In (Z.to_nat n) (seq 0 16)) by (apply in_seq; lia).
  apply T in Hin. apply andb_true_iff in Hin. destruct Hin as [H1 H2].
  split; [exact H1|].
  destruct (hexVal (b2z (hex n))) as [v|]; [|discriminate].
  apply Z.eqb_eq in H2. congruence.
Qed.

(** *** Units of a quoted string under [unquote] *)

Lemma unquote_cons_eq (u X : gostring) (out : gostring) :
  u <> [] ->
  (forall f, unquote_fuel (S (length X + f)) (u ++ X) = prepend out (unquote_fuel (length X + f) X)) ->
  unquote (u ++ X) = prepend out (unquote X).
Proof.
  intros Hu H. unfold unquote at 1.
  destruct u as [|c u']; [congruence|].
  rewrite length_app. cbn [length].
  replace (S (length u') + length X)%nat with (S (length X + length u')) by lia.
  rewrite H. f_equal. apply unquote_step. lia.
Qed.

Lemma unquote_plain c X : 0x20 <= b2z c < 0x80 -> b2z c <> 0x22 -> b2z c <> 0x5c ->
  unquote (c :: X) = prepend [c] (unquote X).
Proof.
  intros H1 H2 H3. apply (unquote_cons_eq [c] X [c]); [discriminate|].
  intros f. cbn [app unquote_fuel]. unfold RuneSelf. zb; reflexivity.
Qed.

Lemma escapeByte_cases c : b2z c < 0x80 -> htmlSafe (b2z c) = false ->
  (escapeByte c = [x5c; c] /\ (b2z c = 0x5c \/ b2z c = 0x22)) \/
  (escapeByte c = [x5c; x62] /\ c = x08) \/
  (escapeByte c = [x5c; x66] /\ c = x0c) \/
  (escapeByte c = [x5c; x6e] /\ c = x0a) \/
  (escapeByte c = [x5c; x72] /\ c = x0d) \/
  (escapeByte c = [x5c; x74] /\ c = x09) \/
  (escapeByte c = [x5c; x75; x30; x30; hex (b2z c / 16); hex (b2z c mod 16)]
   /\ 0 <= b2z c < 0x80 /\ b2z c <> 0x5c /\ b2z c <> 0x22).
Proof.
  intros H Hs. pose proof (b2z_range c) as R. unfold escapeByte.
  assert (E : forall v, b2z c = b2z v -> c = v).
  { intros v Hv. rewrite <- (byte_of_Z_b2z c), Hv. apply byte_of_Z_b2z. }
  destruct (Z.eqb_spec (b2z c) 0x5c); [left; cbn [orb]; split; auto|].
  destruct (Z.eqb_spec (b2z c) 0x22); [left; cbn [orb]; split; auto|]. cbn [orb].
  destruct (Z.eqb_spec (b2z c) 8); [right; left; split; [reflexivity | apply E; assumption]|].
  destruct (Z.eqb_spec (b2z c) 12); [right; right; left; split; [reflexivity | apply E; assumption]|].
  destruct (Z.eqb_spec (b2z c) 10); [do 3 right; left; split; [reflexivity | apply E; assumption]|].
  destruct (Z.eqb_spec (b2z c) 13); [do 4 right; left; split; [reflexivity | apply E; assumption]|].
  destruct (Z.eqb_spec (b2z c) 9); [do 5 right; left; split; [reflexivity | apply E; assumption]|].
  do 6 right. split; [|lia].
  rewrite Z.shiftr_div_pow2 by lia. change 0xF with (Z.ones 4). rewrite Z.land_ones by lia.
  reflexivity.
Qed.

Lemma getu4_hex a b c d X : 0 <= a < 16 -> 0 <= b < 16 -> 0 <= c < 16 -> 0 <= d < 16 ->
  getu4 (x5c :: x75 :: hex a :: hex b :: hex c :: hex d :: X)
  = ((a * 16 + b) * 16 + c) * 16 + d.
Proof.
  intros Ha Hb Hc Hd. unfold getu4.
  change (b2z x5c =? 92) with true. change (b2z x75 =? 117) with true. cbn [andb].
  rewrite (proj2 (hex_spec a Ha)), (proj2 (hex_spec b Hb)),
          (proj2 (hex_spec c Hc)), (proj2 (hex_spec d Hd)). reflexivity.
Qed.

Lemma unquote_u4 a b c d X :
  0 <= a < 16 -> 0 <= b < 16 -> 0 <= c < 16 -> 0 <= d < 16 ->
  IsSurrogate (((a * 16 + b) * 16 + c) * 16 + d) = false ->
  unquote ([x5c; x75; hex a; hex b; hex c; hex d] ++ X)
  = prepend (EncodeRune (((a * 16 + b) * 16 + c) * 16 + d)) (unquote X).
Proof.
  intros Ha Hb Hc Hd Hs. apply unquote_cons_eq; [discriminate|].
  intros f. cbn [app]. cbn [unquote_fuel].
  change (b2z x5c =? 92) with true. cbv iota.
  change (b2z x75) with 117. cbn [Z.eqb Pos.eqb orb].
  rewrite getu4_hex by assumption.
  destruct (Z.ltb_spec (((a * 16 + b) * 16 + c) * 16 + d) 0); [lia|].
  rewrite Hs. reflexivity.
Qed.

Lemma unquote_escape c X : b2z c < 0x80 -> htmlSafe (b2z c) = false ->
  unquote (escapeByte c ++ X) = prepend [c] (unquote X).
Proof.
  intros H Hs.
  destruct (escapeByte_cases c H Hs) as
    [[E Hc]|[[E ->]|[[E ->]|[[E ->]|[[E ->]|[[E ->]|[E Hc]]]]]]]; rewrite E.
  - apply unquote_cons_eq; [discriminate|]. intros f. cbn [app unquote_fuel].
    change (b2z x5c =? 92) with true. cbv iota.
    destruct Hc as [-> | ->]; reflexivity.
  - apply unquote_cons_eq; [discriminate|]. intros f. reflexivity.
  - apply unquote_cons_eq; [discriminate|]. intros f. reflexivity.
  - apply unquote_cons_eq; [discriminate|]. intros f. reflexivity.
  - apply unquote_cons_eq; [discriminate|]. intros f. reflexivity.
  - apply unquote_cons_eq; [discriminate|]. intros f. reflexivity.
  - change x30 with (hex 0).
    rewrite unquote_u4; try (Z.div_mod_to_equations; lia).
    + replace (((0 * 16 + 0) * 16 + b2z c / 16) * 16 + b2z c mod 16) with (b2z c)
        by (Z.div_mod_to_equations; lia).
      rewrite EncodeRune_ascii by (unfold RuneSelf; lia). reflexivity.
    + unfold IsSurrogate. zb; reflexivity.
Qed.

Lemma unquote_fffd X :
  unquote ([x5c; x75; x66; x66; x66; x64] ++ X) = prepend (EncodeRune RuneError) (unquote X).
Proof.
  change x66 with (hex 15). change x64 with (hex 13).
  rewrite unquote_u4; try lia; reflexivity.
Qed.

Lemma unquote_202x r X : r = 0x2028 \/ r = 0x2029 ->
  unquote ([x5c; x75; x32; x30; x32; hex (Z.land r 0xF)] ++ X)
  = prepend (EncodeRune r) (unquote X).
Proof.
  intros [-> | ->]; change x32 with (hex 2); change x30 with (hex 0).
  - change (Z.land 0x2028 0xF) with 8. rewrite unquote_u4; try lia; reflexivity.
  - change (Z.land 0x2029 0xF) with 9. rewrite unquote_u4; try lia; reflexivity.
Qed.

Lemma unquote_rune r X : ValidRune r = true -> 0x80 <= r ->
  unquote (EncodeRune r ++ X) = prepend (EncodeRune r) (unquote X).
Proof.
  intros Hv Hr. apply unquote_cons_eq; [apply EncodeRune_nonempty|].
  intros f. pose proof (EncodeRune_high r Hv Hr) as Hh.
  pose proof (decode_encode r X Hv) as Hd.
  destruct (EncodeRune r) as [|c0 t] eqn:E; [exfalso; eapply EncodeRune_nonempty; eassumption|].
  inversion Hh as [|? ? Hc0 _]; subst. pose proof (b2z_range c0).
  cbn [app] in *. cbn [unquote_fuel]. rewrite Hd.
  unfold RuneSelf. zb;
  change (skipn (length (c0 :: t)) (c0 :: t ++ X)) with (skipn (length (c0 :: t)) ((c0 :: t) ++ X));
  rewrite skipn_length_app, E; reflexivity.
Qed.

Lemma htmlSafe_plain b : htmlSafe b = true -> 0x20 <= b < 0x80 /\ b <> 0x22 /\ b <> 0x5c.
Proof. unfold htmlSafe. zb; intros; try discriminate; lia. Qed.

Lemma toValidUTF8_step s : s <> [] ->
  toValidUTF8 s = EncodeRune (fst (DecodeRune s)) ++ toValidUTF8 (skipn (snd (DecodeRune s)) s).
Proof. intros H. unfold toValidUTF8. rewrite (runes_step s H). reflexivity. Qed.

Lemma unquote_quoted s : unquote (quoted s) = Some (toValidUTF8 s).
Proof.
  induction s as [|s Hs IH] using gostring_rune_ind; [reflexivity|].
  rewrite (toValidUTF8_step s Hs).
  destruct s as [|c rest]; [congruence|].
  destruct (Z.lt_ge_cases (b2z c) RuneSelf) as [Hlt|Hge].
  - rewrite DecodeRune_ascii in * by assumption. cbn [fst snd skipn] in *.
    rewrite quoted_ascii by assumption. rewrite EncodeRune_ascii by assumption.
    destruct (htmlSafe (b2z c)) eqn:Hsafe.
    + apply htmlSafe_plain in Hsafe. cbn [app].
      rewrite unquote_plain by lia. rewrite IH. reflexivity.
    + rewrite unquote_escape by (unfold RuneSelf in Hlt; assumption). rewrite IH. reflexivity.
  - rewrite quoted_multi by (assumption || exact Hge).
    destruct (DecodeRune (c :: rest)) as [r n] eqn:E. cbn [fst snd] in *.
    destruct (DecodeRune_high _ _ _ Hs Hge E) as [[-> ->]|(Hv & Hr & He & Hne)].
    + change ((RuneError =? RuneError) && (1 =? 1)%nat) with true. cbv iota.
      rewrite unquote_fffd, IH. reflexivity.
    + assert (Hc : (r =? RuneError) && (n =? 1)%nat = false).
      { destruct (Z.eqb_spec r RuneError); [|reflexivity].
        destruct (Nat.eqb_spec n 1); [subst; congruence | reflexivity]. }
      rewrite Hc.
      destruct ((r =? 0x2028) || (r =? 0x2029)) eqn:E2.
      * rewrite unquote_202x, IH; [reflexivity|].
        apply orb_true_iff in E2. rewrite !Z.eqb_eq in E2. exact E2.
      * rewrite <- He. rewrite unquote_rune by assumption. rewrite IH. reflexivity.
Qed.

(** *** The scanner inside a quoted string *)

Lemma emits_nil o : emits [] o = o.
Proof. destruct o; reflexivity. Qed.

Lemma emits_app a b o : emits a (emits b o) = emits (a ++ b) o.
Proof. destruct o; cbn; [rewrite app_assoc|]; reflexivity. Qed.

Lemma lex_step st c ts st' X : lexStep st c = Some (ts, st') ->
  lex st (c :: X) = emits ts (lex st' X).
Proof. intros H. cbn [lex]. rewrite H. reflexivity. Qed.

Lemma lex_in_plain c lit X : plainByte c ->
  lex (LString SIn lit) (c :: X) = lex (LString SIn (c :: lit)) X.
Proof.
  intros (H1 & H2 & H3). rewrite <- (emits_nil (lex (LString SIn (c :: lit)) X)).
  apply lex_step. cbn [lexStep]. unfold strStep. zb; reflexivity.
Qed.

Lemma lex_in_plains u : forall lit X, Forall plainByte u ->
  lex (LString SIn lit) (u ++ X) = lex (LString SIn (rev u ++ lit)) X.
Proof.
  induction u as [|c u IH]; intros lit X H; [reflexivity|].
  inversion H; subst. cbn [app rev]. rewrite lex_in_plain by assumption.
  rewrite IH by assumption. rewrite <- app_assoc. reflexivity.
Qed.

Lemma lex_in_u4 a b c d lit X :
  0 <= a < 16 -> 0 <= b < 16 -> 0 <= c < 16 -> 0 <= d < 16 ->
  lex (LString SIn lit) ([x5c; x75; hex a; hex b; hex c; hex d] ++ X)
  = lex (LString SIn (rev [x5c; x75; hex a; hex b; hex c; hex d] ++ lit)) X.
Proof.
  intros Ha Hb Hc Hd. cbn [app rev].
  rewrite (lex_step _ _ [] (LString SEsc (x5c :: lit))) by reflexivity.
  rewrite (lex_step _ _ [] (LString (SU 4) (x75 :: x5c :: lit))) by reflexivity.
  rewrite (lex_step _ _ [] (LString (SU 3) (hex a :: x75 :: x5c :: lit)))
    by (cbn [lexStep strStep]; rewrite (proj1 (hex_spec a Ha)); reflexivity).
  rewrite (lex_step _ _ [] (LString (SU 2) (hex b :: hex a :: x75 :: x5c :: lit)))
    by (cbn [lexStep strStep]; rewrite (proj1 (hex_spec b Hb)); reflexivity).
  rewrite (lex_step _ _ [] (LString (SU 1) (hex c :: hex b :: hex a :: x75 :: x5c :: lit)))
    by (cbn [lexStep strStep]; rewrite (proj1 (hex_spec c Hc)); reflexivity).
  rewrite (lex_step _ _ [] (LString SIn (hex d :: hex c :: hex b :: hex a :: x75 :: x5c :: lit)))
    by (cbn [lexStep strStep]; rewrite (proj1 (hex_spec d Hd)); reflexivity).
  rewrite !emits_nil. reflexivity.
Qed.

Lemma lex_in_escape c lit X : b2z c < 0x80 -> htmlSafe (b2z c) = false ->
  lex (LString SIn lit) (escapeByte c ++ X)
  = lex (LString SIn (rev (escapeByte c) ++ lit)) X.
Proof.
  intros H Hs.
  destruct (escapeByte_cases c H Hs) as
    [[E Hc]|[[E ->]|[[E ->]|[[E ->]|[[E ->]|[[E ->]|[E Hc]]]]]]]; rewrite E;
    try (cbn [app rev];
         rewrite (lex_step _ _ [] (LString SEsc (x5c :: lit))) by reflexivity;
         erewrite lex_step by reflexivity; rewrite !emits_nil; reflexivity).
  - cbn [app rev].
    rewrite (lex_step _ _ [] (LString SEsc (x5c :: lit))) by reflexivity.
    rewrite (lex_step _ _ [] (LString SIn (c :: x5c :: lit)))
      by (cbn [lexStep]; destruct Hc as [-> | ->]; reflexivity).
    rewrite !emits_nil. reflexivity.
  - change x30 with (hex 0). apply lex_in_u4; Z.div_mod_to_equations; lia.
Qed.

Lemma high_plain c : 0x80 <= b2z c -> plainByte c.
Proof. unfold plainByte. lia. Qed.

Lemma lex_quoted s : forall lit X,
  lex (LString SIn lit) (quoted s ++ X) = lex (LString SIn (rev (quoted s) ++ lit)) X.
Proof.
  induction s as [|s Hs IH] using gostring_rune_ind; intros lit X; [reflexivity|].
  destruct s as [|c rest]; [congruence|].
  destruct (Z.lt_ge_cases (b2z c) RuneSelf) as [Hlt|Hge].
  - rewrite DecodeRune_ascii in IH by assumption. cbn [snd skipn] in IH.
    rewrite quoted_ascii by assumption. rewrite <- app_assoc, rev_app_distr, <- app_assoc.
    destruct (htmlSafe (b2z c)) eqn:Hsafe.
    + apply htmlSafe_plain in Hsafe. cbn [app rev].
      rewrite lex_in_plain by (unfold plainByte; lia). apply IH.
    + rewrite lex_in_escape by (unfold RuneSelf in Hlt; assumption). apply IH.
  - rewrite quoted_multi by (assumption || exact Hge).
    destruct (DecodeRune (c :: rest)) as [r n] eqn:E. cbn [fst snd] in *.
    rewrite <- app_assoc, rev_app_distr, <- app_assoc.
    destruct (DecodeRune_high _ _ _ Hs Hge E) as [[-> ->]|(Hv & Hr & He & Hne)].
    + change ((RuneError =? RuneError) && (1 =? 1)%nat) with true. cbv iota.
      change x66 with (hex 15). change x64 with (hex 13).
      rewrite lex_in_u4 by lia. apply IH.
    + assert (Hc : (r =? RuneError) && (n =? 1)%nat = false).
      { destruct (Z.eqb_spec r RuneError); [|reflexivity].
        destruct (Nat.eqb_spec n 1); [subst; congruence | reflexivity]. }
      rewrite Hc.
      destruct ((r =? 0x2028) || (r =? 0x2029)) eqn:E2.
      * apply orb_true_iff in E2. rewrite !Z.eqb_eq in E2.
        change x32 with (hex 2). change x30 with (hex 0).
        rewrite lex_in_u4; [apply IH | lia | lia | lia|].
        destruct E2 as [-> | ->]; cbn; lia.
      * rewrite <- He. rewrite lex_in_plains; [apply IH|].
        eapply Forall_impl; [|apply EncodeRune_high; assumption].
        intros a Ha. apply high_plain. exact Ha.
Qed.

Lemma lex_string s X :
  lex LBegin (appendString s ++ X) = emits [TString (toValidUTF8 s)] (lex LBegin X).
Proof.
  unfold appendString. fold (quoted s).
  replace (([x22] ++ quoted s ++ [x22]) ++ X) with (x22 :: quoted s ++ x22 :: X)
    by (cbn [app]; rewrite <- app_assoc; reflexivity).
  rewrite (lex_step _ _ [] (LString SIn [])) by reflexivity.
  rewrite emits_nil, lex_quoted.
  rewrite (lex_step _ _ [TString (unquoted (rev (rev (quoted s) ++ [])))] LBegin)
    by reflexivity.
  rewrite app_nil_r, rev_involutive. unfold unquoted. rewrite unquote_quoted. reflexivity.
Qed.

(** *** Every literal the scanner lets through unquotes *)

Lemma strScan_app a : forall st b,
  strScan st (a ++ b)
  = match strScan st a with
    | Some st' => strScan st' b
    | None => None
    end.
Proof.
  induction a as [|c a IH]; intros st b; [reflexivity|].
  cbn [app strScan]. destruct (strStep st (b2z c)); try reflexivity. apply IH.
Qed.

Lemma strScan_plains u : forall X, Forall plainByte u -> strScan SIn (u ++ X) = strScan SIn X.
Proof.
  induction u as [|c u IH]; intros X H; [reflexivity|].
  inversion H as [|? ? (H1 & H2 & H3) Hu]; subst. cbn [app strScan].
  unfold strStep. zb; apply IH; assumption.
Qed.

Lemma DecodeRune_firstn_high s r n : s <> [] -> RuneSelf <= b2z (hd x00 s) ->
  DecodeRune s = (r, n) -> Forall (fun c => 0x80 <= b2z c) (firstn n s).
Proof.
  intros Hs Hh E. destruct (DecodeRune_high _ _ _ Hs Hh E) as [[-> ->]|(Hv & Hr & He & _)].
  - destruct s as [|c rest]; [congruence|]. cbn [firstn hd] in *.
    constructor; [exact Hh | constructor].
  - rewrite <- He. apply EncodeRune_high; assumption.
Qed.

Lemma hexVal_isHex b : isHex b = true -> exists v, hexVal b = Some v /\ 0 <= v < 16.
Proof.
  unfold isHex, hexVal, isDigit. intros Hx; revert Hx. zb; intros Hx; try discriminate Hx; eexists; (split; [reflexivity | lia]).
Qed.

Lemma isHex_hexVal b v : hexVal b = Some v -> isHex b = true.
Proof.
  unfold isHex, hexVal, isDigit. intros Hx; revert Hx. zb; intros Hx; try discriminate Hx; reflexivity.
Qed.

Lemma strScan_hex4 h1 h2 h3 h4 X st :
  strScan (SU 4) (h1 :: h2 :: h3 :: h4 :: X) = Some st ->
  isHex (b2z h1) = true /\ isHex (b2z h2) = true /\ isHex (b2z h3) = true
  /\ isHex (b2z h4) = true /\ strScan SIn X = Some st.
Proof.
  cbn [strScan strStep].
  destruct (isHex (b2z h1)); [|discriminate]. cbn.
  destruct (isHex (b2z h2)); [|discriminate]. cbn.
  destruct (isHex (b2z h3)); [|discriminate]. cbn.
  destruct (isHex (b2z h4)); [|discriminate]. cbn. auto.
Qed.

Lemma strScan_SU_short k s : (length s < k)%nat -> (0 < k)%nat -> strScan (SU k) s <> Some SIn.
Proof.
  revert k. induction s as [|c s IH]; intros k Hl Hk; cbn [strScan]; [discriminate|].
  cbn [strStep]. destruct (isHex (b2z c)); [|discriminate].
  destruct (Nat.leb_spec k 1).
  - cbn [length] in Hl. lia.
  - apply IH; cbn [length] in Hl; lia.
Qed.

Lemma getu4_scanned c e h1 h2 h3 h4 X :
  b2z c = 0x5c -> b2z e = 0x75 ->
  isHex (b2z h1) = true -> isHex (b2z h2) = true -> isHex (b2z h3) = true ->
  isHex (b2z h4) = true ->
  0 <= getu4 (c :: e :: h1 :: h2 :: h3 :: h4 :: X).
Proof.
  intros Hc He H1 H2 H3 H4. unfold getu4. rewrite Hc, He. cbn [Z.eqb Pos.eqb andb].
  destruct (hexVal_isHex _ H1) as [v1 [-> ?]]. destruct (hexVal_isHex _ H2) as [v2 [-> ?]].
  destruct (hexVal_isHex _ H3) as [v3 [-> ?]]. destruct (hexVal_isHex _ H4) as [v4 [-> ?]].
  lia.
Qed.

(** A leading escape of four hex digits, seen from [getu4]. *)
Lemma getu4_nonneg s : 0 <= getu4 s ->
  exists c e h1 h2 h3 h4 X,
    s = c :: e :: h1 :: h2 :: h3 :: h4 :: X /\ b2z c = 0x5c /\ b2z e = 0x75
    /\ isHex (b2z h1) = true /\ isHex (b2z h2) = true
    /\ isHex (b2z h3) = true /\ isHex (b2z h4) = true.
Proof.
  unfold getu4.
  destruct s as [|c [|e [|h1 [|h2 [|h3 [|h4 X]]]]]]; try lia.
  destruct (Z.eqb_spec (b2z c) 0x5c); [|cbn; lia].
  destruct (Z.eqb_spec (b2z e) 0x75); [|cbn; lia]. cbn [andb].
  destruct (hexVal (b2z h1)) eqn:E1; [|lia].
  destruct (hexVal (b2z h2)) eqn:E2; [|lia].
  destruct (hexVal (b2z h3)) eqn:E3; [|lia].
  destruct (hexVal (b2z h4)) eqn:E4; [|lia].
  intros _. exists c, e, h1, h2, h3, h4, X.
  repeat split; eauto using isHex_hexVal.
Qed.

Lemma strScan_u4 c e h1 h2 h3 h4 X :
  b2z c = 0x5c -> b2z e = 0x75 ->
  isHex (b2z h1) = true -> isHex (b2z h2) = true -> isHex (b2z h3) = true ->
  isHex (b2z h4) = true ->
  strScan SIn (c :: e :: h1 :: h2 :: h3 :: h4 :: X) = strScan SIn X.
Proof.
  intros Hc He H1 H2 H3 H4. cbn [strScan strStep]. rewrite Hc, He. cbn.
  rewrite H1. cbn. rewrite H2. cbn. rewrite H3. cbn. rewrite H4. reflexivity.
Qed.

Lemma strScan_esc_u e rest : b2z e = 0x75 ->
  strScan SEsc (e :: rest) = strScan (SU 4) rest.
Proof. intros H. cbn [strScan strStep]. rewrite H. reflexivity. Qed.

Lemma strScan_esc_simple e rest : strScan SEsc (e :: rest) = Some SIn -> b2z e <> 0x75 ->
  strScan SIn rest = Some SIn /\
  (b2z e = 0x62 \/ b2z e = 0x66 \/ b2z e = 0x6e \/ b2z e = 0x72 \/ b2z e = 0x74
   \/ b2z e = 0x5c \/ b2z e = 0x2f \/ b2z e = 0x22).
Proof.
  cbn [strScan strStep]. intros Hs Hu.
  destruct (_ || _) eqn:E.
  - split; [exact Hs|].
    repeat (apply orb_true_iff in E; destruct E as [E|E]);
      apply Z.eqb_eq in E; auto 10.
  - destruct (Z.eqb_spec (b2z e) 0x75); [contradiction | discriminate Hs].
Qed.

Lemma prepend_some p o : (exists t, o = Some t) -> exists t, prepend p o = Some t.
Proof. intros [t ->]. eexists. reflexivity. Qed.

(** A literal the scanner lets through unquotes. *)
Lemma unquote_fuel_scanned fuel : forall s, (length s <= fuel)%nat ->
  strScan SIn s = Some SIn -> exists t, unquote_fuel fuel s = Some t.
Proof.
  induction fuel as [|fuel IH]; intros s Hl Hs.
  - destruct s; [eexists; reflexivity | cbn in Hl; lia].
  - destruct s as [|c rest]; [eexists; reflexivity|].
    cbn [length] in Hl. cbn [unquote_fuel].
    cbn [strScan] in Hs. unfold strStep in Hs at 1.
    destruct (Z.eqb_spec (b2z c) 0x22) as [|Hq]; [discriminate|].
    destruct (Z.eqb_spec (b2z c) 0x5c) as [Hb|Hb].
    + destruct rest as [|e rest']; [discriminate|].
      cbn [length] in Hl.
      assert (IH' : forall X, (length X <= length rest')%nat -> strScan SIn X = Some SIn ->
                               exists t, unquote_fuel fuel X = Some t).
      { intros X HX HsX. apply IH; [lia | assumption]. }
      destruct (Z.eqb_spec (b2z e) 0x75) as [Hu|Hu].
      * rewrite (strScan_esc_u e rest' Hu) in Hs. rewrite Hu. cbn [Z.eqb Pos.eqb orb].
        destruct rest' as [|h1 [|h2 [|h3 [|h4 X]]]];
          try (exfalso; revert Hs; apply strScan_SU_short; cbn [length]; lia).
        apply strScan_hex4 in Hs. destruct Hs as (H1 & H2 & H3 & H4 & HX).
        pose proof (getu4_scanned c e h1 h2 h3 h4 X Hb Hu H1 H2 H3 H4) as Hg.
        destruct (Z.ltb_spec (getu4 (c :: e :: h1 :: h2 :: h3 :: h4 :: X)) 0); [lia|].
        change (skipn 6 (c :: e :: h1 :: h2 :: h3 :: h4 :: X)) with X.
        cbn [length] in IH'.
        destruct (IsSurrogate _).
        -- destruct (negb _) eqn:Hd.
           ++ apply prepend_some, IH'.
              ** rewrite length_skipn. lia.
              ** assert (Hg1 : 0 <= getu4 X).
                 { apply negb_true_iff in Hd. apply Z.eqb_neq in Hd.
                   unfold utf16DecodeRune in Hd. revert Hd. zb; intros; try congruence; lia. }
                 destruct (getu4_nonneg X Hg1) as (c' & e' & k1 & k2 & k3 & k4 & X' & -> & Q).
                 destruct Q as (Q1 & Q2 & Q3 & Q4 & Q5 & Q6).
                 cbn [skipn]. rewrite strScan_u4 in HX by assumption. exact HX.
           ++ apply prepend_some, IH'; [lia | exact HX].
        -- apply prepend_some, IH'; [lia | exact HX].
      * destruct (strScan_esc_simple e rest' Hs Hu) as [Hr He].
        assert (Hrec : exists t, unquote_fuel fuel rest' = Some t) by (apply IH'; [lia | exact Hr]).
        destruct He as [He|[He|[He|[He|[He|[He|[He|He]]]]]]]; rewrite He;
          cbn [Z.eqb Pos.eqb orb]; apply prepend_some; exact Hrec.
    + cbn [orb].
      destruct (Z.ltb_spec (b2z c) 0x20); [discriminate|].
      destruct (Z.ltb_spec (b2z c) RuneSelf).
      * apply prepend_some, IH; [lia | exact Hs].
      * pose proof (DecodeRune_width (c :: rest) ltac:(discriminate)) as Hw.
        pose proof (DecodeRune_firstn_high (c :: rest)) as Hf.
        destruct (DecodeRune (c :: rest)) as [r n] eqn:E. cbn [snd] in Hw.
        specialize (Hf r n ltac:(discriminate) ltac:(assumption) eq_refl).
        apply prepend_some, IH.
        -- rewrite length_skipn. cbn [length] in *. lia.
        -- assert (Hall : strScan SIn (c :: rest) = Some SIn).
           { cbn [strScan]. unfold strStep at 1. zb; exact Hs. }
           rewrite <- (firstn_skipn n (c :: rest)) in Hall.
           rewrite strScan_plains in Hall; [exact Hall|].
           eapply Forall_impl; [|exact Hf]. intros a Ha. apply high_plain. exact Ha.
Qed.

Lemma unquote_scanned s : strScan SIn s = Some SIn -> exists t, unquote s = Some t.
Proof. apply unquote_fuel_scanned. lia. Qed.

Lemma lexStep_inv st c ts st' : lexInv st -> lexStep st c = Some (ts, st') -> lexInv st'.
Proof.
  assert (Hbegin : forall ts0 st0, beginStep c = Some (ts0, st0) -> lexInv st0).
  { intros ts0 st0. unfold beginStep, beginAt.
    repeat match goal with
    | |- context [if ?b then _ else _] => destruct b
    end; intros [= <- <-]; exact I || reflexivity. }
  destruct st as [|ss lit|ns lit|due t]; cbn [lexStep lexInv]; intros Hi.
  - apply Hbegin.
  - destruct (strStep ss (b2z c)) eqn:E; intros [= <- <-]; cbn [lexInv rev]; [|exact I].
    rewrite strScan_app, Hi. cbn [strScan]. rewrite E. reflexivity.
  - destruct (numStep ns (b2z c)) as [[ns'|]|]; [intros [= <- <-]; exact I| |discriminate].
    destruct (beginStep c) as [[ts0 st0]|] eqn:E; [|discriminate].
    intros [= <- <-]. eapply Hbegin. reflexivity.
  - destruct due as [|d due']; [discriminate|].
    destruct (Byte.eqb c d); [|discriminate].
    destruct due'; intros [= <- <-]; exact I.
Qed.

(** The string token of a literal is what the literal unquotes to. *)
Lemma lexStep_string ss lit c ts st' :
  lexInv (LString ss lit) -> lexStep (LString ss lit) c = Some (ts, st') ->
  ts = [] \/ exists t, unquote (rev lit) = Some t /\ ts = [TString t].
Proof.
  cbn [lexInv lexStep]. intros Hi.
  destruct (strStep ss (b2z c)) eqn:E; intros [= <- <-]; [left; reflexivity|].
  right. assert (ss = SIn).
  { destruct ss; [reflexivity | |]; cbn [strStep] in E.
    - repeat match type of E with
      | (if ?b then _ else _) = _ => destruct b
      end; discriminate.
    - destruct (isHex (b2z c)); [destruct (due <=? 1)%nat|]; discriminate. }
  subst ss. destruct (unquote_scanned _ Hi) as [t Ht].
  exists t. split; [exact Ht|]. unfold unquoted. rewrite Ht. reflexivity.
Qed.

(** *** Valid strings are left as they are *)

Lemma valid_fuel_irrel f1 : forall f2 s, (length s <= f1)%nat -> (length s <= f2)%nat ->
  valid_fuel f1 s = valid_fuel f2 s.
Proof.
  induction f1 as [|f1 IH]; intros f2 s H1 H2.
  - destruct s; [destruct f2; reflexivity | cbn in H1; lia].
  - destruct s as [|c s']; [destruct f2; reflexivity|].
    destruct f2 as [|f2]; [cbn in H2; lia|].
    cbn [valid_fuel].
    pose proof (DecodeRune_width (c :: s') ltac:(discriminate)) as Hw.
    destruct (DecodeRune (c :: s')) as [r n]. cbn [snd] in Hw.
    destruct ((r =? RuneError) && (n =? 1)%nat); [reflexivity|].
    apply IH; rewrite length_skipn; cbn [length] in *; lia.
Qed.

Lemma ValidString_step s : s <> [] ->
  ValidString s
  = (let (r, n) := DecodeRune s in
     if (r =? RuneError) && (n =? 1)%nat then false else ValidString (skipn n s)).
Proof.
  intros Hs. destruct s as [|c s']; [congruence|].
  unfold ValidString at 1. cbn [length valid_fuel].
  pose proof (DecodeRune_width (c :: s') Hs) as Hw.
  destruct (DecodeRune (c :: s')) as [r n]. cbn [snd] in Hw.
  destruct ((r =? RuneError) && (n =? 1)%nat); [reflexivity|].
  apply valid_fuel_irrel; rewrite length_skipn; cbn [length] in *; lia.
Qed.

Lemma toValidUTF8_valid s : ValidString s = true -> toValidUTF8 s = s.
Proof.
  induction s as [|s Hs IH] using gostring_rune_ind; [reflexivity|].
  intros Hv. rewrite (ValidString_step s Hs) in Hv.
  rewrite (toValidUTF8_step s Hs).
  pose proof (DecodeRune_width s Hs) as Hw.
  destruct (DecodeRune s) as [r n] eqn:E. cbn [fst snd] in *.
  destruct ((r =? RuneError) && (n =? 1)%nat) eqn:Hc; [discriminate|].
  rewrite (IH Hv).
  destruct (DecodeRune_sound _ _ _ E) as [[-> Hn]|[_ He]].
  - assert (n = 1%nat) by lia. subst n. discriminate Hc.
  - rewrite He. apply firstn_skipn.
Qed.

(** On a valid string the truncation cuts between characters: the result
    is a prefix of the bytes of the string. *)
Lemma truncateByWeight_prefix (Han : Unicode.RangeTable) s m :
  ValidString s = true -> exists rest, s = truncateByWeight Han s m ++ rest.
Proof.
  intros Hv. destruct (keptRunes_prefix Han m (runes s) 0) as [d [Hd _]].
  exists (encode_runes d). unfold truncateByWeight. rewrite truncateLoop_kept.
  cbn [app]. rewrite <- encode_runes_app, <- Hd.
  symmetry. apply (toValidUTF8_valid s Hv).
Qed.

(** *** The tokens of a marshalled list *)

Lemma lex_space c X : isSpace (b2z c) = true -> lex LBegin (c :: X) = lex LBegin X.
Proof.
  intros H. rewrite <- (emits_nil (lex LBegin X)). apply lex_step.
  cbn [lexStep]. unfold beginStep, beginAt. rewrite H. reflexivity.
Qed.

Lemma lex_key X :
  lex LBegin ([x22] ++ bs "text" ++ [x22] ++ X)
  = emits [TString (bs "text")] (lex LBegin X).
Proof.
  change ([x22] ++ bs "text" ++ [x22] ++ X) with (appendString (bs "text") ++ X).
  rewrite lex_string. reflexivity.
Qed.

Lemma lex_marshalElem t X :
  lex LBegin (marshalElem t ++ X)
  = emits (objTokens (toValidUTF8 (Text t))) (lex LBegin X).
Proof.
  unfold marshalElem. rewrite <- !app_assoc.
  change ([x0a] ++ bs "  {" ++ [x0a] ++ bs "    " ++ [x22] ++ bs "text" ++ [x22]
          ++ bs ": " ++ appendString (Text t) ++ [x0a] ++ bs "  }" ++ X)
    with (x0a :: x20 :: x20 :: x7b :: x0a :: x20 :: x20 :: x20 :: x20 ::
          ([x22] ++ bs "text" ++ [x22] ++ (x3a :: x20 :: appendString (Text t)
           ++ x0a :: x20 :: x20 :: x7d :: X))).
  rewrite !lex_space by reflexivity.
  change (lex LBegin (x7b :: ?Y)) with (emits [TBeginObject] (lex LBegin Y)).
  rewrite !lex_space by reflexivity.
  rewrite lex_key.
  change (lex LBegin (x3a :: ?Y)) with (emits [TColon] (lex LBegin Y)).
  rewrite !lex_space by reflexivity.
  rewrite lex_string.
  rewrite !lex_space by reflexivity.
  change (lex LBegin (x7d :: X)) with (emits [TEndObject] (lex LBegin X)).
  rewrite !emits_app. reflexivity.
Qed.

Lemma lex_marshalElems l : forall X,
  lex LBegin (marshalElems l ++ X) = emits (elemsTokens l) (lex LBegin X).
Proof.
  induction l as [|t l IH]; intros X; [symmetry; apply emits_nil|].
  destruct l as [|t' l'].
  - cbn [marshalElems elemsTokens]. apply lex_marshalElem.
  - change (marshalElems (t :: t' :: l')) with (marshalElem t ++ bs "," ++ marshalElems (t' :: l')).
    change (elemsTokens (t :: t' :: l'))
      with (objTokens (toValidUTF8 (Text t)) ++ TComma :: elemsTokens (t' :: l')).
    rewrite <- !app_assoc. rewrite lex_marshalElem.
    change (bs "," ++ marshalElems (t' :: l') ++ X) with (x2c :: (marshalElems (t' :: l') ++ X)).
    change (lex LBegin (x2c :: ?Y)) with (emits [TComma] (lex LBegin Y)).
    rewrite IH. rewrite !emits_app. reflexivity.
Qed.

Lemma lex_MarshalIndent_cons t l :
  lex LBegin (MarshalIndent (Some (t :: l)))
  = Some (TBeginArray :: elemsTokens (t :: l) ++ [TEndArray]).
Proof.
  change (MarshalIndent (Some (t :: l)))
    with (x5b :: (marshalElems (t :: l) ++ [x0a; x5d])).
  change (lex LBegin (x5b :: ?Y)) with (emits [TBeginArray] (lex LBegin Y)).
  rewrite lex_marshalElems. reflexivity.
Qed.

(** *** Parsing the tokens *)

Lemma run_object m acc text ts :
  m = MValue \/ m = MArrFirst ->
  run m [FArr acc] (objTokens text ++ ts)
  = run MArrNext [FArr (todoObject text :: acc)] ts.
Proof. intros [-> | ->]; reflexivity. Qed.

Lemma run_elems l : forall m acc ts,
  l <> [] -> m = MValue \/ m = MArrFirst ->
  run m [FArr acc] (elemsTokens l ++ TEndArray :: ts)
  = run (MDone (Array (rev acc ++ map (fun t => todoObject (toValidUTF8 (Text t))) l))) [] ts.
Proof.
  induction l as [|t l IH]; intros m acc ts Hl Hm; [congruence|].
  destruct l as [|t' l'].
  - cbn [elemsTokens map]. rewrite run_object by assumption.
    reflexivity.
  - change (elemsTokens (t :: t' :: l'))
      with (objTokens (toValidUTF8 (Text t)) ++ TComma :: elemsTokens (t' :: l')).
    rewrite <- app_assoc. rewrite run_object by assumption.
    cbn [app]. change (run MArrNext ?st (TComma :: ?Y)) with (run MValue st Y).
    rewrite IH by (auto; discriminate).
    cbn [rev map]. rewrite <- app_assoc. reflexivity.
Qed.

Lemma parse_MarshalIndent ts :
  parse (MarshalIndent ts)
  = Some (match ts with
          | None => Null
          | Some l => Array (map (fun t => todoObject (toValidUTF8 (Text t))) l)
          end).
Proof.
  destruct ts as [[|t l]|]; [reflexivity| |reflexivity].
  unfold parse. rewrite lex_MarshalIndent_cons.
  change (run MValue [] (TBeginArray :: ?Y)) with (run MArrFirst [FArr []] Y).
  rewrite run_elems by (auto; discriminate). reflexivity.
Qed.

(** *** Decoding *)

Lemma decodeTodo_object text : decodeTodo (todoObject text) = (mkTodo text, false).
Proof. reflexivity. Qed.

Lemma decodeSlice_objects texts :
  decodeSlice (Array (map todoObject texts)) = (Some (map mkTodo texts), false).
Proof.
  unfold decodeSlice. f_equal.
  - f_equal. rewrite map_map. apply map_ext. intros a. reflexivity.
  - induction texts as [|a l IH]; [reflexivity|]. cbn [map existsb]. rewrite IH. reflexivity.
Qed.

Lemma Unmarshal_objects data texts :
  parse data = Some (Array (map todoObject texts)) ->
  Unmarshal data = (Some (map mkTodo texts), None).
Proof. intros H. unfold Unmarshal. rewrite H, decodeSlice_objects. reflexivity. Qed.

Lemma Unmarshal_invalid data : Valid data = false -> Unmarshal data = (None, Some SyntaxError).
Proof. unfold Valid, Unmarshal. destruct (parse data); [discriminate | reflexivity]. Qed.

Lemma Unmarshal_MarshalIndent ts :
  Unmarshal (MarshalIndent ts) = (coerceTodos ts, None).
Proof.
  unfold Unmarshal. rewrite parse_MarshalIndent.
  destruct ts as [l|]; [|reflexivity].
  rewrite <- (map_map (fun t => toValidUTF8 (Text t)) todoObject).
  rewrite decodeSlice_objects. cbn [coerceTodos option_map]. rewrite map_map. reflexivity.
Qed.

Lemma coerceTodos_valid ts :
  Forall (fun t => ValidString (Text t) = true) (elems ts) -> coerceTodos ts = ts.
Proof.
  destruct ts as [l|]; [|reflexivity]. cbn [elems coerceTodos option_map]. intros H. f_equal.
  induction H as [|t l Ht _ IH]; [reflexivity|]. cbn [map]. rewrite IH.
  rewrite toValidUTF8_valid by assumption. destruct t; reflexivity.
Qed.

Example parse_samples :
  Json.parse (bs "[1, -2.5e+3, true, null, {}, [ ]]")
  = Some (Json.Array [Json.Number (bs "1"); Json.Number (bs "-2.5e+3"); Json.Bool true;
                      Json.Null; Json.Object []; Json.Array []])
  /\ Json.Valid (bs "[01]") = false
  /\ Json.Valid (bs "[1,]") = false
  /\ Json.Valid (bs "nul") = false
  /\ Json.Valid (bs "") = false
  /\ Json.Valid (bs "{} x") = false
  /\ Json.Valid (bs " 12 ") = true.
Proof. repeat split. Qed.

(** Keys are matched without regard to case, the last match wins, other
    members are skipped, and a value of the wrong type is an error that
    leaves what was decoded. *)
Example Unmarshal_samples :
  Json.Unmarshal sampleData
  = (Some [mkTodo (bs "buy milk"); mkTodo (bs "call" ++ [x0a; xe4; xb8; xad])], None)
  /\ Json.Unmarshal (bs "null") = (None, None)
  /\ Json.Unmarshal (bs "[]") = (Some [], None)
  /\ Json.Unmarshal (bs "{}") = (None, Some Json.UnmarshalTypeError)
  /\ Json.Unmarshal ([x5b; x7b; x22] ++ bs "TEXT" ++ [x22; x3a; x22] ++ bs "a"
                     ++ [x22; x2c; x22] ++ bs "n" ++ [x22] ++ bs ":[1,{}]},null,5]")
     = (Some [mkTodo (bs "a"); mkTodo []; mkTodo []], Some Json.UnmarshalTypeError).
Proof. repeat split. Qed.

(** ** Equality of strings *)

Lemma gostring_eq_spec a : forall b, gostring_eq a b = true <-> a = b.
Proof.
  induction a as [|x a IH]; intros [|y b]; cbn [gostring_eq]; try (split; (discriminate || reflexivity)).
  rewrite andb_true_iff, IH. split.
  - intros [H ->]. apply Byte.byte_dec_bl in H. subst. reflexivity.
  - intros [= -> ->]. split; [apply Byte.byte_dec_lb|]; reflexivity.
Qed.

Lemma gostring_eq_refl a : gostring_eq a a = true.
Proof. apply gostring_eq_spec. reflexivity. Qed.

(** ** The store *)

Lemma Main_loadTodos_present w data : dataFile w = Os.Present data true ->
  fst (Main.loadTodos w)
  = match Json.Unmarshal data with
    | (_, Some _) => Some []
    | (ts, None) => ts
    end.
Proof.
  intros H. unfold Main.loadTodos. rewrite H. cbn.
  destruct (Json.Unmarshal data) as [ts [e|]]; reflexivity.
Qed.

Lemma Weighted_loadTodos_present w data : dataFile w = Os.Present data true ->
  Weighted.loadTodos w = fst (Json.Unmarshal data).
Proof. intros H. unfold Weighted.loadTodos. rewrite H. reflexivity. Qed.

(** Claim C3.  For every state of the data file, in each of the three
    builds: [loadTodos] returns an empty sequence when the file is absent,
    when it cannot be read and when its content is not valid JSON; when the
    content is a JSON array of objects with one member [text] holding a
    string, it returns the sequence of those texts.  The function returns a
    slice and nothing else: no error reaches the caller. *)
Theorem loadTodos_contract (w : World) :
  (dataFile w = Os.Absent ->
     elems (fst (Main.loadTodos w)) = [] /\ elems (Weighted.loadTodos w) = []
     /\ elems (Simple.loadTodos w) = []) /\
  (forall data, dataFile w = Os.Present data false ->
     elems (fst (Main.loadTodos w)) = [] /\ elems (Weighted.loadTodos w) = []
     /\ elems (Simple.loadTodos w) = []) /\
  (forall data, dataFile w = Os.Present data true -> Json.Valid data = false ->
     elems (fst (Main.loadTodos w)) = [] /\ elems (Weighted.loadTodos w) = []
     /\ elems (Simple.loadTodos w) = []) /\
  (forall data texts, dataFile w = Os.Present data true ->
     Json.parse data = Some (Json.Array (map todoObject texts)) ->
     elems (fst (Main.loadTodos w)) = map mkTodo texts
     /\ elems (Weighted.loadTodos w) = map mkTodo texts
     /\ elems (Simple.loadTodos w) = map mkTodo texts).
Proof.
  unfold Simple.loadTodos. repeat split.
  - unfold Main.loadTodos. rewrite H. reflexivity.
  - unfold Weighted.loadTodos. rewrite H. reflexivity.
  - unfold Weighted.loadTodos. rewrite H. reflexivity.
  - unfold Main.loadTodos. rewrite H. reflexivity.
  - unfold Weighted.loadTodos. rewrite H. reflexivity.
  - unfold Weighted.loadTodos. rewrite H. reflexivity.
  - rewrite (Main_loadTodos_present _ _ H), (Unmarshal_invalid _ H0). reflexivity.
  - rewrite (Weighted_loadTodos_present _ _ H), (Unmarshal_invalid _ H0). reflexivity.
  - rewrite (Weighted_loadTodos_present _ _ H), (Unmarshal_invalid _ H0). reflexivity.
  - rewrite (Main_loadTodos_present _ _ H), (Unmarshal_objects _ _ H0). reflexivity.
  - rewrite (Weighted_loadTodos_present _ _ H), (Unmarshal_objects _ _ H0). reflexivity.
  - rewrite (Weighted_loadTodos_present _ _ H), (Unmarshal_objects _ _ H0). reflexivity.
Qed.

Lemma loadTodos_contract_witness :
  (elems (fst (Main.loadTodos (world0 Os.Absent))) = [] /\
   elems (Weighted.loadTodos (world0 Os.Absent)) = [] /\
   elems (Simple.loadTodos (world0 Os.Absent)) = []) /\
  (elems (fst (Main.loadTodos (world0 (Os.Present (bs "[]") false)))) = [] /\
   elems (Weighted.loadTodos (world0 (Os.Present (bs "[]") false))) = [] /\
   elems (Simple.loadTodos (world0 (Os.Present (bs "[]") false))) = []) /\
  (elems (fst (Main.loadTodos (world0 (Os.Present (bs "[{]") true)))) = [] /\
   elems (Weighted.loadTodos (world0 (Os.Present (bs "[{]") true))) = [] /\
   elems (Simple.loadTodos (world0 (Os.Present (bs "[{]") true))) = []) /\
  (elems (fst (Main.loadTodos (world0 (Os.Present sampleData true))))
     = map mkTodo [bs "buy milk"; bs "call" ++ [x0a; xe4; xb8; xad]] /\
   elems (Weighted.loadTodos (world0 (Os.Present sampleData true)))
     = map mkTodo [bs "buy milk"; bs "call" ++ [x0a; xe4; xb8; xad]] /\
   elems (Simple.loadTodos (world0 (Os.Present sampleData true)))
     = map mkTodo [bs "buy milk"; bs "call" ++ [x0a; xe4; xb8; xad]]).
Proof.
  split; [|split; [|split]].
  - apply (proj1 (loadTodos_contract (world0 Os.Absent))). reflexivity.
  - apply (proj1 (proj2 (loadTodos_contract (world0 (Os.Present (bs "[]") false)))) (bs "[]")).
    reflexivity.
  - apply (proj1 (proj2 (proj2 (loadTodos_contract (world0 (Os.Present (bs "[{]") true)))))
             (bs "[{]")); reflexivity.
  - apply (proj2 (proj2 (proj2 (loadTodos_contract (world0 (Os.Present sampleData true)))))
             sampleData [bs "buy milk"; bs "call" ++ [x0a; xe4; xb8; xad]]);
      [reflexivity | vm_compute; reflexivity].
Defined.

Lemma saved_file w ts : dataWritable w = true -> readBackOk w = true ->
  dataFile (Main.saveTodos ts w) = Os.Present (Json.MarshalIndent ts) true
  /\ dataFile (Weighted.saveTodos ts w) = Os.Present (Json.MarshalIndent ts) true.
Proof.
  intros Hw Hr. unfold Main.saveTodos, Weighted.saveTodos, Os.WriteFile. rewrite Hw.
  unfold readBackOk in Hr.
  destruct (dataFile w) as [|d [|]] eqn:E; cbn; auto. discriminate Hr.
Qed.

Lemma save_load_coerce w ts : dataWritable w = true -> readBackOk w = true ->
  fst (Main.loadTodos (Main.saveTodos ts w)) = coerceTodos ts /\
  Weighted.loadTodos (Weighted.saveTodos ts w) = coerceTodos ts.
Proof.
  intros Hw Hr. destruct (saved_file w ts Hw Hr) as [H1 H2]. split.
  - rewrite (Main_loadTodos_present _ _ H1), Unmarshal_MarshalIndent. reflexivity.
  - rewrite (Weighted_loadTodos_present _ _ H2), Unmarshal_MarshalIndent. reflexivity.
Qed.

(** The bytes of U+FFFD, which is what an invalid byte becomes. *)
Lemma toValidUTF8_invalid s : s <> [] -> DecodeRune s = (RuneError, 1%nat) ->
  toValidUTF8 s = [xef; xbf; xbd] ++ toValidUTF8 (skipn 1 s).
Proof. intros Hs E. rewrite (toValidUTF8_step s Hs), E. reflexivity. Qed.

(** A well-formed sequence at the head of a string is kept as it is. *)
Lemma toValidUTF8_wellformed s r n : s <> [] -> DecodeRune s = (r, n) ->
  (r, n) <> (RuneError, 1%nat) ->
  toValidUTF8 s = firstn n s ++ toValidUTF8 (skipn n s).
Proof.
  intros Hs E Hne. rewrite (toValidUTF8_step s Hs), E. cbn [fst snd]. f_equal.
  destruct (DecodeRune_sound _ _ _ E) as [[-> Hn]|[_ He]]; [|exact He].
  pose proof (DecodeRune_width s Hs) as Hw. rewrite E in Hw. cbn [snd] in Hw.
  exfalso. apply Hne. f_equal. lia.
Qed.

(** Claim C4, amended.  When the write of [saveTodos] succeeds and the
    file can be read back, [loadTodos] after [saveTodos L] returns, in each
    of the three builds, the list [L] with each text made valid UTF-8: as
    many entries, in the same order, where a text is read from its start,
    each byte that begins no well-formed sequence is replaced by U+FFFD and
    each well-formed sequence is kept.  For a list [L] whose texts are
    valid UTF-8 that is [L] itself: its texts in the same order. *)
Theorem save_load_roundtrip (w : World) (L : TodoSlice) :
  dataWritable w = true ->
  readBackOk w = true ->
  (textsValid L ->
   elems (fst (Main.loadTodos (Main.saveTodos L w))) = elems L /\
   elems (Weighted.loadTodos (Weighted.saveTodos L w)) = elems L /\
   elems (Simple.loadTodos (Simple.saveTodos L w)) = elems L) /\
  (elems (fst (Main.loadTodos (Main.saveTodos L w)))
     = map (fun t => mkTodo (toValidUTF8 (Text t))) (elems L) /\
   elems (Weighted.loadTodos (Weighted.saveTodos L w))
     = map (fun t => mkTodo (toValidUTF8 (Text t))) (elems L) /\
   elems (Simple.loadTodos (Simple.saveTodos L w))
     = map (fun t => mkTodo (toValidUTF8 (Text t))) (elems L)) /\
  (forall s, s <> [] ->
     (DecodeRune s = (RuneError, 1%nat) ->
      toValidUTF8 s = [xef; xbf; xbd] ++ toValidUTF8 (skipn 1 s)) /\
     (forall r n, DecodeRune s = (r, n) -> (r, n) <> (RuneError, 1%nat) ->
      toValidUTF8 s = firstn n s ++ toValidUTF8 (skipn n s))) /\
  toValidUTF8 [] = [].
Proof.
  intros Hw Hr. unfold Simple.loadTodos, Simple.saveTodos.
  destruct (save_load_coerce w L Hw Hr) as [-> ->].
  assert (Hc : elems (coerceTodos L) = map (fun t => mkTodo (toValidUTF8 (Text t))) (elems L)).
  { destruct L as [l|]; reflexivity. }
  split; [intros Hv; rewrite (coerceTodos_valid L Hv); auto|].
  split; [rewrite Hc; auto|].
  split; [|reflexivity].
  intros s Hs. split.
  - now apply toValidUTF8_invalid.
  - intros r n. now apply toValidUTF8_wellformed.
Qed.

Lemma save_load_roundtrip_witness :
  (elems (fst (Main.loadTodos (Main.saveTodos sampleList (world0 Os.Absent))))
   = elems sampleList /\
   elems (Weighted.loadTodos (Weighted.saveTodos sampleList (world0 Os.Absent)))
   = elems sampleList /\
   elems (Simple.loadTodos (Simple.saveTodos sampleList (world0 Os.Absent)))
   = elems sampleList) /\
  elems (fst (Main.loadTodos (Main.saveTodos (Some [mkTodo [x61; xff; x62]])
                                (world0 Os.Absent))))
  = [mkTodo [x61; xef; xbf; xbd; x62]].
Proof.
  split.
  - apply (proj1 (save_load_roundtrip (world0 Os.Absent) sampleList eq_refl eq_refl)).
    unfold textsValid. repeat constructor.
  - apply (proj1 (proj1 (proj2 (save_load_roundtrip (world0 Os.Absent)
                                  (Some [mkTodo [x61; xff; x62]]) eq_refl eq_refl)))).
Defined.

Lemma save_load_counterexample :
  ~ (elems (fst (Main.loadTodos (Main.saveTodos (Some [mkTodo [xff]]) (world0 Os.Absent))))
     = elems (Some [mkTodo [xff]])) /\
  ~ (elems (Weighted.loadTodos (Weighted.saveTodos (Some [mkTodo [xff]]) (world0 Os.Absent)))
     = elems (Some [mkTodo [xff]])).
Proof. split; vm_compute; discriminate. Qed.

(** ** The single-instance coordinator *)

(** Claim C1, amended.  When the dial succeeds the process is secondary:
    it ends without starting a listener and without any write to the data
    file; when its write of the line [show] succeeds, that line is what it
    sent, the hand-off is logged and the exit code is 0; when the write
    fails, nothing is sent and the process ends by [log.Fatalf], which logs
    the failed check, with exit code 1. *)
Theorem secondary_hands_off (Han : Unicode.RangeTable) (w : World) :
  listening w = true ->
  exists w',
    Main.main Han w = Main.Exited (if connWriteOk w then 0 else 1) w' /\
    dataFile w' = dataFile w /\
    spawned w' = spawned w /\
    delivered w' = delivered w ++ (if connWriteOk w then [showLine] else []) /\
    log w' = log w ++ [if connWriteOk w then LogAnotherInstance
                       else LogSingleInstanceFailed].
Proof.
  intros Hl. unfold Main.main, Main.runSingleInstanceCheck. rewrite Hl.
  destruct (connWriteOk w); eexists; (split; [reflexivity|]); cbn;
    rewrite ?app_nil_r; auto.
Qed.

Lemma secondary_hands_off_witness :
  exists w',
    Main.main Unicode.Han (secondaryWorld true) = Main.Exited 0 w' /\
    dataFile w' = Os.Present (bs "[]") true /\
    spawned w' = [] /\
    delivered w' = [showLine] /\
    log w' = [LogAnotherInstance].
Proof.
  exact (secondary_hands_off Unicode.Han (secondaryWorld true) eq_refl).
Defined.

Lemma secondary_counterexample :
  listening (secondaryWorld false) = true /\
  ~ (exists w', Main.main Unicode.Han (secondaryWorld false) = Main.Exited 0 w').
Proof.
  split; [reflexivity|]. intros [w' H]. vm_compute in H. discriminate H.
Qed.

Lemma ReadString_line line rest : ~ In x0a line ->
  ReadString x0a (line ++ x0a :: rest) = (line ++ [x0a], None).
Proof.
  induction line as [|c line IH]; intros H; [reflexivity|].
  cbn [app ReadString].
  destruct (Byte.eqb c x0a) eqn:E.
  - apply Byte.byte_dec_bl in E. subst. exfalso. apply H. left. reflexivity.
  - rewrite IH; [reflexivity|]. intros Hin. apply H. right. exact Hin.
Qed.

(** Claim C2, amended.  For every accepted connection, the handler queues
    the activation exactly when it read a line ended by a new line and that
    line, with the white space around it trimmed, is [show]; otherwise the
    UI queue is left as it was.  In every case it writes one log line: for
    a line that was read, the trimmed message; for a connection that ends
    before a new line, the failure of the read, and then nothing is
    queued.  It leaves the data file alone. *)
Theorem handleSocketConnection_activates (conn : Conn) (w : World) :
  let w' := Main.handleSocketConnection conn w in
  (activated w w' <->
     exists line, ReadString x0a (incoming conn) = (line, None)
                  /\ Strings.TrimSpace line = bs "show") /\
  (~ activated w w' -> uiQueue w' = uiQueue w) /\
  (exists entry, log w' = log w ++ [entry]) /\
  (forall line, ReadString x0a (incoming conn) = (line, None) ->
     log w' = log w ++ [LogReceivedSignal (Strings.TrimSpace line)]) /\
  (forall part e, ReadString x0a (incoming conn) = (part, Some e) ->
     log w' = log w ++ [LogSocketReadFailed] /\ uiQueue w' = uiQueue w) /\
  dataFile w' = dataFile w.
Proof.
  cbv zeta. unfold Main.handleSocketConnection, activated.
  destruct (ReadString x0a (incoming conn)) as [line [e|]] eqn:E.
  - cbn. split; [split|].
    + intros H. exfalso. apply (f_equal (@length _)) in H.
      rewrite length_app in H. cbn in H. lia.
    + intros [l [H _]]. discriminate H.
    + split; [reflexivity|]. split; [eexists; reflexivity|].
      split; [intros l H; discriminate H|]. split; [|reflexivity].
      intros part e' _. split; reflexivity.
  - destruct (gostring_eq (Strings.TrimSpace line) (bs "show")) eqn:G.
    + apply gostring_eq_spec in G. cbn. split; [split|].
      * intros _. exists line. split; [reflexivity | exact G].
      * reflexivity.
      * split; [intros H; exfalso; apply H; reflexivity|].
        split; [eexists; reflexivity|].
        split; [intros l [= <-]; reflexivity|]. split; [|reflexivity].
        intros part e' H. discriminate H.
    + cbn. split; [split|].
      * intros H. exfalso. apply (f_equal (@length _)) in H.
        rewrite length_app in H. cbn in H. lia.
      * intros [l [[= <-] H]]. rewrite H, gostring_eq_refl in G. discriminate G.
      * split; [reflexivity|]. split; [eexists; reflexivity|].
        split; [intros l [= <-]; reflexivity|]. split; [|reflexivity].
        intros part e' H. discriminate H.
Qed.

Lemma handleSocketConnection_activates_witness :
  activated (secondaryWorld true)
            (Main.handleSocketConnection (mkConn showLine) (secondaryWorld true))
  /\ log (Main.handleSocketConnection (mkConn (bs "show")) (secondaryWorld true))
     = log (secondaryWorld true) ++ [LogSocketReadFailed]
  /\ uiQueue (Main.handleSocketConnection (mkConn (bs "show")) (secondaryWorld true))
     = uiQueue (secondaryWorld true).
Proof.
  split.
  - apply (proj2 (proj1 (handleSocketConnection_activates (mkConn showLine)
                           (secondaryWorld true)))).
    exists showLine. split; reflexivity.
  - apply (proj1 (proj2 (proj2 (proj2 (proj2
             (handleSocketConnection_activates (mkConn (bs "show")) (secondaryWorld true))))))
             (bs "show") EOF).
    reflexivity.
Defined.

Lemma handleSocketConnection_counterexample :
  ReadString x0a (incoming (mkConn paddedLine)) = ([x20] ++ bs "show" ++ [x0d] ++ [x0a], None) /\
  [x20] ++ bs "show" ++ [x0d] <> bs "show" /\
  activated (secondaryWorld true)
            (Main.handleSocketConnection (mkConn paddedLine) (secondaryWorld true)).
Proof. split; [reflexivity|]. split; [discriminate | reflexivity]. Qed.

(** ** Deleting and adding *)

Lemma deleteLoop_spec itemText : forall rest done,
  Forall (fun x => Text x <> itemText) done ->
  removesFirst itemText (done ++ rest) (deleteLoop itemText (done ++ rest) (length done) rest).
Proof.
  induction rest as [|item rest IH]; intros done Hd; cbn [deleteLoop].
  - right. rewrite app_nil_r. split; [assumption | reflexivity].
  - destruct (gostring_eq (Text item) itemText) eqn:E.
    + apply gostring_eq_spec in E. left. exists done, item, rest.
      repeat split; try assumption.
      rewrite firstn_app, Nat.sub_diag, firstn_all, firstn_O, app_nil_r.
      replace (S (length done)) with (length (done ++ [item])) by (rewrite length_app; cbn; lia).
      replace (done ++ item :: rest) with ((done ++ [item]) ++ rest) by (rewrite <- app_assoc; reflexivity).
      rewrite skipn_length_app. reflexivity.
    + replace (done ++ item :: rest) with ((done ++ [item]) ++ rest) by (rewrite <- app_assoc; reflexivity).
      replace (S (length done)) with (length (done ++ [item])) by (rewrite length_app; cbn; lia).
      apply IH. apply Forall_app. split; [assumption|]. constructor; [|constructor].
      intros H. rewrite H, gostring_eq_refl in E. discriminate E.
Qed.

Lemma deleteByText_spec itemText ts :
  removesFirst itemText (elems ts) (elems (deleteByText itemText ts)).
Proof.
  destruct ts as [l|]; cbn [deleteByText elems].
  - apply (deleteLoop_spec itemText l []). constructor.
  - right. split; [constructor | reflexivity].
Qed.

(** Claim C5.  For every to-do list and every text, the delete action of a
    menu row removes the first entry with that text and nothing else, the
    other entries staying in their order, in each of the three builds; from
    the list a, b, a the text a leaves b, a. *)
Theorem delete_removes_first (Han : Unicode.RangeTable) (itemText : gostring) (a : App) :
  removesFirst itemText (elems (todos a))
               (elems (todos (Main.runAction Han (ActDelete itemText) a))) /\
  removesFirst itemText (elems (todos a))
               (elems (todos (Weighted.deleteTodo Han itemText a))) /\
  removesFirst itemText (elems (todos a))
               (elems (todos (Simple.deleteTodo itemText a))) /\
  deleteByText (bs "a") (Some [mkTodo (bs "a"); mkTodo (bs "b"); mkTodo (bs "a")])
  = Some [mkTodo (bs "b"); mkTodo (bs "a")].
Proof.
  repeat split; try apply deleteByText_spec.
Qed.

(** Claim C10.  For every list and every submitted text that is not empty
    and within the input budget (the weight [maxWeight] in the weighted
    builds, [maxLen] runes in the simple build), [OnSubmitted] leaves the
    list with one more entry, the submitted text, at its end; the entries
    before it are unchanged, whether or not one of them has the same text. *)
Theorem OnSubmitted_appends (Han : Unicode.RangeTable) (text : gostring) (a : App) :
  text <> [] ->
  (getWeight Han text <= maxWeight ->
     elems (todos (Main.OnSubmitted Han text a)) = elems (todos a) ++ [mkTodo text] /\
     elems (todos (Weighted.OnSubmitted Han text a)) = elems (todos a) ++ [mkTodo text]) /\
  (RuneCountInString text <= Simple.maxLen ->
     elems (todos (Simple.OnSubmitted text a)) = elems (todos a) ++ [mkTodo text]).
Proof.
  intros Ht. destruct text as [|c text]; [congruence|]. split.
  - intros _. split; reflexivity.
  - intros Hn. unfold Simple.OnSubmitted.
    destruct (Z.gtb_spec (RuneCountInString (c :: text)) Simple.maxLen); [lia | reflexivity].
Qed.

Lemma OnSubmitted_appends_witness :
  (elems (todos (Main.OnSubmitted Unicode.Han (bs "a") sampleApp))
     = [mkTodo (bs "a"); mkTodo (bs "b"); mkTodo (bs "a")] /\
   elems (todos (Weighted.OnSubmitted Unicode.Han (bs "a") sampleApp))
     = [mkTodo (bs "a"); mkTodo (bs "b"); mkTodo (bs "a")]) /\
  elems (todos (Simple.OnSubmitted (bs "a") sampleApp))
     = [mkTodo (bs "a"); mkTodo (bs "b"); mkTodo (bs "a")].
Proof.
  split.
  - apply (proj1 (OnSubmitted_appends Unicode.Han (bs "a") sampleApp ltac:(discriminate))).
    vm_compute. discriminate.
  - apply (proj2 (OnSubmitted_appends Unicode.Han (bs "a") sampleApp ltac:(discriminate))).
    vm_compute. discriminate.
Defined.

(** The scenario of the specification: an empty store, then [buy milk]. *)
Example scenario_buy_milk :
  let a0 := Main.startPrimary Unicode.Han (world0 Os.Absent) in
  let a1 := Main.OnSubmitted Unicode.Han (bs "buy milk") a0 in
  todos a0 = Some []
  /\ menu a0 = [Item addLabel (Some ActShowWindow); Separator;
                Item emptyLabel None;
                Separator; Item quitLabel (Some ActQuit)]
  /\ todos a1 = Some [mkTodo (bs "buy milk")]
  /\ dataFile (world a1)
     = Os.Present ([x5b; x0a] ++ bs "  {" ++ [x0a] ++ bs "    " ++ [x22] ++ bs "text"
                   ++ [x22] ++ bs ": " ++ [x22] ++ bs "buy milk" ++ [x22; x0a]
                   ++ bs "  }" ++ [x0a; x5d]) true
  /\ menu a1 = [Item addLabel (Some ActShowWindow); Separator;
                Item (rowPrefix ++ bs "buy milk") (Some (ActDelete (bs "buy milk")));
                Separator; Item quitLabel (Some ActQuit)]
  /\ entryText a1 = [] /\ successShown a1 = true.
Proof. repeat split. Qed.


(** * Further properties of the code *)

(** ** The weight of a text *)

Lemma runes_app_valid a b : ValidString a = true -> runes (a ++ b) = runes a ++ runes b.
Proof.
  intros Ha. rewrite <- (toValidUTF8_valid a Ha) at 1. unfold toValidUTF8.
  apply runes_encode_runes, runes_valid.
Qed.

Lemma ValidString_encode r rest : ValidRune r = true ->
  ValidString (EncodeRune r ++ rest) = ValidString rest.
Proof.
  intros Hr. rewrite ValidString_step.
  2:{ pose proof (EncodeRune_nonempty r). destruct (EncodeRune r); [congruence | discriminate]. }
  rewrite (decode_encode r rest Hr), skipn_length_app.
  destruct (r =? RuneError) eqn:E; [|reflexivity].
  apply Z.eqb_eq in E. subst r. reflexivity.
Qed.


Lemma runes_ascii s : Forall (fun c => b2z c < RuneSelf) s -> runes s = map b2z s.
Proof.
  induction 1 as [|c s Hc Hs IH]; [reflexivity|].
  rewrite runes_step by discriminate. rewrite (DecodeRune_ascii c s Hc).
  cbn [fst snd skipn map]. now rewrite IH.
Qed.

(** The table [unicode.Han] starts at U+2E80. *)
Lemma Han_starts_high r : r < 0x2e80 -> Unicode.Is Unicode.Han r = false.
Proof.
  intros Hr. unfold Unicode.Is, Unicode.Han, Unicode.inRange.
  cbn [existsb Unicode.Lo Unicode.Hi Unicode.Stride].
  repeat match goal with
  | |- context [?a <=? r] => replace (a <=? r) with false by (symmetry; apply Z.leb_gt; lia)
  end.
  reflexivity.
Qed.

Lemma runes_count_le s : (length (runes s) <= length s)%nat.
Proof.
  induction s as [|s Hs IH] using gostring_rune_ind; [cbn; lia|].
  rewrite runes_step by exact Hs. cbn [length].
  pose proof (DecodeRune_width s Hs) as Hw. rewrite length_skipn in IH. lia.
Qed.

Section MoreWeight.

Variable Han : Unicode.RangeTable.

Lemma runesWeight_length rs : Z.of_nat (length rs) <= runesWeight Han rs.
Proof.
  induction rs as [|r rs IH]; cbn [runesWeight length]; [lia|].
  pose proof (itemW_pos Han r). lia.
Qed.

(** X1. The weight of a string lies between its number of runes and twice
    that number, and the number of runes is at most the number of bytes:
    a text within the budget of 40 has at most 40 characters. *)
Theorem getWeight_rune_count s :
  RuneCountInString s <= getWeight Han s <= 2 * RuneCountInString s
  /\ RuneCountInString s <= Z.of_nat (length s).
Proof.
  unfold RuneCountInString. rewrite getWeight_runesWeight.
  pose proof (runesWeight_length (runes s)).
  pose proof (runesWeight_nonneg Han (runes s)).
  pose proof (runes_count_le s). lia.
Qed.

(** X2. The weight is additive over a concatenation whose first part is
    valid UTF-8.  (Without that condition the last bytes of the first part
    and the first bytes of the second can join into one rune.) *)
Theorem getWeight_app a b : ValidString a = true ->
  getWeight Han (a ++ b) = getWeight Han a + getWeight Han b.
Proof.
  intros Ha. rewrite !getWeight_runesWeight, runes_app_valid by exact Ha.
  apply runesWeight_app.
Qed.

End MoreWeight.

Lemma getWeight_app_witness :
  getWeight Unicode.Han (sampleText ++ bs "x")
  = getWeight Unicode.Han sampleText + getWeight Unicode.Han (bs "x").
Proof. apply (getWeight_app Unicode.Han sampleText (bs "x")). reflexivity. Defined.

(** The ideographs of the block U+4E00 to U+9FFF are in [unicode.Han]. *)
Lemma Han_unified r : 0x4e00 <= r <= 0x9fff -> Unicode.Is Unicode.Han r = true.
Proof.
  intros Hr. unfold Unicode.Is. apply existsb_exists.
  exists (Unicode.mkRange 0x4e00 0x9fff 1). split.
  - unfold Unicode.Han. cbn. tauto.
  - unfold Unicode.inRange. cbn [Unicode.Lo Unicode.Hi Unicode.Stride].
    rewrite Z.mod_1_r. apply andb_true_intro. split; [|reflexivity].
    apply andb_true_intro. split; [apply Z.leb_le | apply Z.leb_le]; lia.
Qed.

(** X3. With the table [unicode.Han] of the library, a text of ASCII bytes
    weighs one unit per byte and a text of ideographs of the block U+4E00
    to U+9FFF two units per ideograph: the input budget of 40 is 40 of the
    former or 20 of the latter. *)
Theorem getWeight_by_script :
  (forall s, Forall (fun c => b2z c < RuneSelf) s ->
             getWeight Unicode.Han s = Z.of_nat (length s))
  /\ (forall rs, Forall (fun r => 0x4e00 <= r <= 0x9fff) rs ->
                 getWeight Unicode.Han (encode_runes rs) = 2 * Z.of_nat (length rs)).
Proof.
  split.
  - intros s Hs. rewrite getWeight_runesWeight, (runes_ascii s Hs).
    induction Hs as [|c s Hc Hs IH]; [reflexivity|].
    cbn [map runesWeight length]. rewrite IH. unfold itemW.
    rewrite Han_starts_high by (unfold RuneSelf in Hc; lia). lia.
  - intros rs Hrs. rewrite getWeight_runesWeight.
    assert (Hv : Forall (fun r => ValidRune r = true) rs).
    { eapply Forall_impl; [|exact Hrs]. intros r Hr. cbn beta in *.
      unfold ValidRune, surrogateMin. apply orb_true_intro. left.
      apply andb_true_intro. split; [apply Z.leb_le | apply Z.ltb_lt]; lia. }
    pose proof (runes_encode_runes rs [] Hv) as E. rewrite app_nil_r in E.
    change (runes []) with (@nil rune) in E. rewrite app_nil_r in E. rewrite E.
    clear E Hv. induction Hrs as [|r rs Hr Hrs IH]; [reflexivity|].
    cbn [runesWeight length]. rewrite IH. unfold itemW.
    rewrite Han_unified by exact Hr. lia.
Qed.

Lemma getWeight_by_script_witness :
  getWeight Unicode.Han (bs "buy milk") = Z.of_nat (length (bs "buy milk"))
  /\ getWeight Unicode.Han (encode_runes [0x4e2d; 0x6587])
     = 2 * Z.of_nat (length [0x4e2d; 0x6587]).
Proof.
  split.
  - apply (proj1 getWeight_by_script (bs "buy milk")). repeat constructor.
  - apply (proj2 getWeight_by_script [0x4e2d; 0x6587]). repeat constructor; lia.
Defined.

(** ** More on the truncation *)

Lemma runes_ellipsis : runes ellipsis = [0x2026].
Proof. reflexivity. Qed.

Lemma runes_with_ellipsis kept : Forall (fun r => ValidRune r = true) kept ->
  runes (encode_runes kept ++ ellipsis) = kept ++ [0x2026].
Proof. intros Hk. now rewrite runes_encode_runes, runes_ellipsis. Qed.

Section MoreTruncation.

Variable Han : Unicode.RangeTable.

Lemma truncateByWeight_kept s m :
  truncateByWeight Han s m = encode_runes (keptRunes Han m (runes s) 0).
Proof. unfold truncateByWeight. now rewrite truncateLoop_kept. Qed.

Lemma truncateByWeightWithEllipsis_cut s m : (getWeight Han s <=? m) = false ->
  truncateByWeightWithEllipsis Han s m
  = encode_runes (keptRunes Han m (runes s) 0) ++ ellipsis.
Proof.
  intros E. unfold truncateByWeightWithEllipsis. now rewrite E, truncateLoop_kept.
Qed.

Lemma truncateByWeightWithEllipsis_keep s m : (getWeight Han s <=? m) = true ->
  truncateByWeightWithEllipsis Han s m = s.
Proof. intros E. unfold truncateByWeightWithEllipsis. now rewrite E. Qed.

Lemma keptRunes_mono m m' rs : m <= m' -> forall c,
  exists ext, keptRunes Han m' rs c = keptRunes Han m rs c ++ ext.
Proof.
  intros Hm. induction rs as [|r rs IH]; intros c; cbn [keptRunes].
  - now exists [].
  - destruct (c + itemW Han r >? m) eqn:E1.
    + eexists. reflexivity.
    + destruct (c + itemW Han r >? m') eqn:E2; [lia|].
      destruct (IH (c + itemW Han r)) as [ext ->]. now exists ext.
Qed.

Lemma keptRunes_app_stop m kept r c :
  keptRunes Han m kept c = kept -> c + runesWeight Han kept + itemW Han r > m ->
  keptRunes Han m (kept ++ [r]) c = kept.
Proof.
  revert c. induction kept as [|k kept IH]; intros c; cbn [keptRunes app runesWeight].
  - intros _ Hw. destruct (c + itemW Han r >? m) eqn:E; [reflexivity | lia].
  - destruct (c + itemW Han k >? m) eqn:E; [discriminate|].
    intros [= Hk] Hw. f_equal. apply IH; [exact Hk | lia].
Qed.

(** The weight of a label: the budget and the ellipsis. *)
Lemma ellipsis_result_weight s m : 0 <= m ->
  getWeight Han (truncateByWeightWithEllipsis Han s m) <= m + itemW Han 0x2026.
Proof.
  intros Hm. pose proof (itemW_pos Han 0x2026).
  destruct (getWeight Han s <=? m) eqn:E.
  - rewrite truncateByWeightWithEllipsis_keep by exact E. lia.
  - rewrite truncateByWeightWithEllipsis_cut, getWeight_runesWeight by exact E.
    rewrite runes_with_ellipsis by apply keptRunes_valid.
    rewrite runesWeight_app. cbn [runesWeight].
    pose proof (keptRunes_weight Han m (runes s) 0 Hm). lia.
Qed.


(** X5. For a budget that is not negative and a text that is valid UTF-8,
    [truncateByWeight] returns the text itself exactly when its weight is
    within the budget: the entry is rewritten only when it has to be. *)
Theorem truncateByWeight_fits s m : 0 <= m -> ValidString s = true ->
  (truncateByWeight Han s m = s <-> getWeight Han s <= m).
Proof.
  intros Hm Hv. split.
  - intros E. rewrite <- E. now apply truncateByWeight_weight.
  - intros Hw. rewrite truncateByWeight_kept, keptRunes_all.
    + now apply toValidUTF8_valid.
    + rewrite <- getWeight_runesWeight. lia.
Qed.

(** X6. A larger budget keeps more: the result for the budget [m] is a
    prefix of the result for any budget [m'] above it. *)
Theorem truncateByWeight_monotone s m m' : m <= m' ->
  exists ext, truncateByWeight Han s m' = truncateByWeight Han s m ++ ext.
Proof.
  intros Hm. destruct (keptRunes_mono m m' (runes s) Hm 0) as [ext E].
  exists (encode_runes ext). now rewrite !truncateByWeight_kept, E, encode_runes_app.
Qed.

(** X7. [truncateByWeightWithEllipsis] is idempotent, for every string and
    every budget: a label cut for the tray is not cut again. *)
Theorem truncateByWeightWithEllipsis_idempotent s m :
  truncateByWeightWithEllipsis Han (truncateByWeightWithEllipsis Han s m) m
  = truncateByWeightWithEllipsis Han s m.
Proof.
  destruct (getWeight Han s <=? m) eqn:E.
  - now rewrite !(truncateByWeightWithEllipsis_keep s m E).
  - rewrite (truncateByWeightWithEllipsis_cut s m E).
    set (kept := keptRunes Han m (runes s) 0).
    assert (Hv : Forall (fun r => ValidRune r = true) kept) by apply keptRunes_valid.
    destruct (getWeight Han (encode_runes kept ++ ellipsis) <=? m) eqn:E2.
    + now apply truncateByWeightWithEllipsis_keep.
    + rewrite (truncateByWeightWithEllipsis_cut _ m E2). f_equal. f_equal.
      rewrite runes_with_ellipsis by exact Hv.
      apply keptRunes_app_stop; [apply keptRunes_idem|].
      rewrite getWeight_runesWeight, runes_with_ellipsis, runesWeight_app in E2 by exact Hv.
      cbn [runesWeight] in E2. lia.
Qed.

End MoreTruncation.

Lemma truncateByWeight_fits_witness :
  truncateByWeight Unicode.Han sampleText 7 = sampleText
  <-> getWeight Unicode.Han sampleText <= 7.
Proof.
  apply (truncateByWeight_fits Unicode.Han sampleText 7); [lia | reflexivity].
Defined.

Lemma truncateByWeight_monotone_witness :
  exists ext,
    truncateByWeight Unicode.Han sampleText 5
    = truncateByWeight Unicode.Han sampleText 3 ++ ext.
Proof. apply (truncateByWeight_monotone Unicode.Han sampleText 3 5). lia. Defined.

(** X8. For a budget that is not negative, the weight of what
    [truncateByWeightWithEllipsis] returns is at most the budget plus the
    weight of the ellipsis; with the table [unicode.Han] of the library,
    where the ellipsis weighs one unit, at most the budget plus one. *)
Theorem truncateByWeightWithEllipsis_weight (Han : Unicode.RangeTable) s m : 0 <= m ->
  getWeight Han (truncateByWeightWithEllipsis Han s m) <= m + itemW Han 0x2026
  /\ getWeight Unicode.Han (truncateByWeightWithEllipsis Unicode.Han s m) <= m + 1.
Proof.
  intros Hm. split; [now apply ellipsis_result_weight|].
  pose proof (ellipsis_result_weight Unicode.Han s m Hm) as H.
  change (itemW Unicode.Han 8230) with 1 in H. exact H.
Qed.

Lemma truncateByWeightWithEllipsis_weight_witness :
  getWeight Unicode.Han (truncateByWeightWithEllipsis Unicode.Han sampleText 3)
  <= 3 + itemW Unicode.Han 0x2026
  /\ getWeight Unicode.Han (truncateByWeightWithEllipsis Unicode.Han sampleText 3) <= 3 + 1.
Proof.
  apply (truncateByWeightWithEllipsis_weight Unicode.Han sampleText 3). lia.
Defined.

(** ** The label of the simple build *)

Lemma firstn_app_exact {A} (l : list A) x n : (n <= length l)%nat ->
  firstn n (firstn n l ++ x) = firstn n l.
Proof.
  intros Hn. rewrite firstn_app, firstn_firstn, Nat.min_id, length_firstn.
  replace (n - Nat.min n (length l))%nat with 0%nat by lia. cbn. apply app_nil_r.
Qed.

Lemma shorten_cut s max : (max < length (runes s))%nat ->
  Simple.shorten s max = encode_runes (firstn max (runes s)) ++ ellipsis
  /\ runes (Simple.shorten s max) = firstn max (runes s) ++ [0x2026].
Proof.
  intros Hl.
  assert (E : Simple.shorten s max = encode_runes (firstn max (runes s)) ++ ellipsis).
  { unfold Simple.shorten. apply Nat.ltb_lt in Hl. now rewrite Hl. }
  split; [exact E|]. rewrite E. apply runes_with_ellipsis.
  pose proof (runes_valid s) as Hv. rewrite <- (firstn_skipn max (runes s)) in Hv.
  now apply Forall_app in Hv.
Qed.

Lemma shorten_runes_le s max : (length (runes (Simple.shorten s max)) <= S max)%nat.
Proof.
  destruct (Nat.ltb max (length (runes s))) eqn:E.
  - apply Nat.ltb_lt in E. destruct (shorten_cut s max E) as [_ ->].
    rewrite length_app, length_firstn. cbn [length]. lia.
  - unfold Simple.shorten. rewrite E. apply Nat.ltb_ge in E. lia.
Qed.

(** X9. For [max] not negative, [shorten(s, max)] has the runes of [s]
    when these are at most [max], and [max + 1] runes otherwise (the first
    [max] and the ellipsis); in the first case it is [s] itself. *)
Theorem shorten_rune_count s max :
  RuneCountInString (Simple.shorten s max)
  = Z.min (RuneCountInString s) (Z.of_nat max + 1)
  /\ (RuneCountInString s <= Z.of_nat max -> Simple.shorten s max = s).
Proof.
  unfold RuneCountInString.
  destruct (Nat.ltb max (length (runes s))) eqn:E.
  - apply Nat.ltb_lt in E. destruct (shorten_cut s max E) as [_ ->].
    rewrite length_app, length_firstn. cbn [length]. split; lia.
  - unfold Simple.shorten. rewrite E. apply Nat.ltb_ge in E. split; [lia | reflexivity].
Qed.

Lemma shorten_rune_count_witness :
  RuneCountInString (Simple.shorten sampleText 5)
  = Z.min (RuneCountInString sampleText) (Z.of_nat 5 + 1)
  /\ Simple.shorten sampleText 5 = sampleText.
Proof.
  split.
  - apply (proj1 (shorten_rune_count sampleText 5)).
  - apply (proj2 (shorten_rune_count sampleText 5)). vm_compute. discriminate.
Defined.

(** X10. For [max] not negative, [shorten] is idempotent: a label cut
    for the tray is not cut again. *)
Theorem shorten_idempotent s max :
  Simple.shorten (Simple.shorten s max) max = Simple.shorten s max.
Proof.
  destruct (Nat.ltb max (length (runes s))) eqn:E.
  - apply Nat.ltb_lt in E. destruct (shorten_cut s max E) as [Es Er].
    assert (E2 : (max < length (runes (Simple.shorten s max)))%nat).
    { rewrite Er, length_app, length_firstn. cbn [length]. lia. }
    destruct (shorten_cut _ max E2) as [-> _]. rewrite Er, Es.
    rewrite firstn_app_exact by lia. reflexivity.
  - assert (Es : Simple.shorten s max = s) by (unfold Simple.shorten; now rewrite E).
    now rewrite !Es.
Qed.

(** ** The entry and the input budget *)

Lemma removesFirst_Forall (P : Todo -> Prop) text before after :
  removesFirst text before after -> Forall P before -> Forall P after.
Proof.
  intros [(l1 & x & l2 & -> & _ & _ & ->) | [_ ->]] H; [|exact H].
  apply Forall_app in H as [H1 H2]. apply Forall_app. split; [exact H1|].
  now apply Forall_inv_tail in H2.
Qed.

Lemma deleteByText_Forall (P : Todo -> Prop) text ts :
  Forall P (elems ts) -> Forall P (elems (deleteByText text ts)).
Proof. apply removesFirst_Forall with (text := text), deleteByText_spec. Qed.

Section Entry.

Variable Han : Unicode.RangeTable.

Lemma OnChanged_todos s a : todos (Main.OnChanged Han s a) = todos a.
Proof. unfold Main.OnChanged. now destruct (_ >? _). Qed.

Lemma OnChanged_menu s a : menu (Main.OnChanged Han s a) = menu a.
Proof. unfold Main.OnChanged. now destruct (_ >? _). Qed.

Lemma OnChanged_within s a : getWeight Han (entryText (Main.OnChanged Han s a)) <= maxWeight.
Proof.
  unfold Main.OnChanged.
  destruct (getWeight Han s >? maxWeight) eqn:E; cbn [setEntry entryText]; [|lia].
  apply truncateByWeight_weight. discriminate.
Qed.

(** X11. After [entry.OnChanged], in the single-instance build and in the
    weighted build alike, the text of the entry is within the input budget,
    the counter shows the budget left for that text, between 0 and 40, a
    text within the budget is kept as typed, and the callback run again on
    the text it left changes nothing. *)
Theorem OnChanged_clamps s a :
  let a' := Main.OnChanged Han s a in
  getWeight Han (entryText a') <= maxWeight
  /\ leftTips a' = maxWeight - getWeight Han (entryText a')
  /\ 0 <= leftTips a' <= maxWeight
  /\ (getWeight Han s <= maxWeight -> entryText a' = s)
  /\ Weighted.OnChanged Han s a = a'
  /\ Main.OnChanged Han (entryText a') a' = a'.
Proof.
  cbv zeta. unfold Main.OnChanged, Weighted.OnChanged.
  assert (Hm : 0 <= maxWeight) by discriminate.
  pose proof (truncateByWeight_weight Han s maxWeight Hm) as Ht.
  pose proof (getWeight_bounds Han s) as Hs.
  pose proof (getWeight_bounds Han (truncateByWeight Han s maxWeight)) as Hs'.
  destruct (getWeight Han s >? maxWeight) eqn:E; cbn [setEntry entryText leftTips].
  - destruct (getWeight Han (truncateByWeight Han s maxWeight) >? maxWeight) eqn:E2; [lia|].
    repeat split; try lia.
  - rewrite E. repeat split; try lia.
Qed.

(** X12. The input budget is an invariant of the single-instance build and
    of the weighted build: when no stored text and no text in the entry is
    above it, this still holds after a change of the entry to any string,
    after the submission of the text of the entry, and after any action of
    the menu. *)
Theorem withinBudget_invariant a : withinBudget Han a ->
  (forall s, withinBudget Han (Main.OnChanged Han s a))
  /\ withinBudget Han (Main.OnSubmitted Han (entryText a) a)
  /\ (forall act, withinBudget Han (Main.runAction Han act a))
  /\ (forall s, withinBudget Han (Weighted.OnChanged Han s a))
  /\ withinBudget Han (Weighted.OnSubmitted Han (entryText a) a)
  /\ (forall text, withinBudget Han (Weighted.deleteTodo Han text a)).
Proof.
  intros [Hl He].
  assert (Hch : forall s, withinBudget Han (Main.OnChanged Han s a)).
  { intros s. split; [now rewrite OnChanged_todos | apply OnChanged_within]. }
  assert (Hadd : Forall (fun t => getWeight Han (Text t) <= maxWeight)
                        (elems (todos a) ++ [mkTodo (entryText a)])).
  { apply Forall_app. split; [exact Hl|]. constructor; [exact He | constructor]. }
  split; [exact Hch|]. split; [|split; [|split; [exact Hch|split]]].
  - unfold Main.OnSubmitted. destruct (entryText a) as [|c t] eqn:Et.
    + split; [exact Hl | now rewrite Et].
    + split; [exact Hadd | discriminate].
  - intros [| text |]; cbn; try (split; assumption).
    split; [|exact He]. cbn. now apply deleteByText_Forall.
  - unfold Weighted.OnSubmitted. destruct (entryText a) as [|c t] eqn:Et.
    + split; [exact Hl | now rewrite Et].
    + split; [exact Hadd | discriminate].
  - intros text. split; [|exact He]. cbn. now apply deleteByText_Forall.
Qed.

End Entry.

Lemma OnChanged_clamps_witness :
  entryText (Main.OnChanged Unicode.Han sampleText sampleApp) = sampleText.
Proof.
  apply (proj1 (proj2 (proj2 (proj2 (OnChanged_clamps Unicode.Han sampleText sampleApp))))).
  vm_compute. discriminate.
Defined.

Lemma withinBudget_sampleApp : withinBudget Unicode.Han sampleApp.
Proof.
  split; [|vm_compute; discriminate].
  repeat constructor; vm_compute; discriminate.
Qed.

Lemma withinBudget_invariant_witness :
  withinBudget Unicode.Han (Main.OnSubmitted Unicode.Han (entryText sampleApp) sampleApp).
Proof.
  apply (proj1 (proj2 (withinBudget_invariant Unicode.Han sampleApp withinBudget_sampleApp))).
Defined.

(** ** Rows, deletions and additions *)

Lemma first_match_unique (text : gostring) (l1 : list Todo) : forall l1' t t' l2 l2',
  l1 ++ t :: l2 = l1' ++ t' :: l2' ->
  Text t = text -> Text t' = text ->
  Forall (fun x => Text x <> text) l1 -> Forall (fun x => Text x <> text) l1' ->
  l1 = l1' /\ l2 = l2'.
Proof.
  induction l1 as [|x l1 IH]; intros [|x' l1'] t t' l2 l2' E Ht Ht' H1 H1'; cbn in E.
  - injection E as _ E. now split.
  - injection E as E _. apply Forall_inv in H1'. congruence.
  - injection E as E _. apply Forall_inv in H1. congruence.
  - injection E as Ex E. pose proof (Forall_inv_tail H1) as T1.
    pose proof (Forall_inv_tail H1') as T1'.
    destruct (IH _ _ _ _ _ E Ht Ht' T1 T1') as [E1 E2]. split; congruence.
Qed.

(** [removesFirst] determines the list that is left. *)
Lemma removesFirst_unique text before a1 a2 :
  removesFirst text before a1 -> removesFirst text before a2 -> a1 = a2.
Proof.
  intros [(l1 & t & l2 & E & Ht & H1 & ->) | [H ->]]
         [(l1' & t' & l2' & E' & Ht' & H1' & ->) | [H' ->]]; try reflexivity.
  - rewrite E in E'.
    destruct (first_match_unique text _ _ _ _ _ _ E' Ht Ht' H1 H1') as [-> ->].
    reflexivity.
  - rewrite E in H'. apply Forall_app in H' as [_ H']. apply Forall_inv in H'. congruence.
  - rewrite E' in H. apply Forall_app in H as [_ H]. apply Forall_inv in H. congruence.
Qed.

Lemma deleteByText_first text l1 t l2 :
  Text t = text -> Forall (fun x => Text x <> text) l1 ->
  deleteByText text (Some (l1 ++ t :: l2)) = Some (l1 ++ l2).
Proof.
  intros Ht H1. pose proof (deleteByText_spec text (Some (l1 ++ t :: l2))) as Hs.
  cbn [elems deleteByText] in *. f_equal.
  eapply removesFirst_unique; [exact Hs|].
  left. exists l1, t, l2. auto.
Qed.

Lemma NoDup_texts_split (l : list Todo) k t :
  NoDup (map Text l) -> nth_error l k = Some t ->
  l = firstn k l ++ t :: skipn (S k) l
  /\ Forall (fun x => Text x <> Text t) (firstn k l).
Proof.
  revert k. induction l as [|x l IH]; intros k Hn Hk.
  - destruct k; discriminate.
  - destruct k as [|k]; cbn in Hk.
    + injection Hk as ->. cbn. split; [reflexivity | constructor].
    + cbn [map] in Hn. pose proof (NoDup_cons_iff (Text x) (map Text l)) as Hc.
      apply Hc in Hn as [Hx Hl].
      destruct (IH k Hl Hk) as [E HF]. cbn [firstn skipn app]. split.
      * f_equal. exact E.
      * constructor; [|exact HF]. intros Ex. apply Hx. rewrite Ex.
        apply in_map. eapply nth_error_In; eauto.
Qed.

(** X13. In the menu [rebuildTray] builds, the row of the [k]-th to-do
    comes [k] places after the first two items, carries its truncated text
    and deletes by that text; activating it shortens the list by exactly
    one entry, and removes the [k]-th entry itself when no two entries of
    the list have the same text. *)
Theorem menu_row_deletes_its_entry (Han : Unicode.RangeTable) a k t :
  nth_error (elems (todos a)) k = Some t ->
  nth_error (menu (Main.rebuildTray Han a)) (2 + k)
  = Some (Item (rowPrefix ++ truncateByWeightWithEllipsis Han (Text t) Main.maxShowWeight)
               (Some (ActDelete (Text t))))
  /\ (length (elems (todos (Main.runAction Han (ActDelete (Text t)) a))) + 1
      = length (elems (todos a)))%nat
  /\ (NoDup (textsOf (todos a)) ->
      elems (todos (Main.runAction Han (ActDelete (Text t)) a))
      = firstn k (elems (todos a)) ++ skipn (S k) (elems (todos a))).
Proof.
  intros Hk. split; [|split].
  - unfold Main.rebuildTray. cbn [menu setMenu]. cbn [app nth_error Nat.add].
    unfold Main.menuRows. destruct (elems (todos a)) as [|x l] eqn:El.
    + destruct k; discriminate.
    + rewrite nth_error_app1.
      2:{ rewrite length_map. apply nth_error_Some. congruence. }
      rewrite nth_error_map, Hk. reflexivity.
  - cbn. pose proof (deleteByText_spec (Text t) (todos a)) as Hs.
    destruct Hs as [(l1 & x & l2 & E & _ & _ & ->) | [H _]].
    + rewrite E, !length_app. cbn [length]. lia.
    + exfalso. apply nth_error_In in Hk. rewrite Forall_forall in H. now apply (H t).
  - intros Hn. cbn. unfold textsOf in Hn.
    destruct (NoDup_texts_split _ k t Hn Hk) as [E HF].
    destruct (todos a) as [l|] eqn:Et; cbn [elems] in *.
    + rewrite E at 1. rewrite deleteByText_first by auto. reflexivity.
    + destruct k; discriminate.
Qed.

Lemma menu_row_deletes_its_entry_witness :
  elems (todos (Main.runAction Unicode.Han (ActDelete (bs "b")) sampleApp))
  = [mkTodo (bs "a")].
Proof.
  apply (proj2 (proj2 (menu_row_deletes_its_entry Unicode.Han sampleApp 1 (mkTodo (bs "b"))
                         eq_refl))).
  repeat constructor; cbn; intuition discriminate.
Defined.

Lemma RuneCount_pos c s : 1 <= RuneCountInString (c :: s).
Proof.
  unfold RuneCountInString. rewrite runes_step by discriminate. cbn [length]. lia.
Qed.

(** X14. In the simple build the stored texts stay within bounds: when no
    stored text is empty or longer than [maxLen] runes, this still holds
    after [OnSubmitted] on any text and after any deletion; a text that is
    too long is not stored, and the entry is cleared. *)
Theorem Simple_texts_bounded a :
  Forall simpleBound (elems (todos a)) ->
  (forall text, Forall simpleBound (elems (todos (Simple.OnSubmitted text a))))
  /\ (forall text, Forall simpleBound (elems (todos (Simple.deleteTodo text a))))
  /\ (forall text, RuneCountInString text > Simple.maxLen ->
      todos (Simple.OnSubmitted text a) = todos a
      /\ world (Simple.OnSubmitted text a) = world a
      /\ menu (Simple.OnSubmitted text a) = menu a
      /\ entryText (Simple.OnSubmitted text a) = []).
Proof.
  intros H. split; [|split]; intros text.
  - unfold Simple.OnSubmitted. destruct text as [|c s]; [exact H|].
    destruct (RuneCountInString (c :: s) >? Simple.maxLen) eqn:E; [exact H|].
    cbn. apply Forall_app. split; [exact H|]. constructor; [|constructor].
    unfold simpleBound. cbn [Text]. pose proof (RuneCount_pos c s). lia.
  - cbn. now apply deleteByText_Forall.
  - intros Hlong. unfold Simple.OnSubmitted. destruct text as [|c s]; [discriminate|].
    destruct (RuneCountInString (c :: s) >? Simple.maxLen) eqn:E; [|lia].
    repeat split.
Qed.

Lemma simpleBound_sampleApp : Forall simpleBound (elems (todos sampleApp)).
Proof. repeat constructor; vm_compute; discriminate. Qed.

Lemma Simple_texts_bounded_witness :
  Forall simpleBound (elems (todos (Simple.OnSubmitted (bs "c") sampleApp))).
Proof.
  apply (proj1 (Simple_texts_bounded sampleApp simpleBound_sampleApp)).
Defined.

(** X15. Deleting the text that was just added undoes the addition when no
    entry had that text; when one had, the older entry goes and the new one
    stays at the end. *)
Theorem add_then_delete text ts :
  (Forall (fun x => Text x <> text) (elems ts) ->
   deleteByText text (appendTodo ts text) = Some (elems ts))
  /\ (forall l1 t l2, elems ts = l1 ++ t :: l2 -> Text t = text ->
      Forall (fun x => Text x <> text) l1 ->
      deleteByText text (appendTodo ts text) = Some (l1 ++ l2 ++ [mkTodo text])).
Proof.
  unfold appendTodo. split.
  - intros H. rewrite <- (app_nil_r (elems ts)) at 2.
    now apply deleteByText_first.
  - intros l1 t l2 -> Ht H1. rewrite <- app_assoc. cbn [app].
    now apply deleteByText_first.
Qed.

Lemma add_then_delete_witness :
  deleteByText (bs "c") (appendTodo (todos sampleApp) (bs "c")) = Some (elems (todos sampleApp))
  /\ deleteByText (bs "a") (appendTodo (todos sampleApp) (bs "a"))
     = Some ([] ++ [mkTodo (bs "b")] ++ [mkTodo (bs "a")]).
Proof.
  split.
  - apply (proj1 (add_then_delete (bs "c") (todos sampleApp))).
    repeat constructor; cbn; discriminate.
  - apply (proj2 (add_then_delete (bs "a") (todos sampleApp)) [] (mkTodo (bs "a"))
             [mkTodo (bs "b")]); [reflexivity | reflexivity | constructor].
Defined.

(** ** The menu shows the list *)

Lemma deleteTargets_rows (f : Todo -> gostring) l :
  deleteTargets (map (fun t => Item (f t) (Some (ActDelete (Text t)))) l) = map Text l.
Proof. induction l as [|t l IH]; [reflexivity|]. cbn. now rewrite <- IH. Qed.

Lemma rows_no_placeholder (f : Todo -> gostring) l :
  ~ In (Item emptyLabel None) (map (fun t => Item (f t) (Some (ActDelete (Text t)))) l).
Proof. intros H. apply in_map_iff in H as (t & E & _). discriminate. Qed.

Lemma menuShows_built (f : Todo -> gostring) a b :
  todos b = todos a ->
  menu b = [Item addLabel (Some ActShowWindow); Separator]
           ++ match elems (todos a) with
              | [] => [Item emptyLabel None]
              | x :: l => map (fun t => Item (f t) (Some (ActDelete (Text t)))) (x :: l)
              end
           ++ [Separator; Item quitLabel (Some ActQuit)] ->
  menuShows b.
Proof.
  intros Ht Hm. unfold menuShows, textsOf. rewrite Hm, Ht.
  destruct (elems (todos a)) as [|t l] eqn:El.
  - split; [reflexivity|]. split; [reflexivity|]. intros _. cbn. tauto.
  - split.
    + unfold deleteTargets. rewrite !flat_map_app. fold deleteTargets.
      rewrite deleteTargets_rows. cbn. now rewrite app_nil_r.
    + split; [|discriminate]. intros Hin. exfalso.
      apply in_app_or in Hin as [Hin | Hin].
      * cbn in Hin. destruct Hin as [Hin | [Hin | []]]; discriminate.
      * apply in_app_or in Hin as [Hin | Hin].
        -- now apply rows_no_placeholder in Hin.
        -- cbn in Hin. destruct Hin as [Hin | [Hin | []]]; discriminate.
Qed.

Lemma Main_rebuildTray_shows Han a : menuShows (Main.rebuildTray Han a).
Proof.
  eapply menuShows_built with (a := a); [reflexivity|]. reflexivity.
Qed.

Lemma Weighted_rebuildTray_shows Han a : menuShows (Weighted.rebuildTray Han a).
Proof. eapply menuShows_built with (a := a); reflexivity. Qed.

Lemma Simple_rebuildTray_shows a : menuShows (Simple.rebuildTray a).
Proof. eapply menuShows_built with (a := a); reflexivity. Qed.

(** X16. The menu always shows the list, in the three builds: its rows
    delete the texts of the to-dos, one row per to-do and in the order of
    the list, and the placeholder is in the menu exactly when the list is
    empty.  This holds when [main] has built the tray and is kept by every
    callback: a change of the entry, a submission, an action of the menu,
    a task run on the UI thread. *)
Theorem menu_shows_list (Han : Unicode.RangeTable) :
  (forall w, menuShows (Main.startPrimary Han w)
             /\ menuShows (Weighted.main Han w) /\ menuShows (Simple.main w))
  /\ (forall a, menuShows a ->
      (forall s, menuShows (Main.OnChanged Han s a))
      /\ (forall text, menuShows (Main.OnSubmitted Han text a))
      /\ (forall act, menuShows (Main.runAction Han act a))
      /\ (forall t, menuShows (Main.runUiTask t a))
      /\ (forall s, menuShows (Weighted.OnChanged Han s a))
      /\ (forall text, menuShows (Weighted.OnSubmitted Han text a))
      /\ (forall text, menuShows (Weighted.deleteTodo Han text a))
      /\ (forall text, menuShows (Simple.OnSubmitted text a))
      /\ (forall text, menuShows (Simple.deleteTodo text a))).
Proof.
  split.
  - intros w. split; [|split].
    + unfold Main.startPrimary. destruct (Main.loadTodos w). apply Main_rebuildTray_shows.
    + apply Weighted_rebuildTray_shows.
    + apply Simple_rebuildTray_shows.
  - intros a Ha.
    assert (Hch : forall s, menuShows (Main.OnChanged Han s a)).
    { intros s. unfold menuShows. now rewrite OnChanged_todos, OnChanged_menu. }
    repeat apply conj.
    + exact Hch.
    + intros text. destruct text; [exact Ha | apply Main_rebuildTray_shows].
    + intros act. destruct act; [exact Ha | apply Main_rebuildTray_shows | exact Ha].
    + intros t. destruct t. unfold Main.runUiTask, Main.showWindow.
      destruct (showWindowSet a), (inputWinSet a); exact Ha.
    + exact Hch.
    + intros text. destruct text; [exact Ha | apply Weighted_rebuildTray_shows].
    + intros text. apply Weighted_rebuildTray_shows.
    + intros text. unfold Simple.OnSubmitted. destruct text as [|c s]; [exact Ha|].
      destruct (_ >? _); [exact Ha | apply Simple_rebuildTray_shows].
    + intros text. apply Simple_rebuildTray_shows.
Qed.

Lemma menu_shows_list_witness :
  menuShows (Main.runAction Unicode.Han (ActDelete (bs "a"))
               (Main.startPrimary Unicode.Han (world0 (Os.Present sampleData true)))).
Proof.
  apply (proj1 (proj2 (proj2 (proj2 (menu_shows_list Unicode.Han)
           (Main.startPrimary Unicode.Han (world0 (Os.Present sampleData true)))
           ltac:(split; [reflexivity | split; [cbn; intuition discriminate
                                              | discriminate]]))))).
Defined.

(** ** What the decoder returns is valid UTF-8 *)

(** The conversion [string(r)] writes an invalid rune as U+FFFD. *)
Lemma EncodeRune_coerce r : exists r', ValidRune r' = true /\ EncodeRune r = EncodeRune r'.
Proof.
  destruct (ValidRune r) eqn:E; [now exists r|].
  exists RuneError. split; [reflexivity|].
  unfold ValidRune, surrogateMin, surrogateMax, MaxRune in E.
  unfold EncodeRune, rune1Max, rune2Max, rune3Max, surrogateMin, surrogateMax, MaxRune,
    RuneError.
  repeat match goal with |- context [if ?c then _ else _] => destruct c eqn:? end;
    try reflexivity; exfalso; lia.
Qed.

Lemma ValidString_encode_any r t : ValidString (EncodeRune r ++ t) = ValidString t.
Proof.
  destruct (EncodeRune_coerce r) as (r' & Hr' & ->). now apply ValidString_encode.
Qed.

Lemma ValidString_ascii c t : b2z c < RuneSelf -> ValidString (c :: t) = ValidString t.
Proof.
  intros Hc. rewrite ValidString_step by discriminate.
  rewrite (DecodeRune_ascii c t Hc). cbn [skipn Nat.eqb andb].
  destruct (b2z c =? RuneError) eqn:E; [|reflexivity].
  unfold RuneSelf, RuneError in *. lia.
Qed.

Lemma prepend_valid p o t : prepend p o = Some t ->
  (forall u, ValidString (p ++ u) = ValidString u) ->
  (forall u, o = Some u -> ValidString u = true) -> ValidString t = true.
Proof.
  destruct o as [u|]; [|discriminate]. cbn. intros [= <-] Hp Ho. rewrite Hp. now apply Ho.
Qed.

Lemma unquote_fuel_valid fuel : forall s t,
  unquote_fuel fuel s = Some t -> ValidString t = true.
Proof.
  induction fuel as [|fuel IH]; intros s t.
  - destruct s; cbn; [intros [= <-]; reflexivity | discriminate].
  - destruct s as [|c rest]; [cbn; intros [= <-]; reflexivity|].
    cbn [unquote_fuel].
    assert (P1 : forall (e : byte) s', b2z e < RuneSelf ->
                 prepend [e] (unquote_fuel fuel s') = Some t -> ValidString t = true).
    { intros e s' He Hp. eapply prepend_valid; [exact Hp | | intros u; apply IH].
      intros u. now apply ValidString_ascii. }
    assert (P2 : forall r s',
                 prepend (EncodeRune r) (unquote_fuel fuel s') = Some t ->
                 ValidString t = true).
    { intros r s' Hp. eapply prepend_valid; [exact Hp | | intros u; apply IH].
      intros u. apply ValidString_encode_any. }
    destruct (b2z c =? 0x5c) eqn:Ec.
    + destruct rest as [|e rest']; [discriminate|].
      destruct ((b2z e =? 0x22) || (b2z e =? 0x5c) || (b2z e =? 0x2f) || (b2z e =? 0x27))
        eqn:E1.
      { apply P1. unfold RuneSelf. lia. }
      destruct (b2z e =? 0x62); [apply P1; reflexivity|].
      destruct (b2z e =? 0x66); [apply P1; reflexivity|].
      destruct (b2z e =? 0x6e); [apply P1; reflexivity|].
      destruct (b2z e =? 0x72); [apply P1; reflexivity|].
      destruct (b2z e =? 0x74); [apply P1; reflexivity|].
      destruct (b2z e =? 0x75); [|discriminate].
      destruct (getu4 (c :: e :: rest') <? 0); [discriminate|].
      destruct (IsSurrogate _).
      * destruct (negb _); apply P2.
      * apply P2.
    + destruct ((b2z c =? 0x22) || (b2z c <? 0x20)); [discriminate|].
      destruct (b2z c <? RuneSelf) eqn:E2; [apply P1; lia|].
      destruct (DecodeRune (c :: rest)) as [rr size]. apply P2.
Qed.

Lemma unquoted_valid s : ValidString (unquoted s) = true.
Proof.
  unfold unquoted, unquote. destruct (unquote_fuel _ s) as [t|] eqn:E; [|reflexivity].
  now apply unquote_fuel_valid in E.
Qed.

Lemma beginStep_valid c ts st : beginStep c = Some (ts, st) ->
  forallb tokenTextValid ts = true /\ pendingTokenValid st = true.
Proof.
  unfold beginStep, beginAt.
  repeat match goal with |- context [if ?b then _ else _] => destruct b end;
    intros [= <- <-]; split; reflexivity.
Qed.

Lemma lexStep_valid st c ts st' : pendingTokenValid st = true ->
  lexStep st c = Some (ts, st') ->
  forallb tokenTextValid ts = true /\ pendingTokenValid st' = true.
Proof.
  intros Hst. destruct st as [|ss lit|ns lit|due t]; cbn [lexStep].
  - apply beginStep_valid.
  - destruct (strStep ss (b2z c)); intros [= <- <-]; cbn; [now split|].
    rewrite unquoted_valid. now split.
  - destruct (numStep ns (b2z c)) as [[ns'|]|]; try discriminate.
    + intros [= <- <-]. now split.
    + destruct (beginStep c) as [[ts0 st0]|] eqn:Eb; [|discriminate].
      intros [= <- <-]. apply beginStep_valid in Eb. cbn. exact Eb.
  - destruct due as [|d due']; [discriminate|].
    destruct (Byte.eqb c d); [|discriminate].
    destruct due'; intros [= <- <-]; cbn in *; [rewrite Hst|]; now split.
Qed.

Lemma lex_valid s : forall st ts, pendingTokenValid st = true ->
  lex st s = Some ts -> forallb tokenTextValid ts = true.
Proof.
  induction s as [|c s IH]; intros st ts Hst; cbn [lex].
  - destruct st as [| | ns lit |]; cbn; try discriminate.
    + intros [= <-]. reflexivity.
    + destruct (numFinal ns); [|discriminate]. intros [= <-]. reflexivity.
  - destruct (lexStep st c) as [[ts0 st']|] eqn:E; [|discriminate].
    destruct (lexStep_valid _ _ _ _ Hst E) as [H0 H1].
    destruct (lex st' s) as [ts1|] eqn:E1; [|discriminate].
    cbn. intros [= <-]. rewrite forallb_app, H0. cbn. eapply IH; eauto.
Qed.

Lemma forallb_rev {A} (f : A -> bool) l : forallb f (rev l) = forallb f l.
Proof.
  induction l as [|x l IH]; [reflexivity|]. cbn. rewrite forallb_app, IH. cbn.
  rewrite andb_true_r. apply andb_comm.
Qed.

Lemma complete_valid v st m st' : valueTextsValid v = true ->
  forallb frameTextsValid st = true -> complete v st = Some (m, st') ->
  modeTextsValid m = true /\ forallb frameTextsValid st' = true.
Proof.
  intros Hv Hs. destruct st as [|[acc|acc key] st0]; cbn; intros [= <- <-]; cbn in *.
  - now split.
  - rewrite Hv. now split.
  - rewrite Hv. now split.
Qed.

Lemma step_valid m st t m' st' : tokenTextValid t = true ->
  forallb frameTextsValid st = true -> step m st t = Some (m', st') ->
  modeTextsValid m' = true /\ forallb frameTextsValid st' = true.
Proof.
  intros Ht Hs.
  assert (Hbegin : beginValue t st = Some (m', st') ->
                   modeTextsValid m' = true /\ forallb frameTextsValid st' = true).
  { destruct t; cbn [beginValue]; try discriminate;
      try (apply complete_valid; [exact Ht || reflexivity | exact Hs]).
    - unfold push. destruct (_ <? _); [|discriminate]. intros [= <- <-]. now split.
    - unfold push. destruct (_ <? _); [|discriminate]. intros [= <- <-]. now split. }
  destruct m; cbn [step]; try exact Hbegin.
  - destruct t; try exact Hbegin.
    destruct st as [|[acc|acc key] st0]; try exact Hbegin.
    cbn in Hs. apply andb_prop in Hs as [_ Hs]. now apply complete_valid.
  - destruct t; try discriminate.
    + destruct st as [|[acc|acc key] st0]; try discriminate.
      cbn in Hs. apply andb_prop in Hs as [Ha Hs].
      apply complete_valid; [cbn; now rewrite forallb_rev | exact Hs].
    + intros [= <- <-]. now split.
  - destruct t; try discriminate; destruct st as [|[acc|acc key] st0]; try discriminate.
    + cbn in Hs. apply andb_prop in Hs as [_ Hs]. now apply complete_valid.
    + intros [= <- <-]. now split.
  - destruct t; try discriminate; destruct st as [|[acc|acc key] st0]; try discriminate.
    intros [= <- <-]. now split.
  - destruct t; try discriminate. intros [= <- <-]. now split.
  - destruct t; try discriminate.
    + destruct st as [|[acc|acc key] st0]; try discriminate.
      cbn in Hs. apply andb_prop in Hs as [Ha Hs].
      apply complete_valid; [cbn; now rewrite forallb_rev | exact Hs].
    + intros [= <- <-]. now split.
  - discriminate.
Qed.

Lemma run_valid ts : forall m st v, forallb tokenTextValid ts = true ->
  modeTextsValid m = true -> forallb frameTextsValid st = true ->
  run m st ts = Some v -> valueTextsValid v = true.
Proof.
  induction ts as [|t ts IH]; intros m st v Ht Hm Hs; cbn [run].
  - destruct m; try discriminate. now intros [= <-].
  - cbn in Ht. apply andb_prop in Ht as [Ht Hts].
    destruct (step m st t) as [[m' st']|] eqn:E; [|discriminate].
    destruct (step_valid _ _ _ _ _ Ht Hs E). now apply IH.
Qed.

Lemma parse_valid data v : parse data = Some v -> valueTextsValid v = true.
Proof.
  unfold parse. destruct (lex LBegin data) as [ts|] eqn:E; [|discriminate].
  apply run_valid; [|reflexivity..]. eapply lex_valid; [|exact E]. reflexivity.
Qed.

Lemma decodeMembers_valid ms : forall t, ValidString (Text t) = true ->
  forallb (fun kv => valueTextsValid (snd kv)) ms = true ->
  ValidString (Text (fst (decodeMembers ms t))) = true.
Proof.
  induction ms as [|[k v] ms IH]; intros t Ht Hm; [exact Ht|].
  cbn in Hm. apply andb_prop in Hm as [Hv Hm]. cbn [decodeMembers].
  destruct (fieldMatch k); [|now apply IH].
  destruct (storeText v t) as [t1 e1] eqn:Es.
  specialize (IH t1). destruct (decodeMembers ms t1) as [t2 e2]. cbn [fst] in *.
  apply IH; [|exact Hm].
  destruct v; cbn in Es; injection Es as <- _; try exact Ht. exact Hv.
Qed.

Lemma decodeTodo_valid v : valueTextsValid v = true ->
  ValidString (Text (fst (decodeTodo v))) = true.
Proof.
  destruct v; try reflexivity. cbn [decodeTodo valueTextsValid].
  now apply decodeMembers_valid.
Qed.

Lemma Unmarshal_texts_valid data : textsValid (fst (Unmarshal data)).
Proof.
  unfold Unmarshal, textsValid. destruct (parse data) as [v|] eqn:E; [|constructor].
  apply parse_valid in E. destruct v; cbn; try constructor.
  cbn in E. rewrite forallb_forall in E. rewrite Forall_map.
  apply Forall_forall. intros x Hx. now apply decodeTodo_valid, E.
Qed.

Lemma Weighted_loadTodos_valid w : textsValid (Weighted.loadTodos w).
Proof.
  unfold Weighted.loadTodos. destruct (Os.IsNotExist _); [constructor|].
  destruct (Os.ReadFile _) as [data [e|]]; [constructor|]. apply Unmarshal_texts_valid.
Qed.

Lemma Main_loadTodos_valid w : textsValid (fst (Main.loadTodos w)).
Proof.
  unfold Main.loadTodos. destruct (Os.IsNotExist _); [constructor|].
  destruct (Os.ReadFile _) as [data [e|]]; [constructor|].
  pose proof (Unmarshal_texts_valid data) as H.
  destruct (Unmarshal data) as [ts [e|]]; [constructor | exact H].
Qed.

(** X17. Whatever the data file holds, every text [loadTodos] returns is
    valid UTF-8, in the three builds: the decoder replaces the bytes that
    are not. *)
Theorem loadTodos_texts_valid w :
  textsValid (fst (Main.loadTodos w))
  /\ textsValid (Weighted.loadTodos w)
  /\ textsValid (Simple.loadTodos w).
Proof.
  split; [apply Main_loadTodos_valid|]. split; apply Weighted_loadTodos_valid.
Qed.

(** ** More on the store *)

(** X18. What [loadTodos] returned is saved and loaded again unchanged:
    for every data file, valid or not, saving the list it loads to (where
    the write succeeds and the file can be read back) and loading again
    gives that same list, in the three builds. *)
Theorem load_save_load w w' : dataWritable w' = true -> readBackOk w' = true ->
  fst (Main.loadTodos (Main.saveTodos (fst (Main.loadTodos w)) w')) = fst (Main.loadTodos w)
  /\ Weighted.loadTodos (Weighted.saveTodos (Weighted.loadTodos w) w')
     = Weighted.loadTodos w
  /\ Simple.loadTodos (Simple.saveTodos (Simple.loadTodos w) w') = Simple.loadTodos w.
Proof.
  intros Hw Hr.
  assert (HW : Weighted.loadTodos (Weighted.saveTodos (Weighted.loadTodos w) w')
               = Weighted.loadTodos w).
  { destruct (save_load_coerce w' (Weighted.loadTodos w) Hw Hr) as [_ ->].
    apply coerceTodos_valid, Weighted_loadTodos_valid. }
  split; [|split; exact HW].
  destruct (save_load_coerce w' (fst (Main.loadTodos w)) Hw Hr) as [-> _].
  apply coerceTodos_valid, Main_loadTodos_valid.
Qed.

Lemma load_save_load_witness :
  fst (Main.loadTodos (Main.saveTodos (fst (Main.loadTodos (world0 (Os.Present rawData true))))
                         (world0 Os.Absent)))
  = fst (Main.loadTodos (world0 (Os.Present rawData true))).
Proof.
  apply (proj1 (load_save_load (world0 (Os.Present rawData true)) (world0 Os.Absent)
                  eq_refl eq_refl)).
Defined.

Lemma Valid_MarshalIndent ts : Valid (MarshalIndent ts) = true.
Proof.
  unfold Valid. pose proof (Unmarshal_MarshalIndent ts) as H. unfold Unmarshal in H.
  destruct (parse (MarshalIndent ts)); [reflexivity | discriminate].
Qed.

Lemma coerceTodos_length ts : length (elems (coerceTodos ts)) = length (elems ts).
Proof. destruct ts as [l|]; cbn; [apply length_map | reflexivity]. Qed.

(** X19. Whatever the list, texts that are not valid UTF-8 included, the
    file [saveTodos] writes is valid JSON, nothing is logged, and
    [loadTodos] reads it back without an error, with as many entries as
    were saved (where the write succeeds and the file can be read back). *)
Theorem saved_file_loads w L : dataWritable w = true -> readBackOk w = true ->
  let w1 := Main.saveTodos L w in
  (exists data, dataFile w1 = Os.Present data true /\ Valid data = true)
  /\ log w1 = log w
  /\ Main.loadTodos w1 = (coerceTodos L, w1)
  /\ length (elems (fst (Main.loadTodos w1))) = length (elems L).
Proof.
  intros Hw Hr w1. destruct (saved_file w L Hw Hr) as [Hf _]. fold w1 in Hf.
  assert (Hl : Main.loadTodos w1 = (coerceTodos L, w1)).
  { unfold Main.loadTodos. rewrite Hf. cbn. now rewrite Unmarshal_MarshalIndent. }
  split; [exists (MarshalIndent L); split; [exact Hf | apply Valid_MarshalIndent]|].
  split.
  - unfold w1, Main.saveTodos, Os.WriteFile. rewrite Hw. reflexivity.
  - split; [exact Hl|]. rewrite Hl. apply coerceTodos_length.
Qed.

Lemma saved_file_loads_witness :
  length (elems (fst (Main.loadTodos (Main.saveTodos sampleList (world0 Os.Absent)))))
  = length (elems sampleList).
Proof.
  apply (proj2 (proj2 (proj2 (saved_file_loads (world0 Os.Absent) sampleList
                                eq_refl eq_refl)))).
Defined.

(** X20. When the write of the data file fails, [OnSubmitted] still adds
    the to-do to the list in memory and rebuilds the menu; the
    single-instance build logs the failed write, the weighted build logs
    nothing.  The file is left as it was when it could not be opened; when
    the write failed after the open, which truncates the file, it holds
    the bytes written till then, a prefix of the new content. *)
Theorem OnSubmitted_write_failure (Han : Unicode.RangeTable) text a :
  text <> [] -> dataWritable (world a) = false ->
  let a1 := Main.OnSubmitted Han text a in
  let a2 := Weighted.OnSubmitted Han text a in
  let data := MarshalIndent (appendTodo (todos a) text) in
  todos a1 = appendTodo (todos a) text
  /\ log (world a1) = log (world a) ++ [LogWriteTodoError]
  /\ menu a1 = menu (Main.rebuildTray Han a1)
  /\ todos a2 = appendTodo (todos a) text
  /\ log (world a2) = log (world a)
  /\ dataFile (world a2) = dataFile (world a1)
  /\ (writeFault (world a) = Os.OpenFails -> dataFile (world a1) = dataFile (world a))
  /\ (forall n, writeFault (world a) = Os.WriteFails n ->
      dataFile (world a1) = Os.rewritten (dataFile (world a)) (firstn n data)).
Proof.
  intros Ht Hw. destruct text as [|c s]; [congruence|].
  cbn. unfold Main.saveTodos, Weighted.saveTodos, Os.WriteFile. rewrite Hw.
  destruct (writeFault (world a)) as [|k]; cbn.
  - repeat split; try reflexivity. intros n H. discriminate H.
  - repeat split; try reflexivity.
    + intros H. discriminate H.
    + intros n [= <-]. reflexivity.
Qed.

Lemma OnSubmitted_write_failure_witness :
  (dataFile (world (Main.OnSubmitted Unicode.Han (bs "a") readOnlyApp))
   = dataFile (world readOnlyApp))
  /\ dataFile (world (Main.OnSubmitted Unicode.Han (bs "a") fullDiskApp))
     = Os.Present ([x5b; x0a] ++ bs "  {") true.
Proof.
  split.
  - apply (proj1 (proj2 (proj2 (proj2 (proj2 (proj2 (proj2
             (OnSubmitted_write_failure Unicode.Han (bs "a") readOnlyApp
                ltac:(discriminate) eq_refl)))))))).
    reflexivity.
  - apply (proj2 (proj2 (proj2 (proj2 (proj2 (proj2 (proj2
             (OnSubmitted_write_failure Unicode.Han (bs "a") fullDiskApp
                ltac:(discriminate) eq_refl))))))) 5%nat).
    reflexivity.
Defined.

(** X21. What an addition or a deletion leaves on disk is what a restart
    shows: where the write succeeds and the file can be read back, the
    primary started on the world a callback left holds the new list, with
    its texts made valid UTF-8; it holds exactly the new list when the
    texts were valid UTF-8. *)
Theorem mutation_survives_restart (Han : Unicode.RangeTable) text a :
  dataWritable (world a) = true -> readBackOk (world a) = true ->
  (text <> [] ->
   todos (Main.startPrimary Han (world (Main.OnSubmitted Han text a)))
   = coerceTodos (appendTodo (todos a) text))
  /\ todos (Main.startPrimary Han (world (Main.deleteTodo Han text a)))
     = coerceTodos (deleteByText text (todos a))
  /\ (textsValid (todos a) -> ValidString text = true -> text <> [] ->
      todos (Main.startPrimary Han (world (Main.OnSubmitted Han text a)))
      = appendTodo (todos a) text).
Proof.
  intros Hw Hr.
  assert (Hstart : forall ts w1, fst (Main.loadTodos w1) = coerceTodos ts ->
            todos (Main.startPrimary Han w1) = coerceTodos ts).
  { intros ts w1 H. unfold Main.startPrimary.
    destruct (Main.loadTodos w1) as [l w2]. cbn in H. now subst l. }
  assert (Hspawn : forall g w1, fst (Main.loadTodos (spawn g w1)) = fst (Main.loadTodos w1)).
  { intros g w1. unfold Main.loadTodos. cbn [dataFile spawn].
    destruct (Os.IsNotExist _); [reflexivity|].
    destruct (Os.ReadFile _) as [data [e|]]; [reflexivity|].
    now destruct (Unmarshal data) as [l [e|]]. }
  assert (Hadd : text <> [] ->
            todos (Main.startPrimary Han (world (Main.OnSubmitted Han text a)))
            = coerceTodos (appendTodo (todos a) text)).
  { intros Ht. destruct text as [|c s]; [congruence|].
    apply Hstart. cbn [Main.OnSubmitted].
    change (world (Main.rebuildTray Han (Main.showSuccess (Main.SetText Han []
              (setWorld (Main.saveTodos (appendTodo (todos a) (c :: s)) (world a))
                        (setTodos (appendTodo (todos a) (c :: s)) a))))))
      with (spawn GoRevertStatus
              (Main.saveTodos (appendTodo (todos a) (c :: s)) (world a))).
    rewrite Hspawn. now apply save_load_coerce. }
  split; [exact Hadd|]. split.
  - apply Hstart. cbn [Main.deleteTodo world Main.rebuildTray setMenu setWorld].
    now apply save_load_coerce.
  - intros Hv Ht Hne. rewrite Hadd by exact Hne. apply coerceTodos_valid.
    unfold appendTodo. cbn [elems]. apply Forall_app. split; [exact Hv|].
    constructor; [exact Ht | constructor].
Qed.

Lemma mutation_survives_restart_witness :
  todos (Main.startPrimary Unicode.Han
           (world (Main.OnSubmitted Unicode.Han (bs "c") sampleApp)))
  = appendTodo (todos sampleApp) (bs "c").
Proof.
  apply (proj2 (proj2 (mutation_survives_restart Unicode.Han (bs "c") sampleApp
                         eq_refl eq_refl))).
  - repeat constructor.
  - reflexivity.
  - discriminate.
Defined.

(** ** The builds compared *)

Lemma app_one_neq {A} (l : list A) x : l ++ [x] <> l.
Proof.
  intros E. apply (f_equal (@length A)) in E. rewrite length_app in E. cbn in E. lia.
Qed.

(** X22. The single-instance build loads what the other builds load,
    unless it logs: [loadTodos] never changes the data file; when it logs
    nothing it returns the list the weighted and simple builds return; when
    it logs, it logs one line and returns the empty list. *)
Theorem loadTodos_builds_agree w :
  dataFile (snd (Main.loadTodos w)) = dataFile w
  /\ (log (snd (Main.loadTodos w)) = log w ->
      fst (Main.loadTodos w) = Weighted.loadTodos w)
  /\ (log (snd (Main.loadTodos w)) <> log w ->
      fst (Main.loadTodos w) = Some []
      /\ exists l, log (snd (Main.loadTodos w)) = log w ++ [l])
  /\ Simple.loadTodos w = Weighted.loadTodos w.
Proof.
  unfold Main.loadTodos, Simple.loadTodos, Weighted.loadTodos.
  assert (Hlog : forall l, log (addLog l w) <> log w ->
            Some [] = Some (@nil Todo)
            /\ exists l', log (addLog l w) = log w ++ [l']).
  { intros l _. split; [reflexivity | now exists l]. }
  assert (Hneq : forall l (ts : TodoSlice), log (addLog l w) = log w -> Some [] = ts).
  { intros l ts E. cbn in E. now apply app_one_neq in E. }
  destruct (Os.IsNotExist _).
  - cbn. split; [reflexivity|]. split; [reflexivity|]. split; [congruence | reflexivity].
  - destruct (Os.ReadFile _) as [data [e|]].
    + cbn [fst snd]. split; [reflexivity|]. split; [apply Hneq|].
      split; [apply Hlog | reflexivity].
    + destruct (Unmarshal data) as [ts [e|]]; cbn [fst snd].
      * split; [reflexivity|]. split; [apply Hneq|].
        split; [apply Hlog | reflexivity].
      * split; [reflexivity|]. split; [reflexivity|]. split; [congruence | reflexivity].
Qed.

Lemma loadTodos_builds_agree_witness :
  fst (Main.loadTodos (world0 (Os.Present mixedData true))) = Some []
  /\ exists l, log (snd (Main.loadTodos (world0 (Os.Present mixedData true))))
               = log (world0 (Os.Present mixedData true)) ++ [l].
Proof.
  apply (proj1 (proj2 (proj2 (loadTodos_builds_agree (world0 (Os.Present mixedData true)))))).
  vm_compute. discriminate.
Defined.

(** A file the builds load differently: the weighted build keeps what was
    decoded, the single-instance build nothing. *)
Example loadTodos_builds_differ :
  Weighted.loadTodos (world0 (Os.Present mixedData true))
  = Some [mkTodo (bs "a"); mkTodo []]
  /\ fst (Main.loadTodos (world0 (Os.Present mixedData true))) = Some [].
Proof. split; reflexivity. Qed.

(** ** The bytes of the saved file *)

Lemma hex_bytes_ok :
  forallb (fun k => textByteOk (hex (Z.of_nat k))) (seq 0 16) = true.
Proof. reflexivity. Qed.

Lemma hex_ok n : 0 <= n < 16 -> textByteOk (hex n) = true.
Proof.
  intros H. pose proof hex_bytes_ok as T. rewrite forallb_forall in T.
  specialize (T (Z.to_nat n)). rewrite Z2Nat.id in T by lia.
  apply T, in_seq. lia.
Qed.

Lemma textByteOk_high c : 0x80 <= b2z c -> textByteOk c = true.
Proof. intros H. unfold textByteOk. lia. Qed.

Lemma htmlSafe_ok c : htmlSafe (b2z c) = true -> textByteOk c = true.
Proof. unfold htmlSafe, textByteOk. lia. Qed.

Lemma escapeByte_ok c : b2z c < 0x80 -> htmlSafe (b2z c) = false ->
  forallb textByteOk (escapeByte c) = true.
Proof.
  intros Hc Hs. pose proof (b2z_range c) as Hr. unfold escapeByte.
  destruct ((b2z c =? 0x5c) || (b2z c =? 0x22)) eqn:E1.
  { cbn [forallb]. replace (textByteOk c) with true; [reflexivity|].
    symmetry. unfold textByteOk. lia. }
  repeat match goal with |- context [if ?b then _ else _] => destruct b; [reflexivity|] end.
  cbn [forallb]. rewrite !hex_ok; [reflexivity | |].
  - rewrite Z.land_ones with (n := 4) by lia. apply Z.mod_pos_bound. lia.
  - rewrite Z.shiftr_div_pow2 by lia. change (2 ^ 4) with 16.
    split; [apply Z.div_pos; lia | apply Z.div_lt_upper_bound; lia].
Qed.

Lemma appendString_fuel_ok fuel : forall s,
  forallb textByteOk (appendString_fuel fuel s) = true.
Proof.
  induction fuel as [|fuel IH]; intros s; [reflexivity|].
  destruct s as [|c rest]; [reflexivity|]. cbn [appendString_fuel].
  destruct (b2z c <? RuneSelf) eqn:Ea.
  - rewrite forallb_app, IH, andb_true_r.
    destruct (htmlSafe (b2z c)) eqn:Es.
    + cbn [forallb]. now rewrite htmlSafe_ok.
    + apply escapeByte_ok; [unfold RuneSelf in Ea; lia | exact Es].
  - destruct (DecodeRune (c :: rest)) as [r size] eqn:Ed.
    rewrite forallb_app, IH, andb_true_r.
    destruct ((r =? RuneError) && (size =? 1)%nat) eqn:Ee; [reflexivity|].
    destruct ((r =? 0x2028) || (r =? 0x2029)) eqn:El.
    + cbn [forallb]. rewrite hex_ok; [reflexivity|].
      rewrite Z.land_ones with (n := 4) by lia. apply Z.mod_pos_bound. lia.
    + assert (Hh : RuneSelf <= b2z (hd x00 (c :: rest))) by (cbn [hd]; lia).
      destruct (DecodeRune_high (c :: rest) r size ltac:(discriminate) Hh Ed)
        as [[-> ->] | (Hv & Hr & He & _)]; [discriminate Ee|].
      rewrite <- He. apply forallb_forall. intros x Hx.
      apply textByteOk_high. pose proof (EncodeRune_high r Hv Hr) as HF.
      rewrite Forall_forall in HF. now apply HF.
Qed.

Lemma appendString_ok s : forallb textByteOk (appendString s) = true.
Proof.
  unfold appendString. rewrite !forallb_app, appendString_fuel_ok. reflexivity.
Qed.

Lemma textByteOk_file l : forallb textByteOk l = true -> forallb fileByteOk l = true.
Proof.
  intros H. apply forallb_forall. intros x Hx. rewrite forallb_forall in H.
  unfold fileByteOk. now rewrite (H x Hx), orb_true_r.
Qed.

Lemma lineFeeds_app a b : lineFeeds (a ++ b) = (lineFeeds a + lineFeeds b)%nat.
Proof. unfold lineFeeds. now rewrite filter_app, length_app. Qed.

Lemma lineFeeds_text l : forallb textByteOk l = true -> lineFeeds l = 0%nat.
Proof.
  induction l as [|c l IH]; [reflexivity|]. cbn [forallb]. intros H.
  apply andb_prop in H as [Hc Hl]. unfold lineFeeds in *. cbn [filter].
  destruct (Byte.eqb c x0a) eqn:E; [|now apply IH].
  apply Byte.byte_dec_bl in E. subst c. discriminate Hc.
Qed.

Lemma marshalElem_ok t :
  forallb fileByteOk (marshalElem t) = true /\ lineFeeds (marshalElem t) = 3%nat.
Proof.
  unfold marshalElem. split.
  - rewrite !forallb_app, (textByteOk_file _ (appendString_ok (Text t))). reflexivity.
  - rewrite !lineFeeds_app, (lineFeeds_text _ (appendString_ok (Text t))). reflexivity.
Qed.

Lemma marshalElems_ok l :
  forallb fileByteOk (marshalElems l) = true
  /\ lineFeeds (marshalElems l) = (3 * length l)%nat.
Proof.
  induction l as [|t l [IH1 IH2]]; [split; reflexivity|].
  destruct (marshalElem_ok t) as [H1 H2].
  destruct l as [|t' l'].
  - cbn [marshalElems length]. split; [exact H1 | rewrite H2; reflexivity].
  - change (marshalElems (t :: t' :: l'))
      with (marshalElem t ++ bs "," ++ marshalElems (t' :: l')).
    split.
    + rewrite !forallb_app, H1, IH1. reflexivity.
    + rewrite !lineFeeds_app, H2, IH2. cbn [length]. change (lineFeeds (bs ",")) with 0%nat. lia.
Qed.

(** X23. Whatever the texts, the file [saveTodos] writes, in each of the
    three builds, holds no byte below 0x20 but the line feeds of its layout
    and none of the ampersand and the angle brackets, and it has three line
    feeds per to-do and one more: a new line in a text is written as an
    escape and never breaks a line of the file.  Nothing is said of the
    byte 0x7F, which is written as it is (see [saved_file_del]). *)
Theorem saved_file_bytes w L : dataWritable w = true ->
  exists data r,
    dataFile (Main.saveTodos L w) = Os.Present data r
    /\ dataFile (Weighted.saveTodos L w) = Os.Present data r
    /\ dataFile (Simple.saveTodos L w) = Os.Present data r
    /\ (forall c, In c data ->
          c = x0a \/ (0x20 <= b2z c /\ b2z c <> 0x26 /\ b2z c <> 0x3c /\ b2z c <> 0x3e))
    /\ forallb fileByteOk data = true
    /\ lineFeeds data = match elems L with
                        | [] => 0%nat
                        | l => (3 * length l + 1)%nat
                        end.
Proof.
  intros Hw.
  assert (Hd : forallb fileByteOk (MarshalIndent L) = true
               /\ lineFeeds (MarshalIndent L)
                  = match elems L with [] => 0%nat | l => (3 * length l + 1)%nat end).
  { destruct L as [[|t l]|]; [split; reflexivity | | split; reflexivity].
    cbn [elems]. unfold MarshalIndent.
    destruct (marshalElems_ok (t :: l)) as [H1 H2]. split.
    - rewrite !forallb_app, H1. reflexivity.
    - rewrite !lineFeeds_app, H2. change (lineFeeds (bs "[")) with 0%nat.
      change (lineFeeds [x0a]) with 1%nat. change (lineFeeds (bs "]")) with 0%nat.
      cbn [length]. lia. }
  exists (MarshalIndent L).
  exists (match dataFile w with Os.Absent => true | Os.Present _ r => r end).
  assert (Hb : forall c, In c (MarshalIndent L) ->
            c = x0a \/ (0x20 <= b2z c /\ b2z c <> 0x26 /\ b2z c <> 0x3c /\ b2z c <> 0x3e)).
  { intros c Hc. destruct Hd as [Hd _]. rewrite forallb_forall in Hd.
    specialize (Hd c Hc). unfold fileByteOk, textByteOk in Hd.
    destruct (Byte.eqb c x0a) eqn:E; [left; now apply Byte.byte_dec_bl in E|].
    right. cbn [orb] in Hd. lia. }
  unfold Simple.saveTodos, Main.saveTodos, Weighted.saveTodos, Os.WriteFile. rewrite Hw.
  destruct Hd as [Hd1 Hd2].
  destruct (dataFile w); cbn; (split; [reflexivity|]); (split; [reflexivity|]);
    (split; [reflexivity|]); (split; [exact Hb|]); (split; [exact Hd1 | exact Hd2]).
Qed.

Lemma saved_file_bytes_witness :
  exists data r,
    dataFile (Main.saveTodos sampleList (world0 Os.Absent)) = Os.Present data r
    /\ dataFile (Weighted.saveTodos sampleList (world0 Os.Absent)) = Os.Present data r
    /\ dataFile (Simple.saveTodos sampleList (world0 Os.Absent)) = Os.Present data r
    /\ (forall c, In c data ->
          c = x0a \/ (0x20 <= b2z c /\ b2z c <> 0x26 /\ b2z c <> 0x3c /\ b2z c <> 0x3e))
    /\ forallb fileByteOk data = true
    /\ lineFeeds data = match elems sampleList with
                        | [] => 0%nat
                        | l => (3 * length l + 1)%nat
                        end.
Proof. apply (saved_file_bytes (world0 Os.Absent) sampleList). reflexivity. Defined.

(** The byte 0x7F of a text is written as it is, and read back as it is. *)
Example saved_file_del :
  dataFile (Main.saveTodos (Some [mkTodo [x7f]]) (world0 Os.Absent))
  = Os.Present (bs "[" ++ [x0a] ++ bs "  {" ++ [x0a] ++ bs "    " ++ [x22] ++ bs "text"
                ++ [x22] ++ bs ": " ++ [x22; x7f; x22; x0a] ++ bs "  }" ++ [x0a] ++ bs "]")
               true
  /\ fst (Main.loadTodos (Main.saveTodos (Some [mkTodo [x7f]]) (world0 Os.Absent)))
     = Some [mkTodo [x7f]].
Proof. split; vm_compute; reflexivity. Qed.

(** ** More on the socket *)

Lemma asciiSpace_ascii b : Strings.asciiSpace b = true -> b < RuneSelf.
Proof. unfold Strings.asciiSpace, RuneSelf. lia. Qed.

Lemma TrimSpace_skip pre s : Forall (fun c => Strings.asciiSpace (b2z c) = true) pre ->
  Strings.TrimSpace (pre ++ s) = Strings.TrimSpace s.
Proof.
  induction 1 as [|c pre Hc _ IH]; [reflexivity|]. cbn [app Strings.TrimSpace].
  pose proof (asciiSpace_ascii _ Hc).
  destruct (b2z c >=? RuneSelf) eqn:E; [lia|]. now rewrite Hc.
Qed.

Lemma trimStop_skip q rs : Forall (fun c => Strings.asciiSpace (b2z c) = true) q ->
  Strings.trimStop (q ++ rs) = Strings.trimStop rs.
Proof.
  induction 1 as [|c q Hc _ IH]; [reflexivity|]. cbn [app Strings.trimStop].
  pose proof (asciiSpace_ascii _ Hc).
  destruct (b2z c >=? RuneSelf) eqn:E; [lia|]. now rewrite Hc.
Qed.

(** [TrimSpace] removes the ASCII white space around the message. *)
Lemma TrimSpace_show pre post :
  Forall (fun c => Strings.asciiSpace (b2z c) = true) pre ->
  Forall (fun c => Strings.asciiSpace (b2z c) = true) post ->
  Strings.TrimSpace (pre ++ bs "show" ++ post) = bs "show".
Proof.
  intros Hpre Hpost. rewrite TrimSpace_skip by exact Hpre.
  change (bs "show" ++ post) with (x73 :: (bs "how" ++ post)).
  cbn [Strings.TrimSpace]. change (b2z x73 >=? RuneSelf) with false.
  change (Strings.asciiSpace (b2z x73)) with false. cbv iota.
  change (x73 :: bs "how" ++ post) with (bs "show" ++ post).
  rewrite rev_app_distr, trimStop_skip.
  - reflexivity.
  - apply Forall_rev. exact Hpost.
Qed.

Lemma padByte_line pre post : Forall padByte pre -> Forall padByte post ->
  ~ In x0a (pre ++ bs "show" ++ post).
Proof.
  intros Hpre Hpost Hin. apply in_app_or in Hin as [Hin | Hin].
  - rewrite Forall_forall in Hpre. now apply (Hpre _ Hin).
  - apply in_app_or in Hin as [Hin | Hin].
    + cbn in Hin. repeat destruct Hin as [Hin | Hin]; discriminate || exact Hin.
    + rewrite Forall_forall in Hpost. now apply (Hpost _ Hin).
Qed.

Lemma padByte_space l : Forall padByte l ->
  Forall (fun c => Strings.asciiSpace (b2z c) = true) l.
Proof. apply Forall_impl. now intros c [H _]. Qed.

(** X24. The handler reads the first line of a connection and nothing
    else: what the peer sends after the first new line changes nothing,
    so a peer that sends the message twice activates the window once. *)
Theorem handleSocketConnection_first_line line rest w : ~ In x0a line ->
  Main.handleSocketConnection (mkConn (line ++ x0a :: rest)) w
  = Main.handleSocketConnection (mkConn (line ++ [x0a])) w.
Proof.
  intros Hl. unfold Main.handleSocketConnection. cbn [incoming].
  now rewrite !ReadString_line.
Qed.

Lemma handleSocketConnection_first_line_witness :
  Main.handleSocketConnection (mkConn (bs "show" ++ x0a :: showLine)) (world0 Os.Absent)
  = Main.handleSocketConnection (mkConn (bs "show" ++ [x0a])) (world0 Os.Absent).
Proof.
  apply (handleSocketConnection_first_line (bs "show") showLine (world0 Os.Absent)).
  cbn. intuition discriminate.
Defined.

(** X25. A first line that is [show] between any ASCII white space (tabs,
    carriage returns, spaces, ...) activates the window, and the message
    logged is [show]; so does the line a peer ends with a carriage return
    and a new line. *)
Theorem handleSocketConnection_padded pre post rest w :
  Forall padByte pre -> Forall padByte post ->
  let w' := Main.handleSocketConnection
              (mkConn (pre ++ bs "show" ++ post ++ x0a :: rest)) w in
  activated w w' /\ log w' = log w ++ [LogReceivedSignal (bs "show")].
Proof.
  intros Hpre Hpost. cbv zeta. unfold Main.handleSocketConnection. cbn [incoming].
  replace (pre ++ bs "show" ++ post ++ x0a :: rest)
    with ((pre ++ bs "show" ++ post) ++ x0a :: rest) by now rewrite <- !app_assoc.
  rewrite ReadString_line by now apply padByte_line.
  replace ((pre ++ bs "show" ++ post) ++ [x0a])
    with (pre ++ bs "show" ++ (post ++ [x0a])) by now rewrite <- !app_assoc.
  rewrite TrimSpace_show.
  - cbn. split; reflexivity.
  - now apply padByte_space.
  - apply Forall_app. split; [now apply padByte_space | now repeat constructor].
Qed.

Lemma handleSocketConnection_padded_witness :
  activated (world0 Os.Absent)
    (Main.handleSocketConnection
       (mkConn ([x09; x20] ++ bs "show" ++ [x0d] ++ x0a :: [])) (world0 Os.Absent)).
Proof.
  apply (handleSocketConnection_padded [x09; x20] [x0d] [] (world0 Os.Absent)).
  - repeat constructor; discriminate.
  - repeat constructor; discriminate.
Defined.

Lemma OnChanged_flags Han s a :
  showWindowSet (Main.OnChanged Han s a) = showWindowSet a
  /\ inputWinSet (Main.OnChanged Han s a) = inputWinSet a.
Proof. unfold Main.OnChanged. destruct (_ >? _); split; reflexivity. Qed.

(** X26. The hand-off works end to end: the line a secondary instance
    delivers when its write succeeds is a line on which the handler of the
    primary, in any state, queues the activation.  The task so queued
    never changes the list; it shows the window when it runs in a state
    where [main] has set [showWindow] and [inputWin], and does nothing when
    it runs before.  The state the primary starts in is such a state, and
    every callback leads from such a state to such a state. *)
Theorem handshake_activates (Han : Unicode.RangeTable) (w wp : World) (a : App) :
  listening w = true -> connWriteOk w = true ->
  exists w' line,
    Main.main Han w = Main.Exited 0 w'
    /\ delivered w' = delivered w ++ [line]
    /\ activated wp (Main.handleSocketConnection (mkConn line) wp)
    /\ In TaskShowWindow (uiQueue (Main.handleSocketConnection (mkConn line) wp))
    /\ todos (Main.runUiTask TaskShowWindow a) = todos a
    /\ (uiReady a -> windowShown (Main.runUiTask TaskShowWindow a) = true)
    /\ (~ uiReady a -> Main.runUiTask TaskShowWindow a = a)
    /\ (forall w0, uiReady (Main.startPrimary Han w0))
    /\ (uiReady a ->
        (forall s, uiReady (Main.OnChanged Han s a))
        /\ (forall text, uiReady (Main.OnSubmitted Han text a))
        /\ (forall act, uiReady (Main.runAction Han act a))
        /\ (forall t, uiReady (Main.runUiTask t a))).
Proof.
  intros Hl Hc. unfold Main.main, Main.runSingleInstanceCheck. rewrite Hl, Hc.
  eexists. exists (bs "show" ++ [x0a]). split; [reflexivity|].
  split; [reflexivity|]. split; [reflexivity|].
  split; [cbn; apply in_or_app; right; now left|].
  unfold uiReady, Main.runUiTask, Main.showWindow.
  split; [now destruct (showWindowSet a), (inputWinSet a)|].
  split; [intros [-> ->]; reflexivity|].
  split.
  { intros H. destruct (showWindowSet a), (inputWinSet a); try reflexivity.
    exfalso. apply H. split; reflexivity. }
  split.
  { intros w0. unfold Main.startPrimary. destruct (Main.loadTodos w0). split; reflexivity. }
  intros [Hs Hi]. split; [|split; [|split]].
  - intros s. destruct (OnChanged_flags Han s a) as [-> ->]. now split.
  - intros text. destruct text; cbn; now split.
  - intros act. destruct act; cbn; now split.
  - intros t. destruct t. rewrite Hs, Hi. cbn. now split.
Qed.

Lemma handshake_activates_witness :
  exists w' line,
    Main.main Unicode.Han (secondaryWorld true) = Main.Exited 0 w'
    /\ delivered w' = delivered (secondaryWorld true) ++ [line]
    /\ activated (world0 Os.Absent)
         (Main.handleSocketConnection (mkConn line) (world0 Os.Absent))
    /\ windowShown (Main.runUiTask TaskShowWindow sampleApp) = true.
Proof.
  destruct (handshake_activates Unicode.Han (secondaryWorld true) (world0 Os.Absent)
              sampleApp eq_refl eq_refl)
    as (w' & line & H1 & H2 & H3 & _ & _ & H6 & _).
  exists w', line. split; [exact H1|]. split; [exact H2|]. split; [exact H3|].
  apply H6. split; reflexivity.
Defined.

(** Run before [main] has set [showWindow], the task leaves the state as
    it is. *)
Example runUiTask_early : Main.runUiTask TaskShowWindow earlyApp = earlyApp.
Proof. reflexivity. Qed.

(** ** The width of the rows *)

(** X27. No row of the tray is wider than the display budget plus three:
    with the table [unicode.Han] of the library the label of a row weighs
    at most [maxShowWeight + 3] in the single-instance build and in the
    weighted build (two units for the box and the space in front, one for
    the ellipsis), and in the simple build it has at most [showLen + 3]
    runes.  The placeholder is within these bounds. *)
Theorem menu_rows_width ts label act :
  (In (Item label act) (Main.menuRows Unicode.Han ts) ->
   getWeight Unicode.Han label <= Main.maxShowWeight + 3)
  /\ (In (Item label act) (Weighted.menuRows Unicode.Han ts) ->
      getWeight Unicode.Han label <= Weighted.maxShowWeight + 3)
  /\ (In (Item label act) (Simple.menuRows ts) ->
      RuneCountInString label <= Z.of_nat Simple.showLen + 3).
Proof.
  assert (H : forall m l, 10 <= m + 3 -> 0 <= m ->
            In (Item label act)
               (match l with
                | [] => [Item emptyLabel None]
                | x :: l' =>
                  map (fun t => Item (rowPrefix ++ truncateByWeightWithEllipsis
                                                     Unicode.Han (Text t) m)
                                     (Some (ActDelete (Text t)))) (x :: l')
                end) ->
            getWeight Unicode.Han label <= m + 3).
  { intros m l Hm H0 Hin. destruct l as [|t0 l0].
    - destruct Hin as [E | []].
      assert (El : label = emptyLabel) by congruence.
      rewrite El. change (getWeight Unicode.Han emptyLabel) with 10. lia.
    - apply in_map_iff in Hin as (t & E & _).
      assert (El : label = rowPrefix ++ truncateByWeightWithEllipsis Unicode.Han (Text t) m)
        by congruence.
      rewrite El. clear E El.
      rewrite !getWeight_runesWeight, runes_app_valid by reflexivity.
      rewrite runesWeight_app, <- !getWeight_runesWeight.
      change (getWeight Unicode.Han rowPrefix) with 2.
      pose proof (ellipsis_result_weight Unicode.Han (Text t) m H0) as Hw.
      change (itemW Unicode.Han 8230) with 1 in Hw. lia. }
  split; [|split]; intros Hin.
  - apply (H Main.maxShowWeight (elems ts)); [discriminate | discriminate | exact Hin].
  - apply (H Weighted.maxShowWeight (elems ts)); [discriminate | discriminate | exact Hin].
  - unfold Simple.menuRows in Hin. destruct (elems ts) as [|t0 l0].
    + destruct Hin as [E | []].
      assert (El : label = emptyLabel) by congruence.
      rewrite El. vm_compute. discriminate.
    + apply in_map_iff in Hin as (t & E & _).
      assert (El : label = rowPrefix ++ Simple.shorten (Text t) Simple.showLen)
        by congruence.
      rewrite El. unfold RuneCountInString.
      rewrite runes_app_valid, length_app by reflexivity.
      change (length (runes rowPrefix)) with 2%nat.
      pose proof (shorten_runes_le (Text t) Simple.showLen). lia.
Qed.

Lemma menu_rows_width_witness :
  getWeight Unicode.Han (rowPrefix ++ bs "a") <= Main.maxShowWeight + 3.
Proof.
  apply (proj1 (menu_rows_width (todos sampleApp) (rowPrefix ++ bs "a")
                  (Some (ActDelete (bs "a"))))).
  left. reflexivity.
Defined.

(** ** The paths *)

Section PathFacts.

Import Filepath.

Lemma IsPathSeparator_true c : IsPathSeparator c = true <-> c = Separator.
Proof.
  unfold IsPathSeparator. split; [apply Byte.byte_dec_bl | apply Byte.byte_dec_lb].
Qed.

Lemma IsPathSeparator_false c : IsPathSeparator c = false <-> c <> Separator.
Proof.
  rewrite <- IsPathSeparator_true. destruct (IsPathSeparator c); split; congruence.
Qed.

Lemma copyElem_plain c : forall rest out, ~ In Separator c -> endsElem rest = true ->
  copyElem (c ++ rest) out = (rest, out ++ c).
Proof.
  induction c as [|x c IH]; intros rest out Hc Hr.
  - rewrite app_nil_r. destruct rest as [|y rest]; [reflexivity|].
    cbn in *. now rewrite Hr.
  - cbn [app copyElem].
    replace (IsPathSeparator x) with false.
    2:{ symmetry. apply IsPathSeparator_false. intros ->. apply Hc. now left. }
    rewrite IH; [|intros H; apply Hc; now right | exact Hr].
    now rewrite <- app_assoc.
Qed.

Lemma cleanLoop_sep fuel rest out d :
  cleanLoop (S fuel) true (Separator :: rest) out d = cleanLoop fuel true rest out d.
Proof. reflexivity. Qed.

(** A turn of the loop of [Clean] at the start of a plain element. *)
Lemma cleanLoop_elem fuel c rest out d : plainElem c -> endsElem rest = true ->
  cleanLoop (S fuel) true (c ++ rest) out d = cleanLoop fuel true rest (extendPath out c) d.
Proof.
  intros (Hne & Hsep & Hdot & Hdd) Hr.
  destruct c as [|c0 c'] eqn:Ec; [congruence|]. rewrite <- Ec in *.
  assert (H0 : IsPathSeparator c0 = false).
  { apply IsPathSeparator_false. intros ->. apply Hsep. rewrite Ec. now left. }
  assert (Hsep' : ~ In Separator c') by (intros H; apply Hsep; rewrite Ec; now right).
  assert (Hstep : forall X, (let (rest', out2) := copyElem (c ++ rest)
                                 (if true && negb (length out =? 1)%nat
                                     || negb true && negb (length out =? 0)%nat
                                  then out ++ [Separator] else out)
                             in cleanLoop fuel true rest' out2 d) = X ->
                            cleanLoop fuel true rest (extendPath out c) d = X).
  { intros X <-. rewrite copyElem_plain by assumption. unfold extendPath.
    cbn [andb negb orb]. rewrite orb_false_r. now destruct (length out =? 1)%nat. }
  symmetry. apply Hstep. rewrite Ec. cbn [app cleanLoop]. rewrite H0.
  destruct (Byte.eqb c0 x2e) eqn:Edot; cbn [andb]; [|reflexivity].
  apply Byte.byte_dec_bl in Edot. subst c0.
  destruct c' as [|c1 c'']; [exfalso; apply Hdot; now rewrite Ec|].
  assert (H1 : IsPathSeparator c1 = false).
  { apply IsPathSeparator_false. intros ->. apply Hsep'. now left. }
  cbn [app endsElem]. rewrite H1.
  destruct (Byte.eqb c1 x2e) eqn:Edot1; cbn [andb]; [|reflexivity].
  apply Byte.byte_dec_bl in Edot1. subst c1.
  destruct c'' as [|c2 c3]; [exfalso; apply Hdd; now rewrite Ec|].
  cbn [app endsElem].
  replace (IsPathSeparator c2) with false; [reflexivity|].
  symmetry. apply IsPathSeparator_false. intros ->. apply Hsep'. right. now left.
Qed.

Lemma absPath_cons c cs : absPath (c :: cs) = Separator :: c ++ absPath cs.
Proof. reflexivity. Qed.

Lemma absPath_app a b : absPath (a ++ b) = absPath a ++ absPath b.
Proof. unfold absPath. now rewrite map_app, concat_app. Qed.

Lemma endsElem_absPath cs tail : endsElem tail = true -> endsElem (absPath cs ++ tail) = true.
Proof. destruct cs as [|c cs]; [now cbn|]. intros _. reflexivity. Qed.

Lemma endsElem_seps k : endsElem (repeat Separator k) = true.
Proof. destruct k; reflexivity. Qed.

Lemma cleanLoop_elems cs : forall fuel tail out d, Forall plainElem cs ->
  endsElem tail = true -> (2 * length cs <= fuel)%nat ->
  cleanLoop fuel true (absPath cs ++ tail) out d
  = cleanLoop (fuel - 2 * length cs) true tail (fold_left extendPath cs out) d.
Proof.
  induction cs as [|c cs IH]; intros fuel tail out d Hp Ht Hf.
  - cbn [absPath map concat app fold_left length]. now rewrite Nat.sub_0_r.
  - pose proof (Forall_inv Hp) as Hc. pose proof (Forall_inv_tail Hp) as Hcs.
    cbn [length] in Hf. destruct fuel as [|[|fuel]]; try lia.
    rewrite absPath_cons. cbn [app]. rewrite cleanLoop_sep, <- app_assoc.
    rewrite cleanLoop_elem by (try assumption; now apply endsElem_absPath).
    rewrite IH by (try assumption; lia). cbn [fold_left length].
    f_equal. lia.
Qed.

Lemma cleanLoop_seps fuel : forall k out d,
  cleanLoop fuel true (repeat Separator k) out d = out.
Proof.
  induction fuel as [|fuel IH]; intros k out d; [reflexivity|].
  destruct k as [|k]; [reflexivity|]. cbn [repeat]. now rewrite cleanLoop_sep.
Qed.

Lemma extendPath_long out c : (2 <= length out)%nat ->
  extendPath out c = out ++ Separator :: c.
Proof.
  intros H. unfold extendPath.
  destruct (length out =? 1)%nat eqn:E; [apply Nat.eqb_eq in E; lia|].
  now rewrite <- app_assoc.
Qed.

Lemma fold_extendPath_long cs : forall out, (2 <= length out)%nat ->
  fold_left extendPath cs out = out ++ absPath cs.
Proof.
  induction cs as [|c cs IH]; intros out H; cbn [fold_left].
  - cbn. now rewrite app_nil_r.
  - rewrite IH, extendPath_long by (rewrite ?extendPath_long, ?length_app by exact H; cbn; lia).
    rewrite absPath_cons, <- app_assoc. reflexivity.
Qed.

Lemma fold_extendPath_root cs : Forall plainElem cs ->
  fold_left extendPath cs [Separator]
  = match cs with [] => [Separator] | _ => absPath cs end.
Proof.
  destruct cs as [|c cs]; [reflexivity|]. intros Hp. cbn [fold_left].
  destruct (Forall_inv Hp) as (Hne & _).
  change (extendPath [Separator] c) with (Separator :: c).
  rewrite fold_extendPath_long.
  - reflexivity.
  - destruct c; [congruence | cbn; lia].
Qed.

Lemma absPath_length cs : Forall plainElem cs -> (2 * length cs <= length (absPath cs))%nat.
Proof.
  induction 1 as [|c cs (Hne & _) _ IH]; [cbn; lia|].
  rewrite absPath_cons. cbn [length]. rewrite length_app.
  destruct c; [congruence|]. cbn [length]. lia.
Qed.

(** [Clean] of plain elements behind two separators, with any number of
    separators at the end. *)
Lemma Clean_rooted cs k : Forall plainElem cs ->
  Clean (Separator :: absPath cs ++ repeat Separator k)
  = match cs with [] => [Separator] | _ => absPath cs end.
Proof.
  intros Hp. unfold Clean.
  change (IsPathSeparator Separator) with true. cbv iota.
  rewrite cleanLoop_elems.
  - rewrite cleanLoop_seps, fold_extendPath_root by exact Hp.
    destruct cs as [|c cs]; [reflexivity|]. rewrite absPath_cons. reflexivity.
  - exact Hp.
  - apply endsElem_seps.
  - cbn [length]. rewrite length_app. pose proof (absPath_length cs Hp). lia.
Qed.

(** [Clean] of an absolute path of plain elements, with any number of
    separators at the end. *)
Lemma Clean_elems c cs k : plainElem c -> Forall plainElem cs ->
  Clean (absPath (c :: cs) ++ repeat Separator k) = absPath (c :: cs).
Proof.
  intros Hc Hcs. rewrite absPath_cons. unfold Clean. cbn [app].
  change (IsPathSeparator Separator) with true. cbv iota.
  pose proof (absPath_length cs Hcs) as Hl.
  assert (Hne : c <> []) by apply Hc.
  destruct c as [|c0 c'] eqn:Ec; [congruence|]. rewrite <- Ec in *.
  assert (Hlen : (length (Separator :: (c ++ absPath cs) ++ repeat Separator k)
                  = S (S (length c' + length (absPath cs) + k)))%nat).
  { rewrite Ec. cbn [length app]. rewrite !length_app, repeat_length. lia. }
  rewrite Hlen, <- app_assoc.
  rewrite cleanLoop_elem
    by (try assumption; apply endsElem_absPath, endsElem_seps).
  change (extendPath [Separator] c) with (Separator :: c).
  rewrite cleanLoop_elems by (try assumption; try apply endsElem_seps; lia).
  rewrite cleanLoop_seps, fold_extendPath_long by (rewrite Ec; cbn; lia).
  rewrite Ec. reflexivity.
Qed.

Lemma lastSeparator_found q : forall p extra, ~ In Separator q ->
  lastSeparator (length (p ++ Separator :: q)) (p ++ Separator :: q ++ extra)
  = S (length p).
Proof.
  induction q as [|x q IH] using rev_ind; intros p extra Hq.
  - rewrite length_app. cbn [length]. rewrite Nat.add_1_r. cbn [lastSeparator].
    rewrite app_nth2, Nat.sub_diag by lia. reflexivity.
  - assert (El : (length (p ++ Separator :: q ++ [x])
                  = S (length (p ++ Separator :: q)))%nat).
    { rewrite !length_app. cbn [length]. rewrite length_app. cbn. lia. }
    rewrite El. cbn [lastSeparator].
    replace (p ++ Separator :: (q ++ [x]) ++ extra)
      with ((p ++ Separator :: q) ++ x :: extra)
      by (rewrite <- !app_assoc; reflexivity).
    rewrite app_nth2, Nat.sub_diag by lia. cbn [nth].
    replace (IsPathSeparator x) with false.
    2:{ symmetry. apply IsPathSeparator_false. intros ->.
        apply Hq, in_or_app. right. now left. }
    replace ((p ++ Separator :: q) ++ x :: extra) with (p ++ Separator :: q ++ x :: extra)
      by (rewrite <- !app_assoc; reflexivity).
    apply IH. intros H. apply Hq, in_or_app. now left.
Qed.

(** [Dir] of an absolute path of plain elements. *)
Lemma Dir_absPath cs prog : Forall plainElem cs -> plainElem prog ->
  Dir (absPath (cs ++ [prog])) = match cs with [] => [Separator] | _ => absPath cs end.
Proof.
  intros Hcs (_ & Hsep & _). unfold Dir.
  rewrite absPath_app. change (absPath [prog]) with (Separator :: prog ++ []).
  rewrite app_nil_r.
  pose proof (lastSeparator_found prog (absPath cs) [] Hsep) as H.
  rewrite app_nil_r in H. rewrite H.
  replace (firstn (S (length (absPath cs))) (absPath cs ++ Separator :: prog))
    with (absPath cs ++ [Separator]).
  2:{ replace (absPath cs ++ Separator :: prog) with ((absPath cs ++ [Separator]) ++ prog)
        by now rewrite <- app_assoc.
      rewrite firstn_app, firstn_all2 by (rewrite length_app; cbn; lia).
      rewrite length_app. cbn [length].
      replace (S (length (absPath cs)) - (length (absPath cs) + 1))%nat with 0%nat by lia.
      now rewrite firstn_O, app_nil_r. }
  destruct cs as [|c cs]; [reflexivity|].
  apply (Clean_elems c cs 1); [exact (Forall_inv Hcs) | exact (Forall_inv_tail Hcs)].
Qed.

(** [Join] of a directory [Dir] returned and a plain name. *)
Lemma Join_dir_name cs name : Forall plainElem cs -> plainElem name ->
  Join [match cs with [] => [Separator] | _ => absPath cs end; name]
  = absPath (cs ++ [name]).
Proof.
  intros Hcs Hn. destruct cs as [|c cs].
  - change (Join [[Separator]; name]) with (Clean (Separator :: Separator :: name)).
    replace (Separator :: Separator :: name)
      with (Separator :: absPath [name] ++ repeat Separator 0)
      by (cbn [absPath map concat repeat]; now rewrite !app_nil_r).
    now rewrite Clean_rooted by (now constructor).
  - assert (Hne : absPath (c :: cs) = Separator :: c ++ absPath cs) by reflexivity.
    cbn [Join]. rewrite Hne at 1. cbn [stringsJoin].
    replace (absPath (c :: cs) ++ [Separator] ++ name) with (absPath ((c :: cs) ++ [name])).
    + rewrite <- (app_nil_r (absPath ((c :: cs) ++ [name]))) at 1.
      apply (Clean_elems c (cs ++ [name]) 0); [exact (Forall_inv Hcs)|].
      apply Forall_app. split; [exact (Forall_inv_tail Hcs) | now constructor].
    + rewrite absPath_app. cbn [absPath map concat]. now rewrite app_nil_r.
Qed.

Lemma plain_literal s : s <> [] ->
  forallb (fun c => negb (Byte.eqb c Separator)) s = true ->
  hd x00 s <> x2e -> plainElem s.
Proof.
  intros Hne Hs Hd. repeat split; [exact Hne | | |].
  - intros Hin. rewrite forallb_forall in Hs. specialize (Hs _ Hin).
    now rewrite (Byte.byte_dec_lb eq_refl) in Hs.
  - intros ->. now apply Hd.
  - intros ->. now apply Hd.
Qed.

Lemma plainElem_socket u : ~ In Separator u -> plainElem (bs "todo-app-" ++ u ++ bs ".sock").
Proof.
  intros Hu. repeat split; try discriminate.
  intros H. apply in_app_or in H as [H | H].
  - cbn in H. repeat destruct H as [H | H]; discriminate || exact H.
  - apply in_app_or in H as [H | H]; [now apply Hu|].
    cbn in H. repeat destruct H as [H | H]; discriminate || exact H.
Qed.

Lemma socketPath_user e u : userName e = Some u -> ~ In Separator u ->
  Paths.socketPath (Paths.init e) = bs "/tmp/todo-app-" ++ u ++ bs ".sock".
Proof.
  intros Hu Hs.
  assert (E : Paths.socketPath (Paths.init e)
              = Join [bs "/tmp"; bs "todo-app-" ++ u ++ bs ".sock"]).
  { unfold Paths.init. destruct (Paths.getExecutableDir e); cbn [Paths.socketPath];
      now rewrite Hu. }
  rewrite E.
  change (bs "/tmp")
    with (match [bs "tmp"] with [] => [Separator] | _ => absPath [bs "tmp"] end).
  rewrite Join_dir_name.
  - rewrite absPath_app. cbn [absPath map concat app]. now rewrite !app_nil_r.
  - constructor; [|constructor].
    apply plain_literal; [discriminate | reflexivity | discriminate].
  - now apply plainElem_socket.
Qed.

(** X28. The socket is in [/tmp] under the name of the user: for a user
    name without a separator the path is [/tmp/todo-app-], the name and
    [.sock], so two users have the same socket only if they have the same
    name. *)
Theorem socketPath_per_user e1 e2 u1 u2 :
  userName e1 = Some u1 -> userName e2 = Some u2 ->
  ~ In Filepath.Separator u1 -> ~ In Filepath.Separator u2 ->
  Paths.socketPath (Paths.init e1) = bs "/tmp/todo-app-" ++ u1 ++ bs ".sock"
  /\ (Paths.socketPath (Paths.init e1) = Paths.socketPath (Paths.init e2) <-> u1 = u2).
Proof.
  intros H1 H2 S1 S2.
  rewrite (socketPath_user e1 u1 H1 S1), (socketPath_user e2 u2 H2 S2).
  split; [reflexivity|]. split; [|now intros ->].
  intros E. apply app_inv_head in E. now apply app_inv_tail in E.
Qed.

(** X29. The data file and the icon file are beside the executable: when
    [os.Executable] returns an absolute path of plain elements, the
    configuration directory is the directory of the executable, the two
    files are [todo.json] and [tray.png] in it, and no warning is
    logged. *)
Theorem files_beside_executable e cs prog :
  executable e = Some (absPath (cs ++ [prog])) ->
  Forall plainElem cs -> plainElem prog ->
  let p := Paths.init e in
  Paths.configDir p = match cs with [] => [Filepath.Separator] | _ => absPath cs end
  /\ Paths.dataFile p = absPath (cs ++ [bs "todo.json"])
  /\ Paths.iconFile p = absPath (cs ++ [bs "tray.png"])
  /\ Paths.warned p = false
  /\ Filepath.Dir (Paths.dataFile p) = Paths.configDir p
  /\ Filepath.Dir (Paths.iconFile p) = Paths.configDir p.
Proof.
  intros He Hcs Hp. cbv zeta. unfold Paths.init, Paths.getExecutableDir. rewrite He.
  rewrite Dir_absPath by assumption.
  cbn [Paths.configDir Paths.dataFile Paths.iconFile Paths.warned].
  assert (Hj : plainElem (bs "todo.json"))
    by (apply plain_literal; [discriminate | reflexivity | discriminate]).
  assert (Hi : plainElem (bs "tray.png"))
    by (apply plain_literal; [discriminate | reflexivity | discriminate]).
  rewrite !Join_dir_name, !Dir_absPath by assumption.
  repeat split.
Qed.

End PathFacts.

Lemma socketPath_per_user_witness :
  Paths.socketPath (Paths.init sampleEnv) = bs "/tmp/todo-app-" ++ bs "alice" ++ bs ".sock"
  /\ (Paths.socketPath (Paths.init sampleEnv) = Paths.socketPath (Paths.init otherEnv)
      <-> bs "alice" = bs "bob").
Proof.
  apply (socketPath_per_user sampleEnv otherEnv (bs "alice") (bs "bob") eq_refl eq_refl);
    cbn; intuition discriminate.
Defined.

Lemma files_beside_executable_witness :
  Paths.dataFile (Paths.init sampleEnv) = bs "/opt/todo/bin/todo.json".
Proof.
  apply (proj1 (proj2 (files_beside_executable sampleEnv [bs "opt"; bs "todo"; bs "bin"]
                         (bs "todo") eq_refl
                         ltac:(repeat constructor; cbn; intuition discriminate)
                         ltac:(repeat split; cbn; intuition discriminate)))).
Defined.

(** When neither the executable nor the working directory is known, the
    files are looked for under relative names. *)
Example paths_fallback :
  Paths.init (mkEnv None [] None)
  = Paths.mk [] (bs "todo.json") (bs "tray.png") (bs "/tmp/todo-app.sock") true.
Proof. reflexivity. Qed.

(** ** The icon *)

Lemma colorEqb_eq a b : colorEqb a b = true -> a = b.
Proof.
  destruct a as [r g b0 a0], b as [r' g' b' a']. unfold colorEqb. cbn.
  intros H. apply andb_prop in H as [H Ha]. apply andb_prop in H as [H Hb].
  apply andb_prop in H as [Hr Hg].
  apply Byte.byte_dec_bl in Hr, Hg, Hb, Ha. now subst.
Qed.

(** The pixels of the canvas, one by one. *)
Lemma icon_table :
  forallb (fun y => forallb (fun x =>
    colorEqb (Image.RGBAAt iconImage (Z.of_nat x) (Z.of_nat y))
             (if onBar (Z.of_nat x) (Z.of_nat y) then black else transparent))
    (seq 0 32)) (seq 0 32) = true.
Proof. vm_compute. reflexivity. Qed.

(** X30. The icon [ensureIcon] draws is a canvas of 32 by 32 pixels, all
    transparent but three bars of opaque black: the pixels of the columns
    8 to 22 in the rows 8, 15 and 22. *)
Theorem iconImage_bars x y : 0 <= x < 32 -> 0 <= y < 32 ->
  Image.RGBAAt iconImage x y = (if onBar x y then black else transparent)
  /\ Image.Bounds iconImage = Image.Rect 0 0 32 32.
Proof.
  intros Hx Hy. split; [|reflexivity].
  pose proof icon_table as H. rewrite forallb_forall in H.
  assert (Iy : In (Z.to_nat y) (seq 0 32)) by (apply in_seq; lia).
  assert (Ix : In (Z.to_nat x) (seq 0 32)) by (apply in_seq; lia).
  specialize (H _ Iy). rewrite forallb_forall in H. specialize (H _ Ix).
  rewrite !Z2Nat.id in H by lia. now apply colorEqb_eq.
Qed.

Lemma iconImage_bars_witness :
  Image.RGBAAt iconImage 8 15 = (if onBar 8 15 then black else transparent)
  /\ Image.Bounds iconImage = Image.Rect 0 0 32 32.
Proof. apply (iconImage_bars 8 15); lia. Defined.
